(** * Retrieval Strategy Engine: a shallow embedding of
      [retrieval_strategies.py] and of [RetrieverManager] ([utils.py]).

    The engine's collaborators (vector index, lexical index, language model,
    [json.loads], [float]) are not part of the repository: they are taken as
    the fields of a [World] record.  Every call to a collaborator is recorded,
    with its answer, in a trace, and the answer of the vector index and of the
    language model may depend on the calls made before (a remote service may
    fail once and answer on the retry).  Logging calls are not modelled. *)

From Stdlib Require Import ZArith Floats String Ascii List Bool Lia.
From Stdlib Require Import Sorting.Sorted.
From stdpp Require Import base option list gmap strings pretty.

Set Warnings "-register-all".
Set Warnings "-automation".
Set Warnings "-inexact-float".

(* ================================================================== *)
(** ** Python values *)

(** The values [json.loads] can return.  Numbers are the integers.  The
    scores and weights of the strategies are Python [float]s, IEEE 754
    binary64 values: they are Rocq's primitive floats, with the same
    rounding, infinities and NaN. *)
Inductive json : Type :=
| JNull
| JBool (b : bool)
| JNum (n : Z)
| JStr (s : string)
| JArr (items : list json)
| JObj (fields : list (string * json)).

Fixpoint assoc {V : Type} (k : string) (d : list (string * V)) : option V :=
  match d with
  | [] => None
  | (k', v) :: d' => if String.eqb k' k then Some v else assoc k d'
  end.

(** Python's [==] on such values: [True == 1], lists are compared item by
    item, dicts key by key whatever the order. *)
Fixpoint py_eq (a b : json) {struct a} : bool :=
  match a, b with
  | JNull, JNull => true
  | JBool x, JBool y => Bool.eqb x y
  | JBool x, JNum n => Z.eqb (if x then 1 else 0) n
  | JNum n, JBool x => Z.eqb n (if x then 1 else 0)
  | JNum x, JNum y => Z.eqb x y
  | JStr x, JStr y => String.eqb x y
  | JArr xs, JArr ys =>
      (fix items_eq (xs ys : list json) {struct xs} : bool :=
         match xs, ys with
         | [], [] => true
         | x :: xs', y :: ys' => py_eq x y && items_eq xs' ys'
         | _, _ => false
         end) xs ys
  | JObj xs, JObj ys =>
      Nat.eqb (length xs) (length ys) &&
      (fix fields_eq (xs : list (string * json)) {struct xs} : bool :=
         match xs with
         | [] => true
         | (k, v) :: xs' =>
             match assoc k ys with
             | Some v' => py_eq v v'
             | None => false
             end && fields_eq xs'
         end) xs
  | _, _ => false
  end.

(** Truthiness, as tested by [if filters:]. *)
Definition truthy (j : json) : bool :=
  match j with
  | JNull => false
  | JBool b => b
  | JNum n => negb (Z.eqb n 0)
  | JStr s => negb (String.eqb s EmptyString)
  | JArr l => match l with [] => false | _ => true end
  | JObj l => match l with [] => false | _ => true end
  end.

(** [langchain_core.documents.Document]. *)
Record Document : Type := mkDocument {
  page_content : string;
  metadata : gmap string json
}.

Inductive exn : Type :=
| TypeError
| AttributeError
| ValueError
| JSONDecodeError
| Exception (msg : string).

Inductive outcome (A : Type) : Type :=
| Returns (a : A)
| Raises (e : exn).
Arguments Returns {A} a.
Arguments Raises {A} e.

(* ================================================================== *)
(** ** Strings and slices *)

(** [s[:n]] for a literal [n >= 0]. *)
Fixpoint str_take (n : nat) (s : string) : string :=
  match n, s with
  | S n', String c s' => String c (str_take n' s')
  | _, _ => EmptyString
  end.

(** [l[:k]] for an [int] [k]: a negative [k] counts from the end. *)
Definition slice_to {A : Type} (k : Z) (l : list A) : list A :=
  if (0 <=? k)%Z then take (Z.to_nat k) l
  else take (length l - Z.to_nat (- k)) l.

(** [str.isspace] on the ASCII range. *)
Definition is_space (c : ascii) : bool :=
  let n := nat_of_ascii c in
  (Nat.leb 9 n && Nat.leb n 13) || (Nat.leb 28 n && Nat.leb n 32).

Fixpoint drop_spaces (l : list ascii) : list ascii :=
  match l with
  | c :: l' => if is_space c then drop_spaces l' else l
  | [] => []
  end.

(** [s.strip()]. *)
Definition strip (s : string) : string :=
  string_of_list_ascii
    (rev (drop_spaces (rev (drop_spaces (list_ascii_of_string s))))).

Definition newline : ascii := ascii_of_nat 10.

(** [s.split('\n')]: never empty, [''.split('\n') == ['']]. *)
Fixpoint split_lines (s : string) : list string :=
  match s with
  | EmptyString => [EmptyString]
  | String c s' =>
      if Ascii.eqb c newline then EmptyString :: split_lines s'
      else match split_lines s' with
           | h :: t => String c h :: t
           | [] => [String c EmptyString]
           end
  end.

Definition nonempty (s : string) : bool := negb (String.eqb s EmptyString).

(** [[p.strip() for p in lines if p.strip()]]. *)
Definition stripped_lines (content : string) : list string :=
  map strip (filter (fun p => nonempty (strip p) = true) (split_lines (strip content))).

(** The deduplication key [doc.page_content[:100]]. *)
Definition fingerprint (doc : Document) : string :=
  str_take 100 (page_content doc).

(* ================================================================== *)
(** ** Collaborators, traces and the effect monad *)

Inductive event : Type :=
| EvSearch (query : string) (k : Z) (r : outcome (list Document))
| EvLexical (query : string) (r : outcome (list Document))
| EvLlm (prompt : string) (r : outcome string).

Definition trace := list event.

(** A built [BM25Retriever]: [invoke] is a function of the query. *)
Definition Bm25 := string -> outcome (list Document).

Record World : Type := mkWorld {
  (** [vector_store.similarity_search(text, k=k)] *)
  similarity_search : trace -> string -> Z -> outcome (list Document);
  (** [llm.invoke(prompt).content]; [None] when no client is configured *)
  llm : option (trace -> string -> outcome string);
  (** [json.loads]; [None] is [json.JSONDecodeError] *)
  json_loads : string -> option json;
  (** [float]; [None] is [ValueError] *)
  float_of_str : string -> option float;
  (** [BM25Retriever.from_documents] *)
  bm25_from_documents : list Document -> outcome Bm25;
  (** [os.getenv("RETRIEVAL_STRATEGY")] *)
  env_retrieval_strategy : option string
}.

(** Computations that call collaborators: they extend the trace and return
    or raise. *)
Definition M (A : Type) : Type := trace -> outcome A * trace.

Definition ret {A : Type} (a : A) : M A := fun t => (Returns a, t).

Definition raise {A : Type} (e : exn) : M A := fun t => (Raises e, t).

Definition bind {A B : Type} (m : M A) (f : A -> M B) : M B :=
  fun t =>
    match m t with
    | (Returns a, t') => f a t'
    | (Raises e, t') => (Raises e, t')
    end.

(** [try: m  except Exception as e: h e]. *)
Definition try_except {A : Type} (m : M A) (h : exn -> M A) : M A :=
  fun t =>
    match m t with
    | (Returns a, t') => (Returns a, t')
    | (Raises e, t') => h e t'
    end.

Declare Scope py_scope.
Delimit Scope py_scope with py.
Notation "'let*' x ':=' m 'in' f" := (bind m (fun x => f))
  (at level 10, x name, m at level 100, f at level 200) : py_scope.
Open Scope py_scope.

Definition vs_search (w : World) (q : string) (k : Z) : M (list Document) :=
  fun t => let r := similarity_search w t q k in (r, t ++ [EvSearch q k r]).

Definition bm25_invoke (b : Bm25) (q : string) : M (list Document) :=
  fun t => let r := b q in (r, t ++ [EvLexical q r]).

Definition llm_invoke (client : trace -> string -> outcome string)
    (prompt : string) : M string :=
  fun t => let r := client t prompt in (r, t ++ [EvLlm prompt r]).

(** [for x in l: s = body x s], where the body may raise. *)
Fixpoint for_each {A S : Type} (l : list A) (body : A -> S -> M S) (s : S) : M S :=
  match l with
  | [] => ret s
  | x :: l' => let* s' := body x s in for_each l' body s'
  end.

(* ================================================================== *)
(** ** Insertion-ordered dictionaries and [sorted(..., reverse=True)] *)

(** A Python [dict] with string keys: iteration follows insertion order. *)
Definition odict (V : Type) : Type := list (string * V).

Definition od_mem {V : Type} (k : string) (d : odict V) : bool :=
  match assoc k d with Some _ => true | None => false end.

(** [d[k] = v]: a new key goes last, an old key keeps its place. *)
Fixpoint od_set {V : Type} (k : string) (v : V) (d : odict V) : odict V :=
  match d with
  | [] => [(k, v)]
  | (k', v') :: d' =>
      if String.eqb k' k then (k', v) :: d' else (k', v') :: od_set k v d'
  end.

(** [d[k] = f(d[k])] for a key that is present. *)
Fixpoint od_alter {V : Type} (f : V -> V) (k : string) (d : odict V) : odict V :=
  match d with
  | [] => []
  | (k', v') :: d' =>
      if String.eqb k' k then (k', f v') :: d' else (k', v') :: od_alter f k d'
  end.

(** [d.values()]. *)
Definition od_values {V : Type} (d : odict V) : list V := map snd d.

Section Sorting.
Context {A K : Type} (ltb : K -> K -> bool) (key : A -> K).

(** [x] goes in front of the first element whose key is not greater. *)
Fixpoint insert_desc (x : A) (l : list A) : list A :=
  match l with
  | [] => [x]
  | y :: l' =>
      if ltb (key x) (key y) then y :: insert_desc x l' else x :: y :: l'
  end.

(** [sorted(l, key=key, reverse=True)]: descending, and stable (equal keys
    keep their input order), using only [<] on keys as Python does.  Where
    [<] orders the keys (integers, floats other than NaN) this is the one
    stable descending order; a list of at most two items is swapped exactly
    when the first key is [<] the second, whatever the keys. *)
Fixpoint sorted_desc (l : list A) : list A :=
  match l with
  | [] => []
  | x :: l' => insert_desc x (sorted_desc l')
  end.

(** [a] does not rank below [b]: the order of a descending list. *)
Definition not_below (a b : A) : Prop := ltb (key a) (key b) = false.
End Sorting.

(* ================================================================== *)
(** ** The strategies *)

(** A strategy object with its configuration.  The vector store and the
    language model client it holds are those of the [World]. *)
Inductive Strategy : Type :=
| SemanticRetriever
| HybridRetriever (semantic_weight keyword_weight : float)
    (bm25_retriever : option Bm25)
| SemanticQueryExpansionRetriever (expansion_count : Z)
| ContextReRankingRetriever (rerank_top_k : Z)
| SelfQueryRetriever (metadata_fields : list string)
| MultiHopRetriever (max_hops : Z).

(** *** Semantic *)

Definition semantic_retrieve (w : World) (query : string) (k : Z)
  : M (list Document) :=
  try_except
    (let* docs := vs_search w query k in ret docs)
    (fun _ => ret []).

(** *** Hybrid *)

(** The values of Hybrid's [doc_dict]: [{"doc": doc, "score": score}]. *)
Record scored : Type := mkScored { sc_doc : Document; sc_score : float }.

(** One iteration of either loop of [HybridRetriever.retrieve]. *)
Definition hybrid_add (weight : float) (doc_dict : odict scored)
    (doc : Document) : odict scored :=
  let key := fingerprint doc in
  if negb (od_mem key doc_dict)
  then od_set key (mkScored doc weight) doc_dict
  else od_alter (fun e => mkScored (sc_doc e) (sc_score e + weight)%float)
         key doc_dict.

Definition hybrid_merge (semantic_weight keyword_weight : float)
    (semantic_docs keyword_docs : list Document) : odict scored :=
  let doc_dict := fold_left (hybrid_add semantic_weight) semantic_docs [] in
  fold_left (hybrid_add keyword_weight) keyword_docs doc_dict.

Definition hybrid_rank (semantic_weight keyword_weight : float)
    (semantic_docs keyword_docs : list Document) : list scored :=
  sorted_desc PrimFloat.ltb sc_score
    (od_values (hybrid_merge semantic_weight keyword_weight
                  semantic_docs keyword_docs)).

Definition hybrid_retrieve (w : World)
    (semantic_weight keyword_weight : float)
    (bm25_retriever : option Bm25) (query : string) (k : Z)
  : M (list Document) :=
  try_except
    (match bm25_retriever with
     | None => vs_search w query k
     | Some bm25 =>
         let* semantic_docs := vs_search w query k in
         let* found := bm25_invoke bm25 query in
         let keyword_docs := slice_to k found in
         let sorted_docs :=
           hybrid_rank semantic_weight keyword_weight
             semantic_docs keyword_docs in
         ret (map sc_doc (slice_to k sorted_docs))
     end)
    (fun _ => vs_search w query k).

(** *** Query expansion *)

Definition nl : string := String newline EmptyString.

Definition paraphrase_prompt (expansion_count : Z) (query : string) : string :=
  "Generate " +:+ pretty expansion_count +:+
  " different ways to rephrase this question. " +:+ nl +:+
  "Return only the questions, one per line, without numbering." +:+ nl +:+ nl +:+
  "Original Question: " +:+ query +:+ nl +:+ nl +:+
  "Rephrased Questions:".

Definition generate_paraphrases (w : World) (expansion_count : Z)
    (query : string) : M (list string) :=
  match llm w with
  | None => ret [query]
  | Some client =>
      try_except
        (let* content := llm_invoke client
                           (paraphrase_prompt expansion_count query) in
         ret (slice_to expansion_count (stripped_lines content)))
        (fun _ => ret [query])
  end.

(** The values of Query Expansion's [doc_dict]. *)
Record counted : Type := mkCounted { ct_doc : Document; ct_count : Z }.

Definition count_add (doc_dict : odict counted) (doc : Document)
  : odict counted :=
  let key := fingerprint doc in
  let doc_dict :=
    if negb (od_mem key doc_dict)
    then od_set key (mkCounted doc 0) doc_dict
    else doc_dict in
  od_alter (fun e => mkCounted (ct_doc e) (ct_count e + 1)) key doc_dict.

Definition expansion_retrieve (w : World) (expansion_count : Z)
    (query : string) (k : Z) : M (list Document) :=
  try_except
    (let* paraphrases := generate_paraphrases w expansion_count query in
     let queries := query :: paraphrases in
     let* doc_dict :=
       for_each queries
         (fun q doc_dict =>
            let* docs := vs_search w q k in
            ret (fold_left count_add docs doc_dict))
         [] in
     let sorted_docs := sorted_desc Z.ltb ct_count (od_values doc_dict) in
     ret (map ct_doc (slice_to k sorted_docs)))
    (fun _ => vs_search w query k).

(** *** Context re-ranking *)

Definition relevance_prompt (query : string) (doc : Document) : string :=
  "Rate the relevance of this document to the query on a scale of 0-10." +:+ nl +:+
  "Return only a single number." +:+ nl +:+ nl +:+
  "Query: " +:+ query +:+ nl +:+ nl +:+
  "Document: " +:+ str_take 300 (page_content doc) +:+ "..." +:+ nl +:+ nl +:+
  "Relevance Score:".

(** Python's two-argument [max] and [min]: the first argument is kept
    unless the second is strictly beyond it. *)
Definition py_max (a b : float) : float := if (a <? b)%float then b else a.
Definition py_min (a b : float) : float := if (b <? a)%float then b else a.

Definition score_relevance (w : World) (query : string) (doc : Document)
  : M float :=
  match llm w with
  | None => ret 1%float
  | Some client =>
      try_except
        (let* content := llm_invoke client (relevance_prompt query doc) in
         match float_of_str w (strip content) with
         | Some score => ret (py_min (py_max score 0) 10)
         | None => ret 5%float
         end)
        (fun _ => ret 5%float)
  end.

Definition rerank_retrieve (w : World) (rerank_top_k : Z)
    (query : string) (k : Z) : M (list Document) :=
  try_except
    (let* initial_docs := vs_search w query rerank_top_k in
     match initial_docs with
     | [] => ret []
     | _ =>
         let* scored_docs :=
           for_each initial_docs
             (fun doc scored_docs =>
                let* score := score_relevance w query doc in
                ret (scored_docs ++ [(doc, score)]))
             [] in
         let scored_docs := sorted_desc PrimFloat.ltb snd scored_docs in
         ret (map fst (slice_to k scored_docs))
     end)
    (fun _ => vs_search w query k).

(** *** Self-query *)

Definition filter_prompt (metadata_fields : list string) (query : string)
  : string :=
  "Extract metadata filters from this query if present." +:+ nl +:+
  "Return a JSON object with extracted filters, or empty object if none found." +:+ nl +:+ nl +:+
  "Available metadata fields: " +:+ String.concat ", " metadata_fields +:+ nl +:+ nl +:+
  "Query: " +:+ query +:+ nl +:+ nl +:+
  "Extracted Filters (JSON only):".

Definition extract_filters (w : World) (metadata_fields : list string)
    (query : string) : M json :=
  match llm w with
  | None => ret (JObj [])
  | Some client =>
      try_except
        (let* content := llm_invoke client
                           (filter_prompt metadata_fields query) in
         match json_loads w (strip content) with
         | Some filters => ret filters
         | None => ret (JObj [])
         end)
        (fun _ => ret (JObj []))
  end.

(** The inner loop [for key, value in filters.items()] with its [break]:
    the final value of [match]. *)
Fixpoint filter_match (fields : list (string * json)) (doc : Document) : bool :=
  match fields with
  | [] => true
  | (key, value) :: fields' =>
      match metadata doc !! key with
      | Some found =>
          if negb (py_eq found value) then false else filter_match fields' doc
      | None => filter_match fields' doc
      end
  end.

(** The loop [for doc in docs] that fills [filtered_docs]; [filters.items()]
    raises on a value that is not a dict, the first time it is evaluated. *)
Fixpoint filter_docs (filters : json) (docs filtered_docs : list Document)
  : outcome (list Document) :=
  match docs with
  | [] => Returns filtered_docs
  | doc :: docs' =>
      match filters with
      | JObj fields =>
          filter_docs filters docs'
            (if filter_match fields doc then filtered_docs ++ [doc]
             else filtered_docs)
      | _ => Raises AttributeError
      end
  end.

Definition lift {A : Type} (r : outcome A) : M A := fun t => (r, t).

Definition self_query_retrieve (w : World) (metadata_fields : list string)
    (query : string) (k : Z) : M (list Document) :=
  try_except
    (let* filters := extract_filters w metadata_fields query in
     let* docs := vs_search w query k in
     let* docs :=
       if truthy filters then
         let* filtered_docs := lift (filter_docs filters docs []) in
         ret (match filtered_docs with [] => docs | _ => filtered_docs end)
       else ret docs in
     ret (slice_to k docs))
    (fun _ => vs_search w query k).

(** What the filtering step leaves: the passages that match, or all of
    them when none does ([filtered_docs if filtered_docs else docs]). *)
Definition filtered_or_all (fields : list (string * json))
    (docs : list Document) : list Document :=
  let filtered_docs := List.filter (filter_match fields) docs in
  match filtered_docs with
  | [] => docs
  | _ => filtered_docs
  end.

(** *** Multi-hop *)

Definition decompose_prompt (max_hops : Z) (query : string) : string :=
  "Decompose this complex question into " +:+ pretty (Z.min max_hops 3) +:+
  " simpler sub-questions." +:+ nl +:+
  "Return only the questions, one per line, without numbering." +:+ nl +:+ nl +:+
  "Original Question: " +:+ query +:+ nl +:+ nl +:+
  "Sub-questions:".

Definition decompose_question (w : World) (max_hops : Z) (query : string)
  : M (list string) :=
  match llm w with
  | None => ret [query]
  | Some client =>
      try_except
        (let* content := llm_invoke client (decompose_prompt max_hops query) in
         let sub_questions := slice_to max_hops (stripped_lines content) in
         ret (match sub_questions with [] => [query] | _ => sub_questions end))
        (fun _ => ret [query])
  end.

(** The values of Multi-Hop's [doc_dict]. *)
Record hopped : Type := mkHopped { hp_doc : Document; hp_hops : list nat }.

Definition hop_add (i : nat) (doc_dict : odict hopped) (doc : Document)
  : odict hopped :=
  let key := fingerprint doc in
  let doc_dict :=
    if negb (od_mem key doc_dict)
    then od_set key (mkHopped doc []) doc_dict
    else doc_dict in
  od_alter (fun e => mkHopped (hp_doc e) (hp_hops e ++ [i])) key doc_dict.

(** [enumerate(l)]. *)
Definition enumerate {A : Type} (l : list A) : list (nat * A) :=
  combine (seq 0 (length l)) l.

Definition multihop_retrieve (w : World) (max_hops : Z)
    (query : string) (k : Z) : M (list Document) :=
  try_except
    (let* sub_questions := decompose_question w max_hops query in
     let* doc_dict :=
       for_each (enumerate sub_questions)
         (fun '(i, sub_q) doc_dict =>
            let* docs := vs_search w sub_q k in
            ret (fold_left (hop_add i) docs doc_dict))
         [] in
     let sorted_docs :=
       sorted_desc Nat.ltb (fun e => length (hp_hops e)) (od_values doc_dict) in
     ret (map hp_doc (slice_to k sorted_docs)))
    (fun _ => vs_search w query k).

(** *** Dispatch: [strategy.retrieve(query, k=k)] *)

Definition retrieve (w : World) (s : Strategy) (query : string) (k : Z)
  : M (list Document) :=
  match s with
  | SemanticRetriever => semantic_retrieve w query k
  | HybridRetriever sw kw bm25 => hybrid_retrieve w sw kw bm25 query k
  | SemanticQueryExpansionRetriever n => expansion_retrieve w n query k
  | ContextReRankingRetriever n => rerank_retrieve w n query k
  | SelfQueryRetriever fields => self_query_retrieve w fields query k
  | MultiHopRetriever n => multihop_retrieve w n query k
  end.

(* ================================================================== *)
(** ** The strategy factory *)

Inductive StrategyClass : Type :=
| CSemantic | CHybrid | CQueryExpansion | CReRanking | CSelfQuery | CMultiHop.

(** [StrategyFactory._strategies]. *)
Definition _strategies : list (string * StrategyClass) :=
  [("semantic", CSemantic); ("hybrid", CHybrid);
   ("query_expansion", CQueryExpansion); ("reranking", CReRanking);
   ("self_query", CSelfQuery); ("multihop", CMultiHop)].

(** A keyword argument of [**kwargs].  The options the constructors know
    carry values of the type the environment reader gives them; any other
    keyword is [KwOther]. *)
Inductive kwarg : Type :=
| KwSemanticWeight (v : float)
| KwExpansionCount (v : Z)
| KwRerankTopK (v : Z)
| KwMetadataFields (v : list string)
| KwMaxHops (v : Z)
| KwOther (name : string).

(** [strategy_class(vector_store, llm, **kwargs)]: each constructor takes
    one optional keyword of its own; any other keyword is a [TypeError]. *)
Definition construct (c : StrategyClass) (kwargs : list kwarg)
  : outcome Strategy :=
  match c, kwargs with
  | CSemantic, [] => Returns SemanticRetriever
  | CHybrid, [] => Returns (HybridRetriever 0.6 (1 - 0.6) None)
  | CHybrid, [KwSemanticWeight v] => Returns (HybridRetriever v (1 - v) None)
  | CQueryExpansion, [] => Returns (SemanticQueryExpansionRetriever 3)
  | CQueryExpansion, [KwExpansionCount v] =>
      Returns (SemanticQueryExpansionRetriever v)
  | CReRanking, [] => Returns (ContextReRankingRetriever 5)
  | CReRanking, [KwRerankTopK v] => Returns (ContextReRankingRetriever v)
  | CSelfQuery, [] =>
      Returns (SelfQueryRetriever ["source"; "page"; "type"; "date"])
  | CSelfQuery, [KwMetadataFields v] =>
      Returns (SelfQueryRetriever
                 (match v with
                  | [] => ["source"; "page"; "type"; "date"]
                  | _ => v
                  end))
  | CMultiHop, [] => Returns (MultiHopRetriever 3)
  | CMultiHop, [KwMaxHops v] => Returns (MultiHopRetriever v)
  | _, _ => Raises TypeError
  end.

(** [str.lower] on the ASCII range. *)
Definition lower_ascii (c : ascii) : ascii :=
  let n := nat_of_ascii c in
  if Nat.leb 65 n && Nat.leb n 90 then ascii_of_nat (n + 32) else c.

Fixpoint lower (s : string) : string :=
  match s with
  | EmptyString => EmptyString
  | String c s' => String (lower_ascii c) (lower s')
  end.

(** [StrategyFactory.create]. *)
Definition create (strategy_name : string) (kwargs : list kwarg)
  : outcome Strategy :=
  let strategy_class :=
    match assoc (lower strategy_name) _strategies with
    | Some c => c
    | None => CSemantic
    end in
  construct strategy_class kwargs.

(** [StrategyFactory.get_available_strategies]. *)
Definition get_available_strategies : list string := map fst _strategies.

(* ================================================================== *)
(** ** The retriever manager *)

Record RetrieverManager : Type := mkManager {
  retriever : option Strategy;
  current_strategy : option string
}.

(** [RetrieverManager.__init__]. *)
Definition new_manager : RetrieverManager := mkManager None None.

(** [Hybrid.set_bm25_retriever(documents)], on the object held by the
    manager ([hasattr] holds for Hybrid only). *)
Definition set_bm25_retriever (w : World) (s : Strategy)
    (documents : list Document) : outcome Strategy :=
  match s with
  | HybridRetriever sw kw _ =>
      match bm25_from_documents w documents with
      | Returns b => Returns (HybridRetriever sw kw (Some b))
      | Raises e => Raises e
      end
  | _ => Returns s
  end.

(** [RetrieverManager.initialize_strategy]: returns the manager as the call
    leaves it; the strategy returned by the method is its [retriever]. *)
Definition initialize_strategy (w : World) (strategy_name : option string)
    (kwargs : list kwarg) : M RetrieverManager :=
  let strategy_name :=
    match strategy_name with
    | Some n => n
    | None => default "semantic" (env_retrieval_strategy w)
    end in
  try_except
    (let* r := lift (create strategy_name kwargs) in
     let* r :=
       if String.eqb (lower strategy_name) "hybrid" then
         try_except
           (let* all_docs := vs_search w EmptyString 1000 in
            lift (set_bm25_retriever w r all_docs))
           (fun _ => ret r)
       else ret r in
     ret (mkManager (Some r) (Some strategy_name)))
    (fun _ =>
       let* r := lift (create "semantic" []) in
       ret (mkManager (Some r) (Some "semantic"))).

(** [RetrieverManager.retrieve]. *)
Definition manager_retrieve (w : World) (m : RetrieverManager)
    (query : string) (k : Z) : M (RetrieverManager * list Document) :=
  let* m :=
    match retriever m with
    | None => initialize_strategy w None []
    | Some _ => ret m
    end in
  match retriever m with
  | Some s => let* docs := retrieve w s query k in ret (m, docs)
  | None => raise AttributeError
  end.

(** [RetrieverManager.switch_strategy]. *)
Definition switch_strategy (w : World) (strategy_name : string)
    (kwargs : list kwarg) : M RetrieverManager :=
  initialize_strategy w (Some strategy_name) kwargs.

(* ================================================================== *)
(** ** Reading a trace, and the merge loops seen as one fold *)

(** The passages an index call returned. *)
Definition event_docs (ev : event) : list Document :=
  match ev with
  | EvSearch _ _ (Returns l) => l
  | EvLexical _ (Returns l) => l
  | _ => []
  end.

(** Every passage the indices yielded, in discovery order. *)
Definition yielded (evs : trace) : list Document :=
  concat (map event_docs evs).

Definition index_failed (ev : event) : bool :=
  match ev with
  | EvSearch _ _ (Raises _) => true
  | EvLexical _ (Raises _) => true
  | _ => false
  end.

Definition no_index_failure (evs : trace) : bool :=
  forallb (fun ev => negb (index_failed ev)) evs.

(** The similarity searches issued: text and size. *)
Definition searches (evs : trace) : list (string * Z) :=
  flat_map (fun ev => match ev with EvSearch q k _ => [(q, k)] | _ => [] end) evs.

(** The number of distinct fingerprints among the passages yielded. *)
Definition distinct_candidates (evs : trace) : nat :=
  length (remove_dups (map fingerprint (yielded evs))).

Definition same_fingerprint (key : string) (doc : Document) : bool :=
  String.eqb (fingerprint doc) key.

(** [doc] is the first passage of [found] with its fingerprint. *)
Definition first_discovered (found : list Document) (doc : Document) : Prop :=
  List.find (same_fingerprint (fingerprint doc)) found = Some doc.

(** The three merge loops have one shape: an item [(x, doc)] creates the
    entry of a new fingerprint from [doc] and updates the entry of a
    known one without looking at [doc]. *)
Section Merge.
Context {X E : Type} (fresh : X -> Document -> E) (bump : X -> E -> E).

Definition merge_add (doc_dict : odict E) (item : X * Document) : odict E :=
  let key := fingerprint (snd item) in
  if negb (od_mem key doc_dict)
  then od_set key (fresh (fst item) (snd item)) doc_dict
  else od_alter (bump (fst item)) key doc_dict.

Definition merge (items : list (X * Document)) : odict E :=
  fold_left merge_add items [].

(** The items that carry the fingerprint [key]. *)
Definition group (key : string) (items : list (X * Document))
  : list (X * Document) :=
  List.filter (fun item => same_fingerprint key (snd item)) items.

(** The entry a group of items builds. *)
Definition entry_of (items : list (X * Document)) : option E :=
  match items with
  | [] => None
  | (x, doc) :: rest =>
      Some (fold_left (fun e item => bump (fst item) e) rest (fresh x doc))
  end.
End Merge.

(** The passages that open a new fingerprint, in discovery order. *)
Definition first_docs (found : list Document) : list Document :=
  fold_left
    (fun acc doc =>
       if existsb (same_fingerprint (fingerprint doc)) acc then acc
       else acc ++ [doc])
    found [].

(** How many passages of [found] carry the fingerprint [key]. *)
Definition occurrences (key : string) (found : list Document) : nat :=
  length (List.filter (same_fingerprint key) found).

(** The three loops as instances of [merge_add]. *)
Definition scored_fresh (weight : float) (doc : Document) : scored :=
  mkScored doc weight.
Definition scored_bump (weight : float) (e : scored) : scored :=
  mkScored (sc_doc e) (sc_score e + weight)%float.

Definition counted_fresh {X : Type} (_ : X) (doc : Document) : counted :=
  mkCounted doc (0 + 1).
Definition counted_bump {X : Type} (_ : X) (e : counted) : counted :=
  mkCounted (ct_doc e) (ct_count e + 1).

Definition hopped_fresh {Y : Type} (x : nat * Y) (doc : Document) : hopped :=
  mkHopped doc ([] ++ [fst x]).
Definition hopped_bump {Y : Type} (x : nat * Y) (e : hopped) : hopped :=
  mkHopped (hp_doc e) (hp_hops e ++ [fst x]).

(** The passages found for the items [xs], each with the item it answers. *)
Definition tag {X : Type} (xs : list X) (docss : list (list Document))
  : list (X * Document) :=
  concat (zip_with (fun x docs => map (pair x) docs) xs docss).

(** The answers of the similarity searches that returned, in order. *)
Definition answers (evs : trace) : list (list Document) :=
  flat_map
    (fun ev => match ev with EvSearch _ _ (Returns docs) => [docs] | _ => [] end)
    evs.

(** The passages those searches found, each with the index of its search:
    for Multi-Hop, the index of the hop. *)
Definition by_hop (evs : trace) : list (nat * Document) :=
  tag (seq 0 (length (answers evs))) (answers evs).


(** The dictionary Multi-Hop's loop builds from the passages found, each
    with the index of its hop. *)
Definition hop_merge (found : list (nat * Document)) : odict hopped :=
  fold_left (fun doc_dict item => hop_add (fst item) doc_dict (snd item))
    found [].

Definition is_llm_event (ev : event) : bool :=
  match ev with EvLlm _ _ => true | _ => false end.

(** Events of the language model only. *)
Definition llm_only (evs : trace) : Prop := forallb is_llm_event evs = true.

(** The result of a merging strategy: the documents of the entries, ranked
    and cut at [k]. *)
Definition ranked_docs {E K : Type} (ltb : K -> K -> bool) (key : E -> K)
    (doc_of : E -> Document) (k : Z) (doc_dict : odict E) : list Document :=
  map doc_of (slice_to k (sorted_desc ltb key (od_values doc_dict))).

(** What an entry that receives the weights [weights], in this order,
    accumulates: the first weight is stored, each later one is added. *)
Definition accumulate (weights : list float) : option float :=
  match weights with
  | [] => None
  | weight :: rest => Some (fold_left PrimFloat.add rest weight)
  end.

(** The weights the two loops of Hybrid hand to the fingerprint [key]. *)
Definition hybrid_weights (sw kw : float)
    (semantic_docs keyword_docs : list Document) (key : string) : list float :=
  repeat sw (occurrences key semantic_docs) ++
  repeat kw (occurrences key keyword_docs).

(** A float other than NaN. *)
Definition is_number (x : float) : Prop := PrimFloat.is_nan x = false.


(** Where a fingerprint was found by Hybrid's two searches. *)
Definition in_both (key : string) (semantic_docs keyword_docs : list Document)
  : Prop :=
  In key (map fingerprint semantic_docs) /\
  In key (map fingerprint keyword_docs).

Definition in_one_only (key : string)
    (semantic_docs keyword_docs : list Document) : Prop :=
  (In key (map fingerprint semantic_docs) /\
   ~ In key (map fingerprint keyword_docs)) \/
  (~ In key (map fingerprint semantic_docs) /\
   In key (map fingerprint keyword_docs)).

(** [s] is a value [_score_relevance(query, doc)] returns. *)
Definition scored_by (w : World) (query : string) (doc : Document)
    (s : float)
  : Prop :=
  exists t, fst (score_relevance w query doc t) = Returns s.

(** The assumptions on the indices: a search of size [k] answers with at
    most [k] passages. *)
Definition search_bounded (w : World) : Prop :=
  forall t query k docs,
    similarity_search w t query k = Returns docs ->
    (Z.of_nat (length docs) <= k)%Z.

Definition lexical_bounded (k : Z) (s : Strategy) : Prop :=
  match s with
  | HybridRetriever _ _ (Some bm25) =>
      forall query docs,
        bm25 query = Returns docs -> (Z.of_nat (length docs) <= k)%Z
  | _ => True
  end.

Definition is_self_query (s : Strategy) : bool :=
  match s with SelfQueryRetriever _ => true | _ => false end.

(* ================================================================== *)
(** ** Sample passages and collaborators *)

Definition plain (content : string) : Document := mkDocument content ∅.

Definition index_down : exn := Exception "index unavailable".

(** No language model; every other collaborator fails. *)
Definition offline : World :=
  mkWorld (fun _ _ _ => Raises index_down) None
    (fun _ => None) (fun _ => None)
    (fun _ => Raises (Exception "no corpus")) None.

(** An index that ranks [docs] in this order for every query: a search of
    size [k] answers with the first [k] of them. *)
Definition top_k (docs : list Document) (k : Z) : outcome (list Document) :=
  if (0 <=? k)%Z then Returns (take (Z.to_nat k) docs)
  else Raises (Exception "k must not be negative").

(** That index, and no language model. *)
Definition fixed_index (docs : list Document) : World :=
  mkWorld (fun _ _ k => top_k docs k) None
    (fun _ => None) (fun _ => None)
    (fun _ => Raises (Exception "no corpus")) None.

(** The same index with a language model that always answers [reply]. *)
Definition with_llm (docs : list Document) (reply : string)
    (loads : string -> option json) (parse : string -> option float)
  : World :=
  mkWorld (fun _ _ k => top_k docs k) (Some (fun _ _ => Returns reply))
    loads parse (fun _ => Raises (Exception "no corpus")) None.

(** The float of a small natural number. *)
Definition float_of_nat (n : nat) : float :=
  PrimFloat.of_uint63 (Uint63.of_Z (Z.of_nat n)).

(** The same index with a language model that repeats its prompt, read as
    a score that grows with the length of the passage. *)
Definition echo_world (docs : list Document) : World :=
  mkWorld (fun _ _ k => top_k docs k) (Some (fun _ prompt => Returns prompt))
    (fun _ => None)
    (fun s => Some (float_of_nat (String.length s) - 155)%float)
    (fun _ => Raises (Exception "no corpus")) None.

(** A shared header of one hundred characters. *)
Definition header : string := string_of_list_ascii (repeat "h"%char 100).

Definition doc_a : Document := plain (header +:+ " first body").
Definition doc_a' : Document := plain (header +:+ " second body").
Definition doc_b : Document := plain "b: an unrelated passage".
Definition doc_c : Document := plain "c: another passage".
Definition doc_d : Document := plain "d: yet another passage".

Definition tagged (k v : string) (content : string) : Document :=
  mkDocument content {[ k := JStr v ]}.

Definition by_alice : Document := tagged "author" "alice" "notes by alice".
Definition by_bob : Document := tagged "author" "bob" "notes by bob".

(** The JSON text of an object with one string field. *)
Definition dq : string := String (ascii_of_nat 34) EmptyString.

Definition json_text (k v : string) : string :=
  "{" +:+ dq +:+ k +:+ dq +:+ ": " +:+ dq +:+ v +:+ dq +:+ "}".

(** [json.loads] on that text alone. *)
Definition loads_only (k v : string) (s : string) : option json :=
  if String.eqb s (json_text k v) then Some (JObj [(k, JStr v)]) else None.

(** A language model that answers with the filter [{author: bob}]. *)
Definition author_filter_world : World :=
  with_llm [by_alice; by_bob] (json_text "author" "bob")
    (loads_only "author" "bob") (fun _ => None).

(** A language model whose answer is not JSON. *)
Definition chatty_world : World :=
  with_llm [by_alice; by_bob] "I found no filters." (fun _ => None)
    (fun _ => None).

Definition manual_1 : Document := tagged "type" "manual" "manual, part one".
Definition manual_2 : Document := tagged "type" "manual" "manual, part two".
Definition report_1 : Document := tagged "type" "report" "first report".
Definition report_2 : Document := tagged "type" "report" "second report".
Definition untyped_1 : Document := plain "a passage without a type".

(** A language model that answers with the filter [{type: manual}]. *)
Definition type_filter_world (docs : list Document) : World :=
  with_llm docs (json_text "type" "manual")
    (loads_only "type" "manual") (fun _ => None).

(** A lexical index that answers every query with [docs]. *)
Definition lexical (docs : list Document) : Bm25 := fun _ => Returns docs.

(* ================================================================== *)
(** ** Descriptors, the environment reader and the document processor *)

(** The values of a descriptor returned by [get_info]. *)
Inductive info_value : Type :=
| IStr (s : string)
| IFloat (x : float)
| IInt (n : Z)
| IStrs (l : list string).

(** [strategy.get_info()]. *)
Definition get_info (s : Strategy) : list (string * info_value) :=
  match s with
  | SemanticRetriever =>
      [("name", IStr "semantic"); ("type", IStr "semantic");
       ("description", IStr "Basic vector similarity search using FAISS")]
  | HybridRetriever sw kw _ =>
      [("name", IStr "hybrid"); ("type", IStr "hybrid");
       ("description", IStr "Combines BM25 (keyword) and semantic search");
       ("semantic_weight", IFloat sw); ("keyword_weight", IFloat kw)]
  | SemanticQueryExpansionRetriever n =>
      [("name", IStr "query_expansion"); ("type", IStr "query_expansion");
       ("description", IStr "Expands queries with LLM paraphrases");
       ("expansion_count", IInt n)]
  | ContextReRankingRetriever n =>
      [("name", IStr "reranking"); ("type", IStr "reranking");
       ("description", IStr "Re-ranks results by LLM relevance scoring");
       ("rerank_top_k", IInt n)]
  | SelfQueryRetriever fields =>
      [("name", IStr "self_query"); ("type", IStr "self_query");
       ("description", IStr "Extracts metadata filters from query");
       ("metadata_fields", IStrs fields)]
  | MultiHopRetriever n =>
      [("name", IStr "multihop"); ("type", IStr "multihop");
       ("description", IStr "Decomposes complex questions into sub-queries");
       ("max_hops", IInt n)]
  end.

(** [RetrieverManager.get_strategy_info]. *)
Definition get_strategy_info (m : RetrieverManager)
  : list (string * info_value) :=
  match retriever m with
  | Some s => get_info s
  | None => [("strategy", IStr "none"); ("status", IStr "not initialized")]
  end.

(** [RetrieverManager.list_available_strategies]. *)
Definition list_available_strategies : list string := get_available_strategies.

(** [s.split(sep)] for a separator of one character. *)
Fixpoint split_on (sep : ascii) (s : string) : list string :=
  match s with
  | EmptyString => [EmptyString]
  | String c s' =>
      if Ascii.eqb c sep then EmptyString :: split_on sep s'
      else match split_on sep s' with
           | h :: t => String c h :: t
           | [] => [String c EmptyString]
           end
  end.

(** What [get_retrieval_strategy_from_env] reads: the process environment
    and Python's [float] and [int] on strings ([None] is [ValueError]). *)
Record Environ : Type := mkEnviron {
  getenv : string -> option string;
  py_float : string -> option float;
  py_int : string -> option Z
}.

(** [os.getenv(name, fallback)]. *)
Definition getenv_or (env : Environ) (name fallback : string) : string :=
  default fallback (getenv env name).

Definition comma : ascii := ascii_of_nat 44.

(** The [kwargs] that [get_retrieval_strategy_from_env] builds. *)
Definition env_kwargs (env : Environ) (strategy_name : string)
  : outcome (list kwarg) :=
  let name := lower strategy_name in
  if String.eqb name "hybrid" then
    match py_float env (getenv_or env "HYBRID_SEMANTIC_WEIGHT" "0.6") with
    | Some v => Returns [KwSemanticWeight v]
    | None => Raises ValueError
    end
  else if String.eqb name "query_expansion" then
    match py_int env (getenv_or env "QUERY_EXPANSION_COUNT" "3") with
    | Some v => Returns [KwExpansionCount v]
    | None => Raises ValueError
    end
  else if String.eqb name "reranking" then
    match py_int env (getenv_or env "RERANK_TOP_K" "5") with
    | Some v => Returns [KwRerankTopK v]
    | None => Raises ValueError
    end
  else if String.eqb name "self_query" then
    Returns [KwMetadataFields
               (split_on comma
                  (getenv_or env "SELF_QUERY_METADATA_FIELDS"
                     "source,page,type,date"))]
  else if String.eqb name "multihop" then
    match py_int env (getenv_or env "MULTIHOP_MAX_HOPS" "3") with
    | Some v => Returns [KwMaxHops v]
    | None => Raises ValueError
    end
  else Returns [].

(** [get_retrieval_strategy_from_env]. *)
Definition get_retrieval_strategy_from_env (env : Environ)
  : outcome Strategy :=
  let strategy_name := getenv_or env "RETRIEVAL_STRATEGY" "semantic" in
  match env_kwargs env strategy_name with
  | Returns kwargs => create strategy_name kwargs
  | Raises e => Raises e
  end.

(** The collaborators of [DocumentProcessor]: [PyPDFLoader(path).load()]
    and [text_splitter.split_documents]. *)
Record PdfTools : Type := mkPdfTools {
  pdf_pages : string -> outcome (list Document);
  splitter : list Document -> outcome (list Document)
}.

(** [DocumentProcessor.load_pdf]. *)
Definition load_pdf (tools : PdfTools) (file_path : string) : list Document :=
  match pdf_pages tools file_path with
  | Returns pages => pages
  | Raises _ => []
  end.

(** [DocumentProcessor.load_multiple_pdfs]. *)
Definition load_multiple_pdfs (tools : PdfTools) (file_paths : list string)
  : list Document * nat :=
  fold_left
    (fun '(all_documents, total_pages) file_path =>
       let documents := load_pdf tools file_path in
       (all_documents ++ documents, total_pages + length documents))
    file_paths ([], 0).

(** [DocumentProcessor.split_documents]. *)
Definition split_documents (tools : PdfTools) (documents : list Document)
  : outcome (list Document) :=
  splitter tools documents.

(** [DocumentProcessor.process_pdfs]. *)
Definition process_pdfs (tools : PdfTools) (file_paths : list string)
  : outcome (list Document * nat * nat) :=
  let '(documents, total_pages) := load_multiple_pdfs tools file_paths in
  match split_documents tools documents with
  | Returns chunks => Returns (chunks, total_pages, length chunks)
  | Raises e => Raises e
  end.

(** The strategies that merge several result lists by fingerprint: Hybrid
    once its lexical index is built, Query Expansion and Multi-Hop. *)
Definition is_merging (s : Strategy) : bool :=
  match s with
  | HybridRetriever _ _ (Some _) => true
  | SemanticQueryExpansionRetriever _ => true
  | MultiHopRetriever _ => true
  | _ => false
  end.

(** The prompts sent to the language model. *)
Definition llm_prompts (evs : trace) : list string :=
  flat_map (fun ev => match ev with EvLlm p _ => [p] | _ => [] end) evs.

(** A line kept by [stripped_lines]: not empty, no surrounding space. *)
Definition clean_line (p : string) : Prop :=
  p <> EmptyString /\ strip p = p.

(** An environment with the given variables, and parsers that know the
    numerals of the defaults. *)
Definition environ_of (vars : list (string * string)) : Environ :=
  mkEnviron (fun name => assoc name vars)
    (fun s => if String.eqb s "0.6" then Some 0.6%float
              else if String.eqb s "0.8" then Some 0.8%float else None)
    (fun s => if String.eqb s "3" then Some 3%Z
              else if String.eqb s "5" then Some 5%Z
              else if String.eqb s "7" then Some 7%Z else None).

(** A loader that reads two files and fails on every other path. *)
Definition two_files : PdfTools :=
  mkPdfTools
    (fun path =>
       if String.eqb path "a.pdf" then Returns [doc_a; doc_b]
       else if String.eqb path "c.pdf" then Returns [doc_c]
       else Raises (Exception "cannot open"))
    (fun docs => Returns docs).

(** An index that knows two passages for the query "q" and one for any
    other text, with a language model that always answers [reply]. *)
Definition by_query_world (reply : string) : World :=
  mkWorld
    (fun _ q k =>
       if String.eqb q "q" then top_k [doc_b; doc_c] k else top_k [doc_c] k)
    (Some (fun _ _ => Returns reply))
    (fun _ => None) (fun _ => None)
    (fun _ => Raises (Exception "no corpus")) None.

(** A language model that answers every prompt with [reply]; [json.loads]
    reads every text as [j]. *)
Definition json_world (docs : list Document) (reply : string) (j : json)
  : World :=
  with_llm docs reply (fun _ => Some j) (fun _ => None).

(** The registered name an identifier resolves to: its lower-case form
    when the factory knows it, "semantic" otherwise. *)
Definition resolved_name (strategy_name : string) : string :=
  if existsb (String.eqb (lower strategy_name)) get_available_strategies
  then lower strategy_name
  else "semantic".

(** What the manager's hybrid bootstrap makes of the index's answer to the
    empty query. *)
Definition bootstrap_index (w : World) (r : outcome (list Document))
  : option Bm25 :=
  match r with
  | Returns all_docs =>
      match bm25_from_documents w all_docs with
      | Returns b => Some b
      | Raises _ => None
      end
  | Raises _ => None
  end.

(** What the manager's hybrid bootstrap leaves of a freshly built
    strategy and of the trace: for the identifier "hybrid" (in any case)
    one search for the empty text, and the lexical index it allowed. *)
Definition bootstrapped (w : World) (t : trace) (strategy_name : string)
    (s : Strategy) : Strategy * trace :=
  if String.eqb (lower strategy_name) "hybrid" then
    let r := similarity_search w t EmptyString 1000 in
    (match s with
     | HybridRetriever sw kw _ => HybridRetriever sw kw (bootstrap_index w r)
     | _ => s
     end,
     t ++ [EvSearch EmptyString 1000 r])
  else (s, t).

(** A world whose environment names a strategy. *)
Definition with_env (name : string) (w : World) : World :=
  mkWorld (similarity_search w) (llm w) (json_loads w) (float_of_str w)
    (bm25_from_documents w) (Some name).

(** A corpus from which a lexical index can be built. *)
Definition indexable (docs : list Document) : World :=
  mkWorld (fun _ _ k => top_k docs k) None (fun _ => None) (fun _ => None)
    (fun all_docs => Returns (lexical all_docs)) None.

(** The identifier a manager reads when it is given none:
    [os.getenv("RETRIEVAL_STRATEGY", "semantic")]. *)
Definition env_strategy_name (w : World) : string :=
  default "semantic" (env_retrieval_strategy w).

(** The identifier [get_retrieval_strategy_from_env] reads. *)
Definition env_name (env : Environ) : string :=
  getenv_or env "RETRIEVAL_STRATEGY" "semantic".

(** A score that is a number lies in [0, 10]. *)
Definition score_in_range (s : float) : Prop :=
  is_number s -> (0 <=? s)%float = true /\ (s <=? 10)%float = true.

(** A language model that rates [doc_c] "nan" and every other passage
    "7"; [float] reads both literals as Python does. *)
Definition nan_world : World :=
  mkWorld (fun _ _ k => top_k [doc_c; doc_d] k)
    (Some (fun _ prompt =>
             if String.eqb prompt (relevance_prompt "q" doc_c)
             then Returns "nan" else Returns "7"))
    (fun _ => None)
    (fun s => if String.eqb s "nan" then Some nan
              else if String.eqb s "7" then Some 7%float else None)
    (fun _ => Raises (Exception "no corpus")) None.

Definition doc_a'' : Document := plain (header +:+ " third body").

(** A model that splits every question into "a" and "b"; the index finds
    three colliding passages and [doc_b] for "a", and [doc_b] for any other
    text. *)
Definition colliding_world : World :=
  mkWorld
    (fun _ q k =>
       if String.eqb q "a" then top_k [doc_a; doc_a'; doc_a''; doc_b] k
       else top_k [doc_b] k)
    (Some (fun _ _ => Returns ("a" +:+ nl +:+ "b")))
    (fun _ => None) (fun _ => None)
    (fun _ => Raises (Exception "no corpus")) None.

(** Three passages that share another header of one hundred characters. *)
Definition header_g : string := string_of_list_ascii (repeat "g"%char 100).
Definition doc_g : Document := plain (header_g +:+ " one").
Definition doc_g' : Document := plain (header_g +:+ " two").
Definition doc_g'' : Document := plain (header_g +:+ " three").

(* ================================================================== *)
(** ** Slices *)

Lemma slice_to_nonneg {A : Type} (k : Z) (l : list A) :
  (0 <= k)%Z -> slice_to k l = take (Z.to_nat k) l.
Proof.
  intros Hk. unfold slice_to.
  destruct (Z.leb_spec 0 k) as [_ | Hlt]; [reflexivity | lia].
Qed.

Lemma slice_to_length_le {A : Type} (k : Z) (l : list A) :
  length (slice_to k l) <= length l.
Proof.
  unfold slice_to. destruct (0 <=? k)%Z; rewrite length_take; lia.
Qed.

Lemma slice_to_bound {A : Type} (k : Z) (l : list A) :
  (0 <= k)%Z -> (Z.of_nat (length (slice_to k l)) <= k)%Z.
Proof.
  intros Hk. rewrite slice_to_nonneg by assumption.
  rewrite length_take. lia.
Qed.

Lemma slice_to_all {A : Type} (k : Z) (l : list A) :
  (Z.of_nat (length l) <= k)%Z -> slice_to k l = l.
Proof.
  intros Hk. rewrite slice_to_nonneg by lia.
  apply take_ge. lia.
Qed.

Lemma slice_to_short {A : Type} (k : Z) (l : list A) :
  (0 <= k)%Z -> (Z.of_nat (length (slice_to k l)) < k)%Z -> slice_to k l = l.
Proof.
  intros Hk Hlt. rewrite slice_to_nonneg in * by assumption.
  rewrite length_take in Hlt. apply take_ge. lia.
Qed.

Lemma slice_to_nil {A : Type} (k : Z) : slice_to k (@nil A) = [].
Proof. unfold slice_to. destruct (0 <=? k)%Z; apply take_nil. Qed.

Lemma take_In {A : Type} (n : nat) (l : list A) (x : A) :
  In x (take n l) -> In x l.
Proof.
  revert n. induction l as [| y l IH]; intros [| n]; simpl; try tauto.
  intros [-> | H]; [now left | right; eauto].
Qed.

Lemma slice_to_incl {A : Type} (k : Z) (l : list A) (x : A) :
  In x (slice_to k l) -> In x l.
Proof.
  unfold slice_to. intros H.
  destruct (0 <=? k)%Z; eapply take_In; eassumption.
Qed.

Lemma slice_to_nonempty {A : Type} (k : Z) (l : list A) :
  (1 <= k)%Z -> l <> [] -> slice_to k l <> [].
Proof.
  intros Hk Hl. rewrite slice_to_nonneg by lia.
  destruct l as [| x l]; [congruence |].
  destruct (Z.to_nat k) as [| n] eqn:E; [lia | discriminate].
Qed.

(* ================================================================== *)
(** ** Facts on [sorted(..., reverse=True)] *)

Section SortingFacts.
Context {A K : Type} (ltb : K -> K -> bool) (key : A -> K).

Lemma insert_desc_perm (x : A) (l : list A) :
  Permutation (insert_desc ltb key x l) (x :: l).
Proof.
  induction l as [| y l IH]; simpl; [reflexivity |].
  destruct (ltb (key x) (key y)); [| reflexivity].
  rewrite IH. apply perm_swap.
Qed.

Lemma sorted_desc_perm (l : list A) : Permutation (sorted_desc ltb key l) l.
Proof.
  induction l as [| x l IH]; simpl; [reflexivity |].
  rewrite insert_desc_perm. now rewrite IH.
Qed.

Lemma sorted_desc_length (l : list A) :
  length (sorted_desc ltb key l) = length l.
Proof. apply Permutation_length, sorted_desc_perm. Qed.

Lemma sorted_desc_In (l : list A) (x : A) :
  In x (sorted_desc ltb key l) <-> In x l.
Proof.
  split; apply Permutation_in;
    [| symmetry]; apply sorted_desc_perm.
Qed.

(** A list that already descends is left as it is: this is stability
    for ties and the identity on strictly decreasing keys. *)
Lemma sorted_desc_id (l : list A) :
  Sorted (not_below ltb key) l -> sorted_desc ltb key l = l.
Proof.
  induction 1 as [| x l Hs IH Hhd]; simpl; [reflexivity |].
  rewrite IH. destruct Hhd as [| y l Hxy]; simpl; [reflexivity |].
  unfold not_below in Hxy. now rewrite Hxy.
Qed.

Lemma insert_desc_last (x : A) (l : list A) :
  Forall (fun y => ltb (key x) (key y) = true) l ->
  insert_desc ltb key x l = l ++ [x].
Proof.
  induction 1 as [| y l Hy _ IH]; simpl; [reflexivity |].
  now rewrite Hy, IH.
Qed.

(** A list whose keys strictly ascend comes out reversed. *)
Lemma sorted_desc_rev (l : list A) :
  StronglySorted (fun a b => ltb (key a) (key b) = true) l ->
  sorted_desc ltb key l = rev l.
Proof.
  induction 1 as [| x l Hs IH Hall]; simpl; [reflexivity |].
  rewrite IH. apply insert_desc_last.
  apply List.Forall_forall. intros y Hy. apply in_rev in Hy.
  rewrite List.Forall_forall in Hall. now apply Hall.
Qed.

(** Stability: the elements of a class of mutually tied keys come out in
    their input order. *)
Lemma insert_desc_filter (p : A -> bool) (x : A) (l : list A) :
  (forall a b, p a = true -> p b = true -> ltb (key a) (key b) = false) ->
  List.filter p (insert_desc ltb key x l) = List.filter p (x :: l).
Proof.
  intros Hp. induction l as [| y l IH]; [reflexivity |].
  simpl insert_desc. destruct (ltb (key x) (key y)) eqn:E; [| reflexivity].
  simpl in *. rewrite IH.
  destruct (p x) eqn:Ex, (p y) eqn:Ey; try reflexivity.
  rewrite (Hp x y Ex Ey) in E. discriminate.
Qed.

Lemma sorted_desc_stable (p : A -> bool) (l : list A) :
  (forall a b, p a = true -> p b = true -> ltb (key a) (key b) = false) ->
  List.filter p (sorted_desc ltb key l) = List.filter p l.
Proof.
  intros Hp. induction l as [| x l IH]; [reflexivity |].
  simpl sorted_desc. rewrite insert_desc_filter by assumption.
  simpl. now rewrite IH.
Qed.

Hypothesis ltb_asym : forall a b, ltb a b = true -> ltb b a = false.
Hypothesis ltb_negtrans :
  forall a b c, ltb a b = false -> ltb b c = false -> ltb a c = false.

Lemma insert_desc_sorted (x : A) (l : list A) :
  StronglySorted (not_below ltb key) l ->
  StronglySorted (not_below ltb key) (insert_desc ltb key x l).
Proof.
  induction 1 as [| y l Hs IH Hall]; simpl.
  - repeat constructor.
  - destruct (ltb (key x) (key y)) eqn:E.
    + constructor; [assumption |].
      apply List.Forall_forall. intros z Hz.
      apply (Permutation_in _ (insert_desc_perm x l)) in Hz.
      destruct Hz as [<- | Hz].
      * now apply ltb_asym.
      * rewrite List.Forall_forall in Hall. now apply Hall.
    + constructor; [now constructor |].
      constructor; [exact E |].
      eapply List.Forall_impl; [| exact Hall].
      intros z Hz. eapply ltb_negtrans; eassumption.
Qed.

Lemma sorted_desc_sorted (l : list A) :
  StronglySorted (not_below ltb key) (sorted_desc ltb key l).
Proof.
  induction l as [| x l IH]; simpl; [constructor |].
  now apply insert_desc_sorted.
Qed.
End SortingFacts.

(* ================================================================== *)
(** ** Python floats: the order and sums of binary64 values *)

(** Comparisons on the specification of binary64 values. *)
Lemma SFcompare_refl (s : spec_float) :
  s <> S754_nan -> SFcompare s s = Some Eq.
Proof.
  destruct s as [sx | sx | | sx m e]; simpl; try congruence; intros _.
  - now destruct sx.
  - destruct sx; rewrite Z.compare_refl;
      change (PosDef.Pos.compare_cont Eq m m) with (Pos.compare m m);
      now rewrite Pos.compare_refl.
Qed.

Lemma SFcompare_swap (x y : spec_float) :
  SFcompare y x = option_map CompOpp (SFcompare x y).
Proof.
  destruct x as [sx | sx | | sx mx ex], y as [sy | sy | | sy my ey]; simpl;
    try reflexivity; try (destruct sx; reflexivity);
    try (destruct sy; reflexivity);
    try (destruct sx, sy; reflexivity).
  change (PosDef.Pos.compare_cont Eq mx my) with (Pos.compare mx my).
  change (PosDef.Pos.compare_cont Eq my mx) with (Pos.compare my mx).
  rewrite (Z.compare_antisym ex ey), (Pos.compare_antisym mx my).
  destruct sx, sy; try reflexivity;
    destruct (ex ?= ey)%Z; simpl; try reflexivity;
    destruct (mx ?= my)%positive; reflexivity.
Qed.

Lemma SFleb_trans (x y z : spec_float) :
  SFleb x y = true -> SFleb y z = true -> SFleb x z = true.
Proof.
  unfold SFleb.
  destruct x as [sx | sx | | sx mx ex], y as [sy | sy | | sy my ey],
    z as [sz | sz | | sz mz ez]; simpl; try discriminate; try reflexivity;
    try (destruct sx; try discriminate; try reflexivity;
         destruct sy; try discriminate; try reflexivity;
         destruct sz; try discriminate; try reflexivity; fail);
    try (destruct sx, sy; try discriminate; try reflexivity; fail);
    try (destruct sx, sz; try discriminate; try reflexivity; fail);
    try (destruct sy, sz; try discriminate; try reflexivity; fail).
  all: change (PosDef.Pos.compare_cont Eq mx my) with (Pos.compare mx my).
  all: change (PosDef.Pos.compare_cont Eq my mz) with (Pos.compare my mz).
  all: change (PosDef.Pos.compare_cont Eq mx mz) with (Pos.compare mx mz).
  all: destruct sx, sy, sz; try discriminate; try reflexivity.
  all: destruct (Z.compare_spec ex ey), (Z.compare_spec ey ez),
         (Z.compare_spec ex ez); try discriminate; try reflexivity; try lia.
  all: destruct (Pos.compare_spec mx my), (Pos.compare_spec my mz),
         (Pos.compare_spec mx mz); simpl; try discriminate; try reflexivity;
         try lia.
Qed.


Section FloatFacts.
Local Open Scope float_scope.

Lemma is_nan_spec (x : float) :
  is_nan x = true <-> Prim2SF x = S754_nan.
Proof.
  unfold is_nan. rewrite negb_true_iff, FloatAxioms.eqb_spec. unfold SFeqb. split.
  - intros H. destruct (Prim2SF x) eqn:E; try reflexivity;
      rewrite SFcompare_refl in H by discriminate; discriminate.
  - now intros ->.
Qed.

Lemma is_number_spec (x : float) :
  is_nan x = false <-> Prim2SF x <> S754_nan.
Proof.
  rewrite <- is_nan_spec. destruct (is_nan x); split; congruence.
Qed.

Lemma fltb_asym (x y : float) : (x <? y) = true -> (y <? x) = false.
Proof.
  rewrite !FloatAxioms.ltb_spec. unfold SFltb.
  rewrite (SFcompare_swap (Prim2SF x) (Prim2SF y)).
  now destruct (SFcompare (Prim2SF x) (Prim2SF y)) as [[] |].
Qed.

Lemma fltb_irrefl (x : float) : (x <? x) = false.
Proof.
  destruct (x <? x) eqn:E; [| reflexivity].
  now rewrite (fltb_asym x x E) in E.
Qed.

Lemma fleb_number (x y : float) :
  (x <=? y) = true -> is_nan x = false /\ is_nan y = false.
Proof.
  rewrite FloatAxioms.leb_spec, !is_number_spec. unfold SFleb.
  destruct (Prim2SF x), (Prim2SF y); simpl; try discriminate;
    split; discriminate.
Qed.

Lemma SFcompare_total (x y : spec_float) :
  x <> S754_nan -> y <> S754_nan -> exists c, SFcompare x y = Some c.
Proof.
  destruct x, y; simpl; try congruence; eauto.
Qed.

(** On numbers [<] and [<=] are complementary. *)
Lemma fltb_false_leb (x y : float) :
  is_nan x = false -> is_nan y = false -> (x <? y) = false -> (y <=? x) = true.
Proof.
  rewrite !is_number_spec, FloatAxioms.ltb_spec, FloatAxioms.leb_spec.
  unfold SFltb, SFleb. intros Hx Hy.
  rewrite (SFcompare_swap (Prim2SF x) (Prim2SF y)).
  destruct (SFcompare_total _ _ Hx Hy) as [c ->]. now destruct c.
Qed.

Lemma fleb_not_ltb (x y : float) : (y <=? x) = true -> (x <? y) = false.
Proof.
  rewrite FloatAxioms.ltb_spec, FloatAxioms.leb_spec. unfold SFltb, SFleb.
  rewrite (SFcompare_swap (Prim2SF x) (Prim2SF y)).
  now destruct (SFcompare (Prim2SF x) (Prim2SF y)) as [[] |].
Qed.

Lemma fleb_trans (x y z : float) :
  (x <=? y) = true -> (y <=? z) = true -> (x <=? z) = true.
Proof. rewrite !FloatAxioms.leb_spec. apply SFleb_trans. Qed.

Lemma fltb_nan_l (x y : float) : is_nan x = true -> (x <? y) = false.
Proof.
  rewrite is_nan_spec, FloatAxioms.ltb_spec. unfold SFltb. now intros ->.
Qed.

Lemma fltb_nan_r (x y : float) : is_nan y = true -> (x <? y) = false.
Proof.
  rewrite is_nan_spec, FloatAxioms.ltb_spec. unfold SFltb. intros ->.
  now destruct (Prim2SF x).
Qed.

(** [<] is negatively transitive through a number. *)
Lemma fltb_negtrans (x y z : float) :
  is_nan y = false ->
  (x <? y) = false -> (y <? z) = false -> (x <? z) = false.
Proof.
  intros Hy Hxy Hyz.
  destruct (is_nan x) eqn:Hx; [now apply fltb_nan_l |].
  destruct (is_nan z) eqn:Hz; [now apply fltb_nan_r |].
  apply fleb_not_ltb. apply (fleb_trans z y x); now apply fltb_false_leb.
Qed.

Lemma feqb_tied (x y s : float) :
  (x =? s) = true -> (y =? s) = true -> (x <? y) = false.
Proof.
  rewrite !FloatAxioms.eqb_spec, FloatAxioms.ltb_spec. unfold SFeqb, SFltb.
  intros Hx Hy.
  assert (Hxs : SFleb (Prim2SF s) (Prim2SF x) = true).
  { unfold SFleb. rewrite SFcompare_swap.
    now destruct (SFcompare (Prim2SF x) (Prim2SF s)) as [[] |]. }
  assert (Hys : SFleb (Prim2SF y) (Prim2SF s) = true).
  { unfold SFleb. now destruct (SFcompare (Prim2SF y) (Prim2SF s)) as [[] |]. }
  pose proof (SFleb_trans _ _ _ Hys Hxs) as H. unfold SFleb in H.
  rewrite SFcompare_swap.
  now destruct (SFcompare (Prim2SF y) (Prim2SF x)) as [[] |].
Qed.

(** ** Sums of non-negative floats *)

Definition SFnonneg (s : spec_float) : Prop :=
  match s with
  | S754_zero _ => True
  | S754_infinity sx => sx = false
  | S754_nan => False
  | S754_finite sx _ _ => sx = false
  end.

Lemma SFnonneg_leb (s : spec_float) :
  SFleb (S754_zero false) s = true <-> SFnonneg s.
Proof.
  unfold SFleb. destruct s as [sx | [] | | [] m e]; simpl; intuition congruence.
Qed.

Lemma Prim2SF_zero : Prim2SF 0 = S754_zero false.
Proof. reflexivity. Qed.

Lemma fnonneg_spec (x : float) : (0 <=? x) = true <-> SFnonneg (Prim2SF x).
Proof. rewrite FloatAxioms.leb_spec, Prim2SF_zero. apply SFnonneg_leb. Qed.

Lemma shr_1_nonneg (mrs : shr_record) :
  (0 <= shr_m mrs)%Z -> (0 <= shr_m (shr_1 mrs))%Z.
Proof.
  destruct mrs as [m r s]. simpl.
  destruct m as [| [p | p |] | p]; simpl; lia.
Qed.

Lemma iter_shr_1_nonneg (p : positive) (mrs : shr_record) :
  (0 <= shr_m mrs)%Z -> (0 <= shr_m (SpecFloat.iter_pos shr_1 p mrs))%Z.
Proof.
  revert mrs. induction p as [p IH | p IH |]; intros mrs H; simpl.
  - apply IH, IH, shr_1_nonneg, H.
  - apply IH, IH, H.
  - apply shr_1_nonneg, H.
Qed.

Lemma shr_fexp_nonneg (prec emax m e : Z) (l : location) :
  (0 <= m)%Z -> (0 <= shr_m (fst (shr_fexp prec emax m e l)))%Z.
Proof.
  intros H. unfold shr_fexp, shr.
  assert (H0 : (0 <= shr_m (shr_record_of_loc m l))%Z)
    by (destruct l as [| []]; exact H).
  destruct (fexp prec emax (Zdigits2 m + e) - e)%Z; simpl; try exact H0.
  now apply iter_shr_1_nonneg.
Qed.

Lemma round_nearest_even_nonneg (m : Z) (l : location) :
  (0 <= m)%Z -> (0 <= round_nearest_even m l)%Z.
Proof.
  intros H. destruct l as [| []]; simpl; try exact H;
    try (destruct (Z.even m)); lia.
Qed.

Lemma binary_round_aux_sign (prec emax : Z) (sx : bool) (m e : Z)
    (l : location) :
  (0 <= m)%Z ->
  match binary_round_aux prec emax sx m e l with
  | S754_zero s | S754_infinity s | S754_finite s _ _ => s = sx
  | S754_nan => False
  end.
Proof.
  intros H. unfold binary_round_aux.
  pose proof (shr_fexp_nonneg prec emax m e l H) as H1.
  destruct (shr_fexp prec emax m e l) as [mrs' e'] eqn:E1. simpl in H1.
  pose proof (shr_fexp_nonneg prec emax
                (round_nearest_even (shr_m mrs') (loc_of_shr_record mrs'))
                e' loc_Exact (round_nearest_even_nonneg _ _ H1)) as H2.
  destruct (shr_fexp prec emax _ e' loc_Exact) as [mrs'' e''] eqn:E2.
  simpl in H2.
  destruct (shr_m mrs'') as [| p | p]; [reflexivity | | lia].
  now destruct (e'' <=? emax - prec)%Z.
Qed.

Lemma SFadd_nonneg (prec emax : Z) (x y : spec_float) :
  SFnonneg x -> SFnonneg y -> SFnonneg (SFadd prec emax x y).
Proof.
  destruct x as [sx | sx | | sx mx ex], y as [sy | sy | | sy my ey]; simpl;
    try tauto; try (intros -> ->; reflexivity);
    try (destruct sx, sy; simpl; tauto).
  intros -> ->. simpl.
  unfold binary_normalize. unfold binary_round.
  destruct (shl_align _ _ _) as [mz ez].
  pose proof (binary_round_aux_sign prec emax false (Zpos mz) ez loc_Exact
                ltac:(lia)) as H.
  destruct (binary_round_aux prec emax false (Z.pos mz) ez loc_Exact);
    simpl; tauto.
Qed.

Lemma fadd_nonneg (a b : float) :
  (0 <=? a) = true -> (0 <=? b) = true -> (0 <=? a + b) = true.
Proof.
  rewrite !fnonneg_spec, FloatAxioms.add_spec. apply SFadd_nonneg.
Qed.

(** [min(max(score, 0), 10)] clamps every number; NaN passes through. *)
Lemma clamp_number (x : float) :
  is_nan x = false ->
  (0 <=? py_min (py_max x 0) 10) = true /\
  (py_min (py_max x 0) 10 <=? 10) = true.
Proof.
  intros Hx. unfold py_min, py_max.
  destruct (x <? 0) eqn:E0.
  - replace (10 <? 0) with false by reflexivity. split; reflexivity.
  - assert (H0 : (0 <=? x) = true) by now apply fltb_false_leb.
    destruct (10 <? x) eqn:E1; [split; reflexivity |].
    split; [exact H0 |]. now apply fltb_false_leb.
Qed.

Lemma clamp_nan : py_min (py_max nan 0) 10 = nan.
Proof. reflexivity. Qed.
End FloatFacts.

(** A descending sort puts its output in order when [<] is negatively
    transitive through the keys at hand (all keys but NaN, for floats). *)
Section SortingNumbers.
Context {A K : Type} (ltb : K -> K -> bool) (key : A -> K) (ok : K -> Prop).
Hypothesis ltb_asym : forall a b, ltb a b = true -> ltb b a = false.
Hypothesis ltb_negtrans :
  forall a b c, ok b -> ltb a b = false -> ltb b c = false -> ltb a c = false.

Lemma insert_desc_sorted_on (x : A) (l : list A) :
  Forall (fun y => ok (key y)) l ->
  StronglySorted (not_below ltb key) l ->
  StronglySorted (not_below ltb key) (insert_desc ltb key x l).
Proof.
  intros Hok. induction 1 as [| y l Hs IH Hall]; simpl.
  - repeat constructor.
  - apply List.Forall_cons_iff in Hok as [Hy Hok].
    destruct (ltb (key x) (key y)) eqn:E.
    + constructor; [now apply IH |].
      apply List.Forall_forall. intros z Hz.
      apply (Permutation_in _ (insert_desc_perm ltb key x l)) in Hz.
      destruct Hz as [<- | Hz].
      * now apply ltb_asym.
      * rewrite List.Forall_forall in Hall. now apply Hall.
    + constructor; [now constructor |].
      constructor; [exact E |].
      eapply List.Forall_impl; [| exact Hall].
      intros z Hz. eapply ltb_negtrans; eassumption.
Qed.

Lemma sorted_desc_sorted_on (l : list A) :
  Forall (fun y => ok (key y)) l ->
  StronglySorted (not_below ltb key) (sorted_desc ltb key l).
Proof.
  induction l as [| x l IH]; simpl; [constructor |].
  intros Hok. apply List.Forall_cons_iff in Hok as [_ Hok].
  apply insert_desc_sorted_on; [| now apply IH].
  apply List.Forall_forall. intros y Hy.
  apply sorted_desc_In in Hy. rewrite List.Forall_forall in Hok.
  now apply Hok.
Qed.
End SortingNumbers.

(* ================================================================== *)
(** ** Ordered dictionaries *)

Lemma assoc_od_set_eq {V : Type} (k : string) (v : V) (d : odict V) :
  assoc k (od_set k v d) = Some v.
Proof.
  induction d as [| [k' v'] d IH]; simpl.
  - now rewrite String.eqb_refl.
  - destruct (String.eqb k' k) eqn:E; simpl; now rewrite E.
Qed.

Lemma assoc_od_set_ne {V : Type} (k k' : string) (v : V) (d : odict V) :
  k <> k' -> assoc k' (od_set k v d) = assoc k' d.
Proof.
  intros Hne. induction d as [| [k0 v0] d IH]; simpl.
  - apply String.eqb_neq in Hne. now rewrite Hne.
  - destruct (String.eqb k0 k) eqn:E; simpl.
    + apply String.eqb_eq in E. subst k0.
      apply String.eqb_neq in Hne. now rewrite Hne.
    + now rewrite IH.
Qed.

Lemma assoc_od_alter_eq {V : Type} (f : V -> V) (k : string) (d : odict V) :
  assoc k (od_alter f k d) = f <$> assoc k d.
Proof.
  induction d as [| [k' v'] d IH]; simpl; [reflexivity |].
  destruct (String.eqb k' k) eqn:E; simpl; now rewrite E.
Qed.

Lemma assoc_od_alter_ne {V : Type} (f : V -> V) (k k' : string) (d : odict V) :
  k <> k' -> assoc k' (od_alter f k d) = assoc k' d.
Proof.
  intros Hne. induction d as [| [k0 v0] d IH]; simpl; [reflexivity |].
  destruct (String.eqb k0 k) eqn:E; simpl.
  - apply String.eqb_eq in E. subst k0.
    apply String.eqb_neq in Hne. now rewrite Hne.
  - now rewrite IH.
Qed.

Lemma keys_od_alter {V : Type} (f : V -> V) (k : string) (d : odict V) :
  map fst (od_alter f k d) = map fst d.
Proof.
  induction d as [| [k' v'] d IH]; simpl; [reflexivity |].
  destruct (String.eqb k' k); simpl; [reflexivity | now rewrite IH].
Qed.

Lemma keys_od_set_new {V : Type} (k : string) (v : V) (d : odict V) :
  assoc k d = None -> map fst (od_set k v d) = map fst d ++ [k].
Proof.
  induction d as [| [k' v'] d IH]; simpl; [reflexivity |].
  destruct (String.eqb k' k); [discriminate |].
  intros H. simpl. now rewrite IH.
Qed.

Lemma od_alter_od_set {V : Type} (f : V -> V) (k : string) (v : V)
    (d : odict V) :
  assoc k d = None -> od_alter f k (od_set k v d) = od_set k (f v) d.
Proof.
  induction d as [| [k' v'] d IH]; simpl.
  - now rewrite String.eqb_refl.
  - destruct (String.eqb k' k) eqn:E; [discriminate |].
    intros H. simpl. now rewrite E, IH.
Qed.

Lemma assoc_None_keys {V : Type} (k : string) (d : odict V) :
  assoc k d = None <-> ~ In k (map fst d).
Proof.
  induction d as [| [k' v'] d IH]; simpl; [tauto |].
  destruct (String.eqb_spec k' k) as [-> | Hne].
  - split; [discriminate | tauto].
  - rewrite IH. tauto.
Qed.

Lemma assoc_In {V : Type} (k : string) (v : V) (d : odict V) :
  assoc k d = Some v -> In (k, v) d.
Proof.
  induction d as [| [k' v'] d IH]; simpl; [discriminate |].
  destruct (String.eqb_spec k' k) as [-> | Hne].
  - intros [= ->]. now left.
  - intros H. right. now apply IH.
Qed.

Lemma In_assoc {V : Type} (k : string) (v : V) (d : odict V) :
  List.NoDup (map fst d) -> In (k, v) d -> assoc k d = Some v.
Proof.
  induction d as [| [k' v'] d IH]; simpl; [tauto |].
  intros Hnd [[= -> ->] | Hin].
  - now rewrite String.eqb_refl.
  - apply List.NoDup_cons_iff in Hnd as [Hk Hnd].
    destruct (String.eqb_spec k' k) as [-> | Hne].
    + exfalso. apply Hk. apply (in_map fst) in Hin. exact Hin.
    + now apply IH.
Qed.

Lemma In_values {V : Type} (v : V) (d : odict V) :
  In v (od_values d) -> exists k, In (k, v) d.
Proof.
  unfold od_values. intros H. apply in_map_iff in H as ([k v'] & <- & Hin).
  now exists k.
Qed.

(* ================================================================== *)
(** ** The merge fold *)

Section MergeFacts.
Context {X E : Type} (fresh : X -> Document -> E) (bump : X -> E -> E).

Abbreviation merge_add := (merge_add fresh bump).
Abbreviation merge := (merge fresh bump).
Abbreviation entry_of := (entry_of fresh bump).

Lemma merge_snoc (items : list (X * Document)) (item : X * Document) :
  merge (items ++ [item]) = merge_add (merge items) item.
Proof. unfold merge. now rewrite fold_left_app. Qed.

Lemma entry_of_snoc (items : list (X * Document)) (item : X * Document) :
  entry_of (items ++ [item]) =
  match entry_of items with
  | None => Some (fresh (fst item) (snd item))
  | Some e => Some (bump (fst item) e)
  end.
Proof.
  destruct items as [| [x doc] rest]; simpl.
  - now destruct item.
  - now rewrite fold_left_app.
Qed.

Lemma group_snoc (key : string) (items : list (X * Document))
    (item : X * Document) :
  group key (items ++ [item]) =
  group key items ++
    (if same_fingerprint key (snd item) then [item] else []).
Proof. unfold group. now rewrite List.filter_app. Qed.

(** The entry of a fingerprint is built from the items that carry it, in
    discovery order. *)
Lemma assoc_merge (key : string) (items : list (X * Document)) :
  assoc key (merge items) = entry_of (group key items).
Proof.
  induction items as [| item items IH] using rev_ind; [reflexivity |].
  rewrite merge_snoc, group_snoc. unfold merge_add at 1, od_mem.
  unfold same_fingerprint.
  destruct (String.eqb_spec (fingerprint (snd item)) key) as [<- | Hne].
  - rewrite entry_of_snoc, <- IH.
    destruct (assoc (fingerprint (snd item)) (merge items)) eqn:Ea; simpl.
    + now rewrite assoc_od_alter_eq, Ea.
    + now rewrite assoc_od_set_eq.
  - rewrite app_nil_r, <- IH.
    destruct (assoc (fingerprint (snd item)) (merge items)); simpl.
    + now rewrite assoc_od_alter_ne.
    + now rewrite assoc_od_set_ne.
Qed.

Lemma merge_keys_NoDup (items : list (X * Document)) :
  List.NoDup (map fst (merge items)).
Proof.
  induction items as [| item items IH] using rev_ind; [constructor |].
  rewrite merge_snoc. unfold merge_add at 1, od_mem.
  destruct (assoc (fingerprint (snd item)) (merge items)) eqn:Ea; simpl.
  - now rewrite keys_od_alter.
  - rewrite keys_od_set_new by assumption.
    apply List.NoDup_app. repeat split; try assumption.
    + repeat constructor. simpl. tauto.
    + intros k Hk [<- | []]. apply assoc_None_keys in Ea. contradiction.
Qed.

Lemma group_nil_iff (key : string) (items : list (X * Document)) :
  group key items = [] <-> ~ In key (map (fun it => fingerprint (snd it)) items).
Proof.
  unfold group, same_fingerprint.
  induction items as [| item items IH]; simpl; [tauto |].
  destruct (String.eqb_spec (fingerprint (snd item)) key) as [-> | Hne].
  - split; [discriminate | tauto].
  - rewrite IH. tauto.
Qed.

Lemma merge_keys_In (key : string) (items : list (X * Document)) :
  In key (map fst (merge items)) <->
  In key (map (fun it => fingerprint (snd it)) items).
Proof.
  destruct (in_dec string_dec key (map fst (merge items))) as [Hin | Hout].
  - split; [| tauto]. intros _.
    destruct (in_dec string_dec key
                (map (fun it => fingerprint (snd it)) items)) as [H | H];
      [assumption | exfalso].
    apply group_nil_iff in H.
    assert (Ha : assoc key (merge items) = None)
      by now rewrite assoc_merge, H.
    apply assoc_None_keys in Ha. contradiction.
  - split; [tauto |]. intros Hin. exfalso.
    apply assoc_None_keys in Hout. rewrite assoc_merge in Hout.
    destruct (group key items) as [| [x doc] rest] eqn:Eg; [| discriminate].
    apply group_nil_iff in Eg. contradiction.
Qed.

(** One entry per distinct fingerprint. *)
Lemma merge_length (items : list (X * Document)) :
  length (merge items) =
  length (remove_dups (map (fun it => fingerprint (snd it)) items)).
Proof.
  rewrite <- (length_map fst (merge items)).
  apply Permutation_length, NoDup_Permutation.
  - apply NoDup_ListNoDup, merge_keys_NoDup.
  - apply NoDup_remove_dups.
  - intros k. rewrite elem_of_remove_dups, !list_elem_of_In.
    apply merge_keys_In.
Qed.

Context (doc_of : E -> Document).
Hypothesis doc_of_fresh : forall x doc, doc_of (fresh x doc) = doc.
Hypothesis doc_of_bump : forall x e, doc_of (bump x e) = doc_of e.

Lemma entry_of_doc (items : list (X * Document)) (e : E) :
  entry_of items = Some e -> snd <$> head items = Some (doc_of e).
Proof.
  destruct items as [| [x doc] rest]; simpl; [discriminate |].
  intros [= <-]. f_equal.
  revert x doc. induction rest as [| item rest IH] using rev_ind;
    intros x doc; simpl.
  - now rewrite doc_of_fresh.
  - rewrite fold_left_app. simpl. now rewrite doc_of_bump.
Qed.

Lemma head_group_find (key : string) (items : list (X * Document)) :
  snd <$> head (group key items) =
  List.find (same_fingerprint key) (map snd items).
Proof.
  unfold group. induction items as [| item items IH]; simpl; [reflexivity |].
  destruct (same_fingerprint key (snd item)); simpl; [reflexivity | exact IH].
Qed.

(** The document kept for a fingerprint is the first one discovered. *)
Lemma merge_first_discovered (items : list (X * Document)) (key : string)
    (e : E) :
  In (key, e) (merge items) ->
  fingerprint (doc_of e) = key /\
  first_discovered (map snd items) (doc_of e).
Proof.
  intros Hin. apply In_assoc in Hin; [| apply merge_keys_NoDup].
  rewrite assoc_merge in Hin. apply entry_of_doc in Hin.
  rewrite head_group_find in Hin.
  assert (Hk : fingerprint (doc_of e) = key).
  { apply find_some in Hin as [_ H]. now apply String.eqb_eq in H. }
  split; [exact Hk |]. unfold first_discovered. now rewrite Hk.
Qed.
End MergeFacts.

(* ================================================================== *)
(** ** Semantic, and Hybrid without its lexical index *)

Lemma semantic_retrieve_run (w : World) (query : string) (k : Z) (t : trace) :
  semantic_retrieve w query k t =
  (match similarity_search w t query k with
   | Returns docs => Returns docs
   | Raises _ => Returns []
   end,
   t ++ [EvSearch query k (similarity_search w t query k)]).
Proof.
  unfold semantic_retrieve, try_except, bind, vs_search, ret.
  now destruct (similarity_search w t query k).
Qed.

Lemma hybrid_unbuilt_run (w : World) (sw kw : float) (query : string) (k : Z)
    (t : trace) :
  hybrid_retrieve w sw kw None query k t =
  match similarity_search w t query k with
  | Returns docs => (Returns docs, t ++ [EvSearch query k (Returns docs)])
  | Raises e =>
      vs_search w query k (t ++ [EvSearch query k (Raises e)])
  end.
Proof.
  unfold hybrid_retrieve, try_except, vs_search.
  now destruct (similarity_search w t query k).
Qed.

(** C2, as stated, fails: with the index down the Semantic strategy returns
    the empty list instead of raising. *)
Lemma semantic_failure_is_masked :
  similarity_search offline [] "q" 3 = Raises index_down /\
  fst (retrieve offline SemanticRetriever "q" 3 []) = Returns [] /\
  fst (retrieve offline SemanticRetriever "q" 3 []) <> Raises index_down.
Proof. repeat split. discriminate. Qed.

(** C2, amended: when the baseline similarity search raises, the Semantic
    strategy catches the failure and returns the empty list; the failed call
    is the only one it makes. *)
Theorem semantic_retrieve_catches (w : World) (query : string) (k : Z)
    (t : trace) (e : exn) :
  similarity_search w t query k = Raises e ->
  retrieve w SemanticRetriever query k t =
  (Returns [], t ++ [EvSearch query k (Raises e)]).
Proof. intros H. simpl. now rewrite semantic_retrieve_run, H. Qed.

Lemma semantic_retrieve_catches_witness :
  similarity_search offline [] "q" 3 = Raises index_down /\
  retrieve offline SemanticRetriever "q" 3 [] =
  (Returns [], [] ++ [EvSearch "q" 3 (Raises index_down)]).
Proof.
  split; [reflexivity |].
  apply (semantic_retrieve_catches offline "q" 3 [] index_down).
  reflexivity.
Defined.

(** C9, as stated, fails: with the index down, Hybrid without its lexical
    index raises where Semantic returns the empty list. *)
Lemma hybrid_unbuilt_differs_on_failure :
  fst (retrieve offline (HybridRetriever 0.6%float 0.4%float None) "q" 3 []) =
    Raises index_down /\
  fst (retrieve offline SemanticRetriever "q" 3 []) = Returns [] /\
  fst (retrieve offline (HybridRetriever 0.6%float 0.4%float None) "q" 3 []) <>
  fst (retrieve offline SemanticRetriever "q" 3 []).
Proof. repeat split. discriminate. Qed.

(** C9, amended: without its lexical index, Hybrid returns the same list as
    Semantic, in the same order and after the same single search, whenever
    the similarity search succeeds; when it raises, Semantic returns the
    empty list, and Hybrid searches once more and returns or raises as that
    second search does. *)
Theorem hybrid_unbuilt_is_semantic (w : World) (sw kw : float) (query : string)
    (k : Z) (t : trace) :
  match similarity_search w t query k with
  | Returns docs =>
      retrieve w (HybridRetriever sw kw None) query k t =
        (Returns docs, t ++ [EvSearch query k (Returns docs)]) /\
      retrieve w (HybridRetriever sw kw None) query k t =
        retrieve w SemanticRetriever query k t
  | Raises e =>
      fst (retrieve w SemanticRetriever query k t) = Returns [] /\
      fst (retrieve w (HybridRetriever sw kw None) query k t) =
        similarity_search w (t ++ [EvSearch query k (Raises e)]) query k
  end.
Proof.
  simpl. rewrite semantic_retrieve_run, hybrid_unbuilt_run.
  destruct (similarity_search w t query k); simpl; auto.
Qed.

(* ================================================================== *)
(** ** The factory and the manager *)

Lemma construct_no_kwargs (c : StrategyClass) :
  exists s, construct c [] = Returns s.
Proof. destruct c; simpl; eauto. Qed.

Lemma lower_ascii_idem (c : ascii) : lower_ascii (lower_ascii c) = lower_ascii c.
Proof.
  destruct c as [[] [] [] [] [] [] [] []]; reflexivity.
Qed.

Lemma lower_idem (s : string) : lower (lower s) = lower s.
Proof.
  induction s as [| c s IH]; simpl; [reflexivity |].
  now rewrite lower_ascii_idem, IH.
Qed.

Lemma initialize_strategy_fallback (w : World) (name : string)
    (kwargs : list kwarg) (t : trace) (e : exn) :
  create name kwargs = Raises e ->
  initialize_strategy w (Some name) kwargs t =
  (Returns (mkManager (Some SemanticRetriever) (Some "semantic")), t).
Proof.
  intros H. unfold initialize_strategy, try_except, bind, lift.
  now rewrite H.
Qed.

Lemma initialize_strategy_total (w : World) (name : option string)
    (kwargs : list kwarg) (t : trace) :
  exists (s : Strategy) (current : string) (t' : trace),
    initialize_strategy w name kwargs t =
    (Returns (mkManager (Some s) (Some current)), t').
Proof.
  unfold initialize_strategy, try_except, bind, lift, ret.
  set (n := match name with Some n => n | None => _ end).
  destruct (create n kwargs) as [s | e]; [| simpl; eauto].
  destruct (String.eqb (lower n) "hybrid"); [| eauto].
  unfold vs_search.
  destruct (similarity_search w t EmptyString 1000) as [docs | e]; [| eauto].
  destruct (set_bm25_retriever w s docs); eauto.
Qed.

(** C4, as stated, fails: the factory hands the options on to the class
    it falls back to, and the Semantic constructor takes none, so an
    unknown identifier given with an option raises. *)
Lemma unknown_identifier_with_option_raises :
  ~ In (lower "no_such_strategy") get_available_strategies /\
  create "no_such_strategy" [KwSemanticWeight 0.5%float] = Raises TypeError.
Proof.
  split; [| reflexivity].
  vm_compute. intros H. repeat destruct H as [H | H]; try discriminate H.
  exact H.
Qed.

(** C4, amended: the factory resolves an identifier whatever its case;
    without options it never raises, and an identifier it does not know
    gives a Semantic strategy; with options an unknown identifier raises
    [TypeError], the only exception the factory raises, and only when
    options are given; when construction raises inside
    [initialize_strategy], the manager holds a Semantic strategy and records
    "semantic"; the manager always ends with a strategy. *)
Theorem construction_never_fails_the_caller :
  (forall name, exists s, create name [] = Returns s) /\
  (forall name name' kwargs,
     lower name = lower name' -> create name kwargs = create name' kwargs) /\
  (forall name kwargs,
     ~ In (lower name) get_available_strategies ->
     create name kwargs =
     match kwargs with
     | [] => Returns SemanticRetriever
     | _ :: _ => Raises TypeError
     end) /\
  (forall name kwargs e,
     create name kwargs = Raises e -> e = TypeError /\ kwargs <> []) /\
  (forall w name kwargs t e,
     create name kwargs = Raises e ->
     initialize_strategy w (Some name) kwargs t =
     (Returns (mkManager (Some SemanticRetriever) (Some "semantic")), t)) /\
  (forall w name kwargs t,
     exists s current t',
       initialize_strategy w name kwargs t =
       (Returns (mkManager (Some s) (Some current)), t')).
Proof.
  split; [| split; [| split; [| split; [| split]]]].
  - intros name. unfold create. apply construct_no_kwargs.
  - intros name name' kwargs H. unfold create. now rewrite H.
  - intros name kwargs Hout. unfold create.
    destruct (assoc (lower name) _strategies) as [c |] eqn:E.
    + exfalso. apply Hout. apply assoc_In in E.
      apply (in_map fst) in E. exact E.
    + now destruct kwargs as [| [] ?].
  - intros name kwargs e. unfold create.
    generalize (match assoc (lower name) _strategies with
                | Some c => c
                | None => CSemantic
                end).
    intros c. destruct c; destruct kwargs as [| [] [|]]; simpl; intros H;
      try discriminate H; injection H as <-; split; try reflexivity;
      discriminate.
  - apply initialize_strategy_fallback.
  - apply initialize_strategy_total.
Qed.

Lemma construction_never_fails_the_caller_witness :
  create "Hybrid" [] = Returns (HybridRetriever 0.6%float (1 - 0.6)%float None) /\
  create "no_such_strategy" [] = Returns SemanticRetriever /\
  create "no_such_strategy" [KwOther "verbose"] = Raises TypeError /\
  initialize_strategy offline (Some "no_such_strategy") [KwOther "verbose"] [] =
  (Returns (mkManager (Some SemanticRetriever) (Some "semantic")), []).
Proof.
  assert (Hout : ~ In (lower "no_such_strategy") get_available_strategies).
  { vm_compute. intros H. repeat destruct H as [H | H]; try discriminate H.
    exact H. }
  split; [reflexivity |]. split; [| split].
  - exact (proj1 (proj2 (proj2 construction_never_fails_the_caller))
             "no_such_strategy" [] Hout).
  - exact (proj1 (proj2 (proj2 construction_never_fails_the_caller))
             "no_such_strategy" [KwOther "verbose"] Hout).
  - apply (proj1 (proj2 (proj2 (proj2 (proj2
                    construction_never_fails_the_caller))))
             offline "no_such_strategy" [KwOther "verbose"] [] TypeError).
    reflexivity.
Defined.

(* ================================================================== *)
(** ** Self-query *)

Lemma filter_match_false (fields : list (string * json)) (doc : Document) :
  filter_match fields doc = false <->
  exists key value found,
    In (key, value) fields /\ metadata doc !! key = Some found /\
    py_eq found value = false.
Proof.
  induction fields as [| [key value] fields IH]; simpl.
  - split; [discriminate | intros (? & ? & ? & [] & _)].
  - destruct (metadata doc !! key) as [found |] eqn:Em.
    + destruct (py_eq found value) eqn:Ev; simpl.
      * rewrite IH. split.
        -- intros (k' & v' & f' & Hin & H). exists k', v', f'. tauto.
        -- intros (k' & v' & f' & [[= <- <-] | Hin] & Hm & Hne).
           ++ congruence.
           ++ exists k', v', f'. tauto.
      * split; [| reflexivity]. intros _. exists key, value, found. tauto.
    + rewrite IH. split.
      * intros (k' & v' & f' & Hin & H). exists k', v', f'. tauto.
      * intros (k' & v' & f' & [[= <- <-] | Hin] & Hm & Hne).
        -- congruence.
        -- exists k', v', f'. tauto.
Qed.

Lemma filter_docs_obj (fields : list (string * json))
    (docs filtered_docs : list Document) :
  filter_docs (JObj fields) docs filtered_docs =
  Returns (filtered_docs ++ List.filter (filter_match fields) docs).
Proof.
  revert filtered_docs. induction docs as [| doc docs IH]; intros acc; simpl.
  - now rewrite app_nil_r.
  - rewrite IH. destruct (filter_match fields doc); [| reflexivity].
    now rewrite <- app_assoc.
Qed.

Lemma filter_match_nil (docs : list Document) :
  List.filter (filter_match []) docs = docs.
Proof.
  induction docs as [| doc docs IH]; simpl; [reflexivity | f_equal; exact IH].
Qed.

Lemma self_query_run (w : World) (metadata_fields : list string)
    (query : string) (k : Z) (t t1 : trace) (fields : list (string * json))
    (docs : list Document) :
  extract_filters w metadata_fields query t = (Returns (JObj fields), t1) ->
  similarity_search w t1 query k = Returns docs ->
  self_query_retrieve w metadata_fields query k t =
  (Returns (slice_to k (filtered_or_all fields docs)),
   t1 ++ [EvSearch query k (Returns docs)]).
Proof.
  intros He Hs.
  unfold self_query_retrieve, try_except, bind. rewrite He.
  unfold vs_search. rewrite Hs. simpl truthy. unfold filtered_or_all.
  destruct fields as [| f fields].
  - unfold ret. rewrite filter_match_nil. simpl. now destruct docs.
  - unfold lift, ret. rewrite filter_docs_obj. simpl.
    now destruct (List.filter _ docs).
Qed.

Lemma extract_filters_run (w : World) (metadata_fields : list string)
    (query : string) (t : trace)
    (client : trace -> string -> outcome string) :
  llm w = Some client ->
  extract_filters w metadata_fields query t =
  (Returns
     match client t (filter_prompt metadata_fields query) with
     | Returns content =>
         match json_loads w (strip content) with
         | Some filters => filters
         | None => JObj []
         end
     | Raises _ => JObj []
     end,
   t ++ [EvLlm (filter_prompt metadata_fields query)
           (client t (filter_prompt metadata_fields query))]).
Proof.
  intros Hc. unfold extract_filters, try_except, bind, llm_invoke, ret.
  rewrite Hc.
  destruct (client t (filter_prompt metadata_fields query)); [| reflexivity].
  now destruct (json_loads w (strip a)).
Qed.

(** C7: with a non-empty extracted filter, a candidate is discarded exactly
    when some filter key is present in its metadata with a different value
    (an absent key never disqualifies); when every candidate is discarded
    the unfiltered results are used, so that the result is not empty when
    the search returned candidates and [k >= 1]; the result is the first
    [k] of the set used. *)
Theorem self_query_filtering (w : World) (metadata_fields : list string)
    (query : string) (k : Z) (t t1 : trace)
    (fields : list (string * json)) (docs : list Document) :
  extract_filters w metadata_fields query t = (Returns (JObj fields), t1) ->
  fields <> [] ->
  similarity_search w t1 query k = Returns docs ->
  let kept := List.filter (filter_match fields) docs in
  (forall doc, In doc docs ->
     (~ In doc kept <->
      exists key value found,
        In (key, value) fields /\ metadata doc !! key = Some found /\
        py_eq found value = false)) /\
  fst (retrieve w (SelfQueryRetriever metadata_fields) query k t) =
    Returns (slice_to k (match kept with [] => docs | _ => kept end)) /\
  ((1 <= k)%Z -> docs <> [] ->
   fst (retrieve w (SelfQueryRetriever metadata_fields) query k t) <>
   Returns []).
Proof.
  intros He _ Hs kept.
  assert (Hrun := self_query_run w metadata_fields query k t t1 fields docs He Hs).
  split; [| split].
  - intros doc Hin. rewrite <- filter_match_false. unfold kept.
    rewrite List.filter_In. destruct (filter_match fields doc); split; intros H.
    + exfalso. apply H. now split.
    + discriminate.
    + reflexivity.
    + intros [_ H']. discriminate.
  - simpl. now rewrite Hrun.
  - intros Hk Hd. simpl retrieve. rewrite Hrun. simpl. intros [= E].
    apply (slice_to_nonempty k (filtered_or_all fields docs) Hk); [| exact E].
    unfold filtered_or_all.
    destruct (List.filter (filter_match fields) docs); [assumption | discriminate].
Qed.

Lemma self_query_filtering_witness :
  fst (retrieve
         (type_filter_world [manual_1; report_1; manual_2; report_2; untyped_1])
         (SelfQueryRetriever ["source"; "page"; "type"; "date"])
         "what do the manuals say" 5 []) =
  Returns [manual_1; manual_2; untyped_1] /\
  fst (retrieve (type_filter_world [report_1; report_2])
         (SelfQueryRetriever ["source"; "page"; "type"; "date"])
         "what do the manuals say" 5 []) =
  Returns [report_1; report_2].
Proof.
  split.
  - etransitivity.
    + refine (proj1 (proj2 (self_query_filtering
        (type_filter_world [manual_1; report_1; manual_2; report_2; untyped_1])
        ["source"; "page"; "type"; "date"] "what do the manuals say" 5 []
        _ [("type", JStr "manual")]
        [manual_1; report_1; manual_2; report_2; untyped_1] _ _ _)));
        [vm_compute; reflexivity | discriminate | reflexivity].
    + vm_compute. reflexivity.
  - etransitivity.
    + refine (proj1 (proj2 (self_query_filtering
        (type_filter_world [report_1; report_2])
        ["source"; "page"; "type"; "date"] "what do the manuals say" 5 []
        _ [("type", JStr "manual")] [report_1; report_2] _ _ _)));
        [vm_compute; reflexivity | discriminate | reflexivity].
    + vm_compute. reflexivity.
Defined.

(** C8, as stated, fails: the model answers with a filter on [author], a
    key outside the configured fields, and the passage by alice is
    discarded on it. *)
Lemma self_query_filters_on_unconfigured_key :
  ~ In "author" ["source"; "page"; "type"; "date"] /\
  similarity_search author_filter_world [] "notes" 3 =
    Returns [by_alice; by_bob] /\
  fst (retrieve author_filter_world
         (SelfQueryRetriever ["source"; "page"; "type"; "date"])
         "notes" 3 []) = Returns [by_bob].
Proof.
  split; [| split; [reflexivity | vm_compute; reflexivity]].
  simpl. intros H. repeat destruct H as [H | H]; try discriminate H. exact H.
Qed.

(** C8, amended: the filter applied to the candidates is the JSON object the
    model answered, with every key it holds, configured or not (the
    configured fields only enter the prompt); when the answer does not parse
    as JSON the filter is empty and no filtering is applied. *)
Theorem self_query_filter_source (w : World) (metadata_fields : list string)
    (query : string) (k : Z) (t : trace)
    (client : trace -> string -> outcome string) (content : string)
    (docs : list Document) :
  llm w = Some client ->
  client t (filter_prompt metadata_fields query) = Returns content ->
  similarity_search w
    (t ++ [EvLlm (filter_prompt metadata_fields query) (Returns content)])
    query k = Returns docs ->
  (json_loads w (strip content) = None ->
   fst (retrieve w (SelfQueryRetriever metadata_fields) query k t) =
   Returns (slice_to k docs)) /\
  (forall fields,
     json_loads w (strip content) = Some (JObj fields) ->
     fst (retrieve w (SelfQueryRetriever metadata_fields) query k t) =
       Returns (slice_to k (filtered_or_all fields docs)) /\
     (forall doc key value found,
        In (key, value) fields -> metadata doc !! key = Some found ->
        py_eq found value = false -> filter_match fields doc = false)).
Proof.
  intros Hc Hr Hs.
  assert (He := extract_filters_run w metadata_fields query t client Hc).
  rewrite Hr in He. split.
  - intros Hj. rewrite Hj in He. simpl.
    rewrite (self_query_run _ _ _ _ _ _ _ _ He Hs). simpl.
    unfold filtered_or_all. rewrite filter_match_nil. now destruct docs.
  - intros fields Hj. rewrite Hj in He. split.
    + simpl. now rewrite (self_query_run _ _ _ _ _ _ _ _ He Hs).
    + intros doc key value found Hin Hm Hne. apply filter_match_false.
      now exists key, value, found.
Qed.

Lemma self_query_filter_source_witness :
  fst (retrieve chatty_world
         (SelfQueryRetriever ["source"; "page"; "type"; "date"])
         "notes" 3 []) = Returns (slice_to 3 [by_alice; by_bob]) /\
  fst (retrieve author_filter_world
         (SelfQueryRetriever ["source"; "page"; "type"; "date"])
         "notes" 3 []) =
  Returns (slice_to 3
             (filtered_or_all [("author", JStr "bob")] [by_alice; by_bob])).
Proof.
  split.
  - refine (proj1 (self_query_filter_source chatty_world
      ["source"; "page"; "type"; "date"] "notes" 3 []
      (fun _ _ => Returns "I found no filters.") "I found no filters."
      [by_alice; by_bob] _ _ _) _); reflexivity.
  - refine (proj1 (proj2 (self_query_filter_source author_filter_world
      ["source"; "page"; "type"; "date"] "notes" 3 []
      (fun _ _ => Returns (json_text "author" "bob"))
      (json_text "author" "bob")
      [by_alice; by_bob] _ _ _) [("author", JStr "bob")] _)); reflexivity.
Defined.

(* ================================================================== *)
(** ** Traces *)

Lemma yielded_app (a b : trace) : yielded (a ++ b) = yielded a ++ yielded b.
Proof. unfold yielded. now rewrite map_app, concat_app. Qed.

Lemma searches_app (a b : trace) : searches (a ++ b) = searches a ++ searches b.
Proof. unfold searches. now rewrite flat_map_app. Qed.

Lemma no_index_failure_app (a b : trace) :
  no_index_failure (a ++ b) = no_index_failure a && no_index_failure b.
Proof. unfold no_index_failure. apply forallb_app. Qed.

Lemma llm_only_app (a b : trace) : llm_only a -> llm_only b -> llm_only (a ++ b).
Proof.
  unfold llm_only. intros Ha Hb. now rewrite forallb_app, Ha, Hb.
Qed.

Lemma llm_only_quiet (evs : trace) :
  llm_only evs ->
  yielded evs = [] /\ searches evs = [] /\ no_index_failure evs = true.
Proof.
  unfold llm_only. induction evs as [| ev evs IH]; simpl; [auto |].
  intros H. apply andb_prop in H as [Hev H]. destruct (IH H) as (Hy & Hs & Hf).
  destruct ev; try discriminate Hev.
  unfold yielded in *. simpl. now rewrite Hy, Hs, Hf.
Qed.

(** Any call of the language model that is caught on the spot. *)
Lemma llm_call_caught {A : Type} (client : trace -> string -> outcome string)
    (prompt : string) (f : string -> A) (fallback : A) (t : trace) :
  try_except (let* content := llm_invoke client prompt in ret (f content))
    (fun _ => ret fallback) t =
  (Returns match client t prompt with
           | Returns content => f content
           | Raises _ => fallback
           end,
   t ++ [EvLlm prompt (client t prompt)]).
Proof.
  unfold try_except, bind, llm_invoke, ret.
  now destruct (client t prompt).
Qed.

Lemma generate_paraphrases_run (w : World) (n : Z) (query : string)
    (t : trace) :
  exists ps evs,
    generate_paraphrases w n query t = (Returns ps, t ++ evs) /\
    llm_only evs /\
    (llm w = None -> ps = [query]) /\
    (forall client e,
       llm w = Some client ->
       client t (paraphrase_prompt n query) = Raises e -> ps = [query]).
Proof.
  unfold generate_paraphrases. destruct (llm w) as [client |].
  - rewrite llm_call_caught. eexists _, _. split; [reflexivity |].
    split; [reflexivity |]. split; [discriminate |].
    intros c e [= <-] He. now rewrite He.
  - exists [query], []. rewrite app_nil_r. repeat split; discriminate.
Qed.

Lemma decompose_question_run (w : World) (n : Z) (query : string)
    (t : trace) :
  exists qs evs,
    decompose_question w n query t = (Returns qs, t ++ evs) /\ llm_only evs.
Proof.
  unfold decompose_question. destruct (llm w) as [client |].
  - rewrite (llm_call_caught client _
               (fun content =>
                  match slice_to n (stripped_lines content) with
                  | [] => [query]
                  | _ => slice_to n (stripped_lines content)
                  end)).
    eexists _, _. split; reflexivity.
  - exists [query], []. now rewrite app_nil_r.
Qed.

(* ================================================================== *)
(** ** The search loops *)

Lemma tag_snd {X : Type} (xs : list X) (docss : list (list Document)) :
  length docss = length xs -> map snd (tag xs docss) = concat docss.
Proof.
  unfold tag. revert docss.
  induction xs as [| x xs IH]; intros [| docs docss]; simpl; try discriminate;
    [reflexivity |].
  intros [= Hl]. rewrite map_app, (IH docss Hl). f_equal.
  rewrite map_map. simpl. apply map_id.
Qed.

Section SearchLoop.
Context {X E : Type} (w : World) (k : Z) (text : X -> string)
  (add : X -> odict E -> Document -> odict E)
  (body : X -> odict E -> M (odict E)).
Hypothesis body_eq : forall x d t,
  body x d t =
  (let* docs := vs_search w (text x) k in ret (fold_left (add x) docs d)) t.

(** One search per item; the loop ends at the first search that raises. *)
Lemma search_loop (xs : list X) (d : odict E) (t : trace) :
  exists r evs,
    for_each xs body d t = (r, t ++ evs) /\
    Forall (fun s => exists x, In x xs /\ s = (text x, k)) (searches evs) /\
    match r with
    | Returns d' =>
        no_index_failure evs = true /\
        searches evs = map (fun x => (text x, k)) xs /\
        exists docss,
          length docss = length xs /\
          yielded evs = concat docss /\
          d' = fold_left (fun d item => add (fst item) d (snd item))
                 (tag xs docss) d
    | Raises _ => no_index_failure evs = false
    end.
Proof.
  revert d t. induction xs as [| x xs IH]; intros d t.
  - exists (Returns d), []. rewrite app_nil_r.
    split; [reflexivity |]. split; [constructor |].
    repeat split. now exists [].
  - simpl for_each. unfold bind at 1. rewrite body_eq.
    unfold bind at 1, vs_search at 1, ret.
    destruct (similarity_search w t (text x) k) as [docs | e] eqn:Es.
    + destruct (IH (fold_left (add x) docs d)
                  (t ++ [EvSearch (text x) k (Returns docs)]))
        as (r & evs & Hrun & Hall & Hr).
      exists r, (EvSearch (text x) k (Returns docs) :: evs).
      split; [rewrite Hrun; now rewrite <- app_assoc |].
      split.
      * simpl. constructor; [exists x; split; [now left | reflexivity] |].
        eapply List.Forall_impl; [| exact Hall].
        intros s (x' & Hx' & ->). exists x'. split; [now right | reflexivity].
      * destruct r as [d' | e]; [| exact Hr].
        destruct Hr as (Hf & Hsr & docss & Hl & Hy & Hd).
        split; [exact Hf |]. split; [simpl; now rewrite Hsr |].
        exists (docs :: docss). split; [simpl; now rewrite Hl |].
        split; [unfold yielded in *; simpl; now rewrite Hy |].
        rewrite Hd. unfold tag. simpl. rewrite fold_left_app. f_equal.
        clear. revert d. induction docs as [| doc docs IHd]; intros d;
          simpl; [reflexivity | apply IHd].
    + exists (Raises e), [EvSearch (text x) k (Raises e)].
      split; [reflexivity |]. split; [| reflexivity].
      simpl. constructor; [| constructor].
      exists x. split; [now left | reflexivity].
Qed.

End SearchLoop.

(* ================================================================== *)
(** ** Discovery order *)

Lemma fold_left_pointwise {A B : Type} (f g : A -> B -> A) (l : list B) (a : A) :
  (forall a b, f a b = g a b) -> fold_left f l a = fold_left g l a.
Proof.
  intros H. revert a. induction l as [| b l IH]; intros a; simpl;
    [reflexivity | now rewrite H, IH].
Qed.

Lemma first_docs_snoc (found : list Document) (doc : Document) :
  first_docs (found ++ [doc]) =
  if existsb (same_fingerprint (fingerprint doc)) (first_docs found)
  then first_docs found else first_docs found ++ [doc].
Proof. unfold first_docs. now rewrite fold_left_app. Qed.

Lemma first_docs_fingerprints (key : string) (found : list Document) :
  existsb (same_fingerprint key) (first_docs found) =
  existsb (same_fingerprint key) found.
Proof.
  induction found as [| doc found IH] using rev_ind; [reflexivity |].
  rewrite first_docs_snoc, existsb_app. simpl. rewrite orb_false_r.
  destruct (existsb (same_fingerprint (fingerprint doc)) (first_docs found))
    eqn:E.
  - destruct (same_fingerprint key doc) eqn:Ek.
    + unfold same_fingerprint in Ek. apply String.eqb_eq in Ek. subst key.
      rewrite E. now rewrite orb_true_r.
    + now rewrite orb_false_r.
  - now rewrite existsb_app, IH; simpl; rewrite orb_false_r.
Qed.

Lemma existsb_same_fingerprint (key : string) (found : list Document) :
  existsb (same_fingerprint key) found = true <->
  In key (map fingerprint found).
Proof.
  rewrite existsb_exists, in_map_iff. unfold same_fingerprint.
  split; intros (doc & H1 & H2).
  - exists doc. apply String.eqb_eq in H2. tauto.
  - exists doc. subst key. now rewrite String.eqb_refl.
Qed.

(** Without collisions every passage opens its own fingerprint. *)
Lemma first_docs_id (found : list Document) :
  List.NoDup (map fingerprint found) -> first_docs found = found.
Proof.
  induction found as [| doc found IH] using rev_ind; [reflexivity |].
  rewrite map_app. simpl. intros Hnd.
  assert (Hnd' := List.NoDup_app_remove_r _ _ Hnd).
  rewrite first_docs_snoc, (IH Hnd').
  destruct (existsb (same_fingerprint (fingerprint doc)) found) eqn:E;
    [| reflexivity].
  exfalso. apply existsb_same_fingerprint in E.
  apply List.NoDup_remove_2 in Hnd. apply Hnd. now rewrite app_nil_r.
Qed.

(** Passages whose fingerprints are known already add nothing. *)
Lemma first_docs_absorb (found more : list Document) :
  (forall doc, In doc more -> In (fingerprint doc) (map fingerprint found)) ->
  first_docs (found ++ more) = first_docs found.
Proof.
  induction more as [| doc more IH] using rev_ind; intros H.
  - now rewrite app_nil_r.
  - rewrite app_assoc, first_docs_snoc, IH.
    + rewrite first_docs_fingerprints.
      assert (E : existsb (same_fingerprint (fingerprint doc)) found = true).
      { apply existsb_same_fingerprint, H, in_or_app. right. now left. }
      now rewrite E.
    + intros d Hd. apply H, in_or_app. now left.
Qed.

Lemma od_mem_keys {V : Type} (key : string) (d : odict V) :
  od_mem key d = existsb (fun k' => String.eqb k' key) (map fst d).
Proof.
  unfold od_mem. induction d as [| [k' v'] d IH]; simpl; [reflexivity |].
  destruct (String.eqb k' key); [reflexivity | exact IH].
Qed.

Lemma values_od_set_new {V : Type} (k : string) (v : V) (d : odict V) :
  assoc k d = None -> od_values (od_set k v d) = od_values d ++ [v].
Proof.
  unfold od_values. induction d as [| [k' v'] d IH]; simpl; [reflexivity |].
  destruct (String.eqb k' k); [discriminate |].
  intros H. simpl. now rewrite IH.
Qed.

Section MergeOrder.
Context {X E : Type} (fresh : X -> Document -> E) (bump : X -> E -> E)
  (doc_of : E -> Document).
Hypothesis doc_of_fresh : forall x doc, doc_of (fresh x doc) = doc.
Hypothesis doc_of_bump : forall x e, doc_of (bump x e) = doc_of e.

Lemma docs_od_alter (x : X) (key : string) (d : odict E) :
  map doc_of (od_values (od_alter (bump x) key d)) = map doc_of (od_values d).
Proof.
  unfold od_values. induction d as [| [k' v'] d IH]; simpl; [reflexivity |].
  destruct (String.eqb k' key); simpl.
  - now rewrite doc_of_bump.
  - now rewrite IH.
Qed.

(** The dictionary lists, in order, the first passage of each
    fingerprint. *)
Lemma merge_docs (items : list (X * Document)) :
  map fst (merge fresh bump items) =
    map fingerprint (first_docs (map snd items)) /\
  map doc_of (od_values (merge fresh bump items)) =
    first_docs (map snd items).
Proof.
  induction items as [| item items [IHk IHd]] using rev_ind; [now split |].
  rewrite merge_snoc, map_app. simpl map. rewrite first_docs_snoc.
  unfold merge_add.
  assert (Em : od_mem (fingerprint (snd item)) (merge fresh bump items) =
               existsb (same_fingerprint (fingerprint (snd item)))
                 (first_docs (map snd items))).
  { rewrite od_mem_keys, IHk. clear.
    induction (first_docs (map snd items)) as [| d l IH]; simpl;
      [reflexivity | now rewrite IH]. }
  rewrite <- Em. unfold od_mem in *.
  destruct (assoc (fingerprint (snd item)) (merge fresh bump items)) eqn:Ea;
    simpl.
  - rewrite keys_od_alter, docs_od_alter. now split.
  - rewrite keys_od_set_new, values_od_set_new by assumption.
    rewrite !map_app. simpl. rewrite doc_of_fresh, IHk, IHd. now split.
Qed.
End MergeOrder.

(* ================================================================== *)
(** ** What every merging strategy returns *)

Lemma slice_to_map {A B : Type} (f : A -> B) (k : Z) (l : list A) :
  map f (slice_to k l) = slice_to k (map f l).
Proof.
  unfold slice_to. rewrite length_map.
  destruct (0 <=? k)%Z; symmetry; apply firstn_map.
Qed.

Section Ranked.
Context {X E K : Type} (fresh : X -> Document -> E) (bump : X -> E -> E)
  (doc_of : E -> Document) (ltb : K -> K -> bool) (key : E -> K).
Hypothesis doc_of_fresh : forall x doc, doc_of (fresh x doc) = doc.
Hypothesis doc_of_bump : forall x e, doc_of (bump x e) = doc_of e.

Lemma ranked_docs_entry (k : Z) (items : list (X * Document))
    (doc : Document) :
  In doc (ranked_docs ltb key doc_of k (merge fresh bump items)) ->
  exists e, doc = doc_of e /\
            In (fingerprint doc, e) (merge fresh bump items).
Proof.
  unfold ranked_docs. intros H.
  apply in_map_iff in H as (e & <- & He).
  apply slice_to_incl, sorted_desc_In, In_values in He as [key' He].
  exists e. split; [reflexivity |].
  destruct (merge_first_discovered fresh bump doc_of doc_of_fresh doc_of_bump
              items key' e He) as [-> _].
  exact He.
Qed.

(** Only the first passage discovered with a fingerprint can be returned. *)
Lemma ranked_docs_first_discovered (k : Z) (items : list (X * Document))
    (doc : Document) :
  In doc (ranked_docs ltb key doc_of k (merge fresh bump items)) ->
  first_discovered (map snd items) doc.
Proof.
  intros H. apply ranked_docs_entry in H as (e & -> & He).
  eapply merge_first_discovered; eassumption.
Qed.

Lemma ranked_docs_length (k : Z) (items : list (X * Document)) :
  (0 <= k)%Z ->
  (Z.of_nat (length (ranked_docs ltb key doc_of k (merge fresh bump items)))
   <= k)%Z.
Proof.
  intros Hk. unfold ranked_docs. rewrite length_map. now apply slice_to_bound.
Qed.

(** Fewer than [k] results: fewer than [k] distinct fingerprints. *)
Lemma ranked_docs_short (k : Z) (items : list (X * Document)) :
  (0 <= k)%Z ->
  (Z.of_nat (length (ranked_docs ltb key doc_of k (merge fresh bump items)))
   < k)%Z ->
  (Z.of_nat (length (remove_dups (map fingerprint (map snd items)))) < k)%Z.
Proof.
  intros Hk. unfold ranked_docs. rewrite length_map. intros Hlt.
  rewrite (slice_to_short k _ Hk Hlt) in Hlt.
  rewrite sorted_desc_length in Hlt. unfold od_values in Hlt.
  rewrite length_map, merge_length in Hlt. now rewrite map_map.
Qed.
End Ranked.


(* ================================================================== *)
(** ** The three merge loops are instances of [merge] *)

Lemma hybrid_add_merge (weight : float) (d : odict scored) (doc : Document) :
  hybrid_add weight d doc = merge_add scored_fresh scored_bump d (weight, doc).
Proof. reflexivity. Qed.

Lemma count_add_merge {X : Type} (x : X) (d : odict counted) (doc : Document) :
  count_add d doc = merge_add counted_fresh counted_bump d (x, doc).
Proof.
  unfold count_add, merge_add, od_mem. simpl.
  destruct (assoc (fingerprint doc) d) eqn:E; simpl; [reflexivity |].
  now rewrite od_alter_od_set.
Qed.

Lemma hop_add_merge {Y : Type} (x : nat * Y) (d : odict hopped)
    (doc : Document) :
  hop_add (fst x) d doc = merge_add hopped_fresh hopped_bump d (x, doc).
Proof.
  unfold hop_add, merge_add, od_mem. simpl.
  destruct (assoc (fingerprint doc) d) eqn:E; simpl; [reflexivity |].
  now rewrite od_alter_od_set.
Qed.

Lemma hybrid_merge_merge (sw kw : float) (semantic_docs keyword_docs : list Document) :
  hybrid_merge sw kw semantic_docs keyword_docs =
  merge scored_fresh scored_bump
    (map (pair sw) semantic_docs ++ map (pair kw) keyword_docs).
Proof.
  unfold hybrid_merge, merge. rewrite fold_left_app.
  assert (H : forall weight docs d,
             fold_left (hybrid_add weight) docs d =
             fold_left (merge_add scored_fresh scored_bump)
               (map (pair weight) docs) d).
  { intros weight docs. induction docs as [| doc docs IH]; intros d; simpl;
      [reflexivity | now rewrite IH]. }
  now rewrite !H.
Qed.

(* ================================================================== *)
(** ** Hybrid, Query Expansion and Multi-Hop on their merging path *)

Lemma hybrid_run (w : World) (sw kw : float) (bm25 : Bm25) (query : string)
    (k : Z) (t : trace) :
  exists r evs,
    hybrid_retrieve w sw kw (Some bm25) query k t = (r, t ++ evs) /\
    (no_index_failure evs = true ->
     exists semantic_docs found,
       similarity_search w t query k = Returns semantic_docs /\
       bm25 query = Returns found /\
       evs = [EvSearch query k (Returns semantic_docs);
              EvLexical query (Returns found)] /\
       r = Returns
             (ranked_docs PrimFloat.ltb sc_score sc_doc k
                (merge scored_fresh scored_bump
                   (map (pair sw) semantic_docs ++
                    map (pair kw) (slice_to k found))))).
Proof.
  unfold hybrid_retrieve, try_except, bind, vs_search at 1, bm25_invoke, ret.
  destruct (similarity_search w t query k) as [semantic_docs | e] eqn:Es.
  - destruct (bm25 query) as [found | e] eqn:Eb.
    + eexists _, _. split; [now rewrite <- app_assoc |]. intros _.
      exists semantic_docs, found. repeat split.
      unfold hybrid_rank. now rewrite hybrid_merge_merge.
    + unfold vs_search. eexists _, _.
      split; [rewrite <- !app_assoc; reflexivity |]. discriminate.
  - unfold vs_search. eexists _, _.
    split; [rewrite <- !app_assoc; reflexivity |]. discriminate.
Qed.

Lemma expansion_run (w : World) (n : Z) (query : string) (k : Z) (t : trace) :
  exists r evs,
    expansion_retrieve w n query k t = (r, t ++ evs) /\
    (no_index_failure evs = true ->
     exists items : list (string * Document),
       map snd items = yielded evs /\
       r = Returns
             (ranked_docs Z.ltb ct_count ct_doc k
                (merge counted_fresh counted_bump items))) /\
    ((llm w = None \/
      exists client e, llm w = Some client /\
                       client t (paraphrase_prompt n query) = Raises e) ->
     Forall (fun s => s = (query, k)) (searches evs)).
Proof.
  destruct (generate_paraphrases_run w n query t)
    as (ps & evs1 & Hgen & Hllm & Hnone & Hfail).
  destruct (llm_only_quiet evs1 Hllm) as (Hy1 & Hs1 & Hf1).
  set (body := fun (q : string) (doc_dict : odict counted) =>
                 let* docs := vs_search w q k in
                 ret (fold_left count_add docs doc_dict)).
  destruct (search_loop w k (fun q : string => q)
              (fun _ => count_add) body (fun _ _ _ => eq_refl)
              (query :: ps) [] (t ++ evs1))
    as (r1 & evs2 & Hloop & Hall & Hr1).
  assert (Hqs : (llm w = None \/
      exists client e, llm w = Some client /\
                       client t (paraphrase_prompt n query) = Raises e) ->
      forall x, In x (query :: ps) -> x = query).
  { intros Hun x Hx.
    assert (Hps : ps = [query]).
    { destruct Hun as [Hn | (client & e & Hc & He)]; eauto. }
    subst ps. destruct Hx as [<- | [<- | []]]; reflexivity. }
  unfold expansion_retrieve, try_except, bind at 1. rewrite Hgen.
  fold body. unfold bind at 1. rewrite Hloop.
  destruct r1 as [doc_dict | e].
  - destruct Hr1 as (Hf2 & Hsr & docss & Hl & Hy2 & Hd).
    exists (Returns (ranked_docs Z.ltb ct_count ct_doc k doc_dict)),
      (evs1 ++ evs2).
    split; [now rewrite app_assoc |]. split.
    + intros _. exists (tag (query :: ps) docss). split.
      * rewrite tag_snd by assumption. now rewrite yielded_app, Hy1, Hy2.
      * f_equal. f_equal. rewrite Hd. unfold merge.
        apply fold_left_pointwise. intros d [x doc]. simpl.
        apply count_add_merge.
    + intros Hun. rewrite searches_app, Hs1. simpl.
      eapply List.Forall_impl; [| exact Hall].
      intros s (x & Hx & ->). now rewrite (Hqs Hun x Hx).
  - unfold vs_search. eexists _, _.
    split; [rewrite <- !app_assoc; reflexivity |]. split.
    + rewrite !no_index_failure_app, Hr1, andb_false_r. discriminate.
    + intros Hun. rewrite !searches_app, Hs1. simpl.
      apply Forall_app. split; [| repeat constructor].
      eapply List.Forall_impl; [| exact Hall].
      intros s (x & Hx & ->). now rewrite (Hqs Hun x Hx).
Qed.

Lemma multihop_run (w : World) (n : Z) (query : string) (k : Z) (t : trace) :
  exists r evs,
    multihop_retrieve w n query k t = (r, t ++ evs) /\
    (no_index_failure evs = true ->
     exists items : list ((nat * string) * Document),
       map snd items = yielded evs /\
       r = Returns
             (ranked_docs Nat.ltb (fun e => length (hp_hops e)) hp_doc k
                (merge hopped_fresh hopped_bump items))).
Proof.
  destruct (decompose_question_run w n query t) as (qs & evs1 & Hdec & Hllm).
  destruct (llm_only_quiet evs1 Hllm) as (Hy1 & Hs1 & Hf1).
  set (body := fun '(i, sub_q) (doc_dict : odict hopped) =>
                 let* docs := vs_search w sub_q k in
                 ret (fold_left (hop_add i) docs doc_dict)).
  destruct (search_loop w k (fun x : nat * string => snd x)
              (fun x => hop_add (fst x)) body
              (fun x d t' => match x with (i, sub_q) => eq_refl end)
              (enumerate qs) [] (t ++ evs1))
    as (r1 & evs2 & Hloop & Hall & Hr1).
  unfold multihop_retrieve, try_except, bind at 1. rewrite Hdec.
  fold body. unfold bind at 1. rewrite Hloop.
  destruct r1 as [doc_dict | e].
  - destruct Hr1 as (Hf2 & Hsr & docss & Hl & Hy2 & Hd).
    exists (Returns (ranked_docs Nat.ltb (fun e => length (hp_hops e)) hp_doc k
                       doc_dict)), (evs1 ++ evs2).
    split; [now rewrite app_assoc |].
    intros _. exists (tag (enumerate qs) docss). split.
    + rewrite tag_snd by assumption. now rewrite yielded_app, Hy1, Hy2.
    + f_equal. f_equal. rewrite Hd. unfold merge.
      apply fold_left_pointwise. intros d [x doc]. simpl.
      apply hop_add_merge.
  - unfold vs_search. eexists _, _.
    split; [rewrite <- !app_assoc; reflexivity |].
    rewrite !no_index_failure_app, Hr1, andb_false_r. discriminate.
Qed.

(* ================================================================== *)
(** ** What an entry accumulates *)

Lemma group_occurrences {X : Type} (key : string) (items : list (X * Document)) :
  length (group key items) = occurrences key (map snd items).
Proof.
  unfold group, occurrences. induction items as [| item items IH]; simpl;
    [reflexivity |].
  destruct (same_fingerprint key (snd item)); simpl; now rewrite IH.
Qed.

Lemma occurrences_app (key : string) (a b : list Document) :
  occurrences key (a ++ b) = occurrences key a + occurrences key b.
Proof. unfold occurrences. now rewrite List.filter_app, length_app. Qed.

Lemma occurrences_absent (key : string) (found : list Document) :
  ~ In key (map fingerprint found) -> occurrences key found = 0.
Proof.
  unfold occurrences, same_fingerprint.
  induction found as [| doc found IH]; simpl; [reflexivity |].
  intros H. destruct (String.eqb_spec (fingerprint doc) key) as [E | _];
    [tauto | apply IH; tauto].
Qed.

Lemma occurrences_NoDup (key : string) (found : list Document) :
  List.NoDup (map fingerprint found) -> In key (map fingerprint found) ->
  occurrences key found = 1.
Proof.
  induction found as [| doc found IH]; simpl; [tauto |].
  intros Hnd Hin. apply List.NoDup_cons_iff in Hnd as [Hout Hnd].
  change (occurrences key (doc :: found))
    with (length (if same_fingerprint key doc
                  then doc :: List.filter (same_fingerprint key) found
                  else List.filter (same_fingerprint key) found)).
  unfold same_fingerprint at 1.
  destruct (String.eqb_spec (fingerprint doc) key) as [E | Hne].
  - subst key. simpl. f_equal. now apply occurrences_absent.
  - destruct Hin as [E | Hin]; [contradiction | now apply IH].
Qed.

(** Query Expansion: the count of an entry is the number of passages found
    with its fingerprint. *)
Lemma counted_entry {X : Type} (items : list (X * Document)) (key : string)
    (e : counted) :
  In (key, e) (merge counted_fresh counted_bump items) ->
  ct_count e = Z.of_nat (occurrences key (map snd items)).
Proof.
  intros Hin. apply In_assoc in Hin; [| apply merge_keys_NoDup].
  rewrite assoc_merge in Hin. rewrite <- group_occurrences.
  destruct (group key items) as [| [x doc] rest]; [discriminate |].
  simpl in Hin. injection Hin as <-.
  assert (H : forall e0,
             ct_count (fold_left (fun e item => counted_bump (fst item) e)
                         rest e0) =
             (ct_count e0 + Z.of_nat (length rest))%Z).
  { induction rest as [| item rest IH]; intros e0; simpl fold_left.
    - simpl. lia.
    - rewrite IH. simpl. lia. }
  rewrite H. simpl. lia.
Qed.

(** Multi-Hop: the hops of an entry are the indices of the sub-questions
    that found a passage with its fingerprint, one per passage found. *)
Lemma hopped_entry {Y : Type} (items : list ((nat * Y) * Document))
    (key : string) (e : hopped) :
  In (key, e) (merge hopped_fresh hopped_bump items) ->
  hp_hops e = map (fun item => fst (fst item)) (group key items) /\
  length (hp_hops e) = occurrences key (map snd items).
Proof.
  intros Hin. apply In_assoc in Hin; [| apply merge_keys_NoDup].
  rewrite assoc_merge in Hin. rewrite <- group_occurrences.
  assert (Hh : hp_hops e = map (fun item => fst (fst item)) (group key items)).
  { destruct (group key items) as [| [x doc] rest]; [discriminate |].
    simpl in Hin. injection Hin as <-.
    assert (H : forall e0,
               hp_hops (fold_left (fun e item => hopped_bump (fst item) e)
                          rest e0) =
               hp_hops e0 ++ map (fun item => fst (fst item)) rest).
    { induction rest as [| item rest IH]; intros e0; simpl fold_left.
      - simpl. now rewrite app_nil_r.
      - rewrite IH. simpl. now rewrite <- app_assoc. }
    rewrite H. reflexivity. }
  split; [exact Hh | now rewrite Hh, length_map].
Qed.

Lemma weights_of_list (weight : float) (docs : list Document) :
  map fst (map (pair weight) docs) = repeat weight (length docs).
Proof.
  induction docs as [| doc docs IH]; simpl; [reflexivity | now rewrite IH].
Qed.

(** Hybrid: the score of an entry accumulates, in the order of discovery,
    one weight per passage found with its fingerprint. *)
Lemma scored_entry (items : list (float * Document)) (key : string)
    (e : scored) :
  In (key, e) (merge scored_fresh scored_bump items) ->
  Some (sc_score e) = accumulate (map fst (group key items)).
Proof.
  intros Hin. apply In_assoc in Hin; [| apply merge_keys_NoDup].
  rewrite assoc_merge in Hin.
  destruct (group key items) as [| [x doc] rest]; [discriminate |].
  simpl in Hin. injection Hin as <-. simpl. f_equal.
  change x with (sc_score (scored_fresh x doc)) at 2.
  generalize (scored_fresh x doc).
  induction rest as [| item rest IH]; intros e0; simpl; [reflexivity |].
  now rewrite IH.
Qed.

Lemma hybrid_entry_score (sw kw : float)
    (semantic_docs keyword_docs : list Document) (key : string) (e : scored) :
  In (key, e)
    (merge scored_fresh scored_bump
       (map (pair sw) semantic_docs ++ map (pair kw) keyword_docs)) ->
  Some (sc_score e) =
  accumulate (hybrid_weights sw kw semantic_docs keyword_docs key).
Proof.
  intros Hin. rewrite (scored_entry _ _ _ Hin).
  unfold group, hybrid_weights, occurrences.
  rewrite List.filter_app, map_app.
  assert (H : forall weight docs,
             List.filter (fun item : float * Document =>
                            same_fingerprint key (snd item))
               (map (pair weight) docs) =
             map (pair weight) (List.filter (same_fingerprint key) docs)).
  { intros weight docs. induction docs as [| doc docs IH]; simpl;
      [reflexivity |].
    destruct (same_fingerprint key doc); simpl; now rewrite IH. }
  now rewrite !H, !weights_of_list.
Qed.

(* ================================================================== *)
(** ** Query Expansion without paraphrases *)

Lemma run_result {A : Type} (m : M A) (t evs evs' : trace) (r r' : outcome A) :
  m t = (r, t ++ evs) -> m t = (r', t ++ evs') -> r = r' /\ evs = evs'.
Proof.
  intros H H'. rewrite H in H'. injection H' as -> E.
  split; [reflexivity |]. now apply app_inv_head in E.
Qed.

Lemma count_fold_merge (found : list Document) (d : odict counted) :
  fold_left count_add found d =
  fold_left (merge_add counted_fresh counted_bump) (map (pair tt) found) d.
Proof.
  revert d. induction found as [| doc found IH]; intros d; simpl;
    [reflexivity |].
  now rewrite <- IH, (count_add_merge tt).
Qed.

Lemma Sorted_tied {A K : Type} (ltb : K -> K -> bool) (key : A -> K) (c : K)
    (l : list A) :
  ltb c c = false -> (forall a, In a l -> key a = c) ->
  Sorted (not_below ltb key) l.
Proof.
  intros Hc. induction l as [| a l IH]; intros H; constructor.
  - apply IH. intros b Hb. apply H. now right.
  - destruct l as [| b l]; constructor. unfold not_below.
    rewrite (H a), (H b); simpl; auto.
Qed.

(** The same answer merged twice, without collisions: every count is tied
    and the answer keeps its order. *)
Lemma ranked_twice (k : Z) (docs : list Document) :
  List.NoDup (map fingerprint docs) ->
  ranked_docs Z.ltb ct_count ct_doc k
    (fold_left count_add docs (fold_left count_add docs [])) =
  slice_to k docs.
Proof.
  intros Hnd. rewrite <- fold_left_app, count_fold_merge.
  fold (merge (@counted_fresh unit) (@counted_bump unit)
          (map (pair tt) (docs ++ docs))).
  set (items := map (pair tt) (docs ++ docs)).
  assert (Hsnd : map snd items = docs ++ docs).
  { unfold items. rewrite map_map. simpl. apply map_id. }
  unfold ranked_docs. rewrite (sorted_desc_id Z.ltb ct_count).
  - rewrite slice_to_map. f_equal.
    destruct (merge_docs (@counted_fresh unit) (@counted_bump unit) ct_doc
                (fun _ _ => eq_refl) (fun _ _ => eq_refl) items) as [_ Hd].
    rewrite Hd, Hsnd, first_docs_absorb.
    + now apply first_docs_id.
    + intros doc Hin. now apply in_map.
  - apply (Sorted_tied Z.ltb ct_count 2%Z); [reflexivity |].
    intros e He. apply In_values in He as [key He].
    rewrite (counted_entry items key e He), Hsnd, occurrences_app.
    assert (Hk : In key (map fingerprint docs)).
    { apply (in_map fst) in He. simpl in He.
      apply merge_keys_In in He. rewrite <- map_map, Hsnd, map_app in He.
      apply in_app_or in He. tauto. }
    rewrite (occurrences_NoDup key docs Hnd Hk). reflexivity.
Qed.

(** C5, as stated, fails: without a language model two searches are issued
    for the original query, and colliding passages of the index's top-k
    are merged. *)
Lemma expansion_searches_twice_and_merges :
  llm (fixed_index [doc_a; doc_a'; doc_b]) = None /\
  similarity_search (fixed_index [doc_a; doc_a'; doc_b]) [] "q" 3 =
    Returns [doc_a; doc_a'; doc_b] /\
  searches
    (snd (retrieve (fixed_index [doc_a; doc_a'; doc_b])
            (SemanticQueryExpansionRetriever 3) "q" 3 [])) =
    [("q", 3%Z); ("q", 3%Z)] /\
  fst (retrieve (fixed_index [doc_a; doc_a'; doc_b])
         (SemanticQueryExpansionRetriever 3) "q" 3 []) =
    Returns [doc_a; doc_b].
Proof. repeat split; vm_compute; reflexivity. Qed.

(** C5, amended: when the language model is absent or its paraphrase call
    fails, every similarity search issued, on every path, is for the
    original query text with size [k]; and when the index answers that
    search with a list whose fingerprints are pairwise distinct, the result
    is the first [k] of that list. *)
Theorem expansion_without_paraphrases (w : World) (n : Z) (query : string)
    (k : Z) (t : trace) :
  (llm w = None \/
   exists client e, llm w = Some client /\
                    client t (paraphrase_prompt n query) = Raises e) ->
  exists r evs,
    retrieve w (SemanticQueryExpansionRetriever n) query k t =
      (r, t ++ evs) /\
    Forall (fun s => s = (query, k)) (searches evs) /\
    (forall docs,
       (forall t', similarity_search w t' query k = Returns docs) ->
       List.NoDup (map fingerprint docs) ->
       r = Returns (slice_to k docs)).
Proof.
  intros Hun.
  destruct (expansion_run w n query k t) as (r & evs & Hrun & _ & Hsearches).
  exists r, evs. split; [exact Hrun |]. split; [now apply Hsearches |].
  intros docs Hs Hnd.
  destruct (generate_paraphrases_run w n query t)
    as (ps & evs1 & Hgen & Hllm & Hnone & Hfail).
  assert (Hps : ps = [query]).
  { destruct Hun as [Hn | (client & e & Hc & He)]; eauto. }
  subst ps.
  assert (Hrun' : expansion_retrieve w n query k t =
                  (Returns (slice_to k docs),
                   t ++ evs1 ++ [EvSearch query k (Returns docs);
                                 EvSearch query k (Returns docs)])).
  { unfold expansion_retrieve, try_except, bind at 1.
    rewrite Hgen. simpl for_each. unfold bind, vs_search, ret.
    rewrite !Hs. assert (Hr := ranked_twice k docs Hnd).
    unfold ranked_docs in Hr. rewrite Hr.
    now rewrite <- !app_assoc. }
  now destruct (run_result _ _ _ _ _ _ Hrun Hrun') as [-> _].
Qed.

Lemma expansion_without_paraphrases_witness :
  exists r evs,
    retrieve (fixed_index [doc_a; doc_b; doc_c])
      (SemanticQueryExpansionRetriever 3) "q" 3 [] = (r, [] ++ evs) /\
    Forall (fun s => s = ("q", 3%Z)) (searches evs) /\
    (forall docs,
       (forall t', similarity_search (fixed_index [doc_a; doc_b; doc_c]) t'
                     "q" 3 = Returns docs) ->
       List.NoDup (map fingerprint docs) ->
       r = Returns (slice_to 3 docs)).
Proof.
  apply (expansion_without_paraphrases (fixed_index [doc_a; doc_b; doc_c])
           3 "q" 3 []).
  left. reflexivity.
Defined.

(* ================================================================== *)
(** ** Deduplication by fingerprint *)



(** *** The dictionaries of the three loops *)

Lemma merge_has_entry {X E : Type} (fresh : X -> Document -> E)
    (bump : X -> E -> E) (items : list (X * Document)) (item : X * Document) :
  In item items ->
  exists e, In (fingerprint (snd item), e) (merge fresh bump items).
Proof.
  intros Hin.
  assert (Hk : In (fingerprint (snd item)) (map fst (merge fresh bump items))).
  { apply merge_keys_In, in_map_iff. now exists item. }
  apply in_map_iff in Hk as ([key e] & Hkey & He). simpl in Hkey.
  subst key. now exists e.
Qed.





(** Hybrid's dictionary: one entry per fingerprint found, keyed by the
    fingerprint of the passage it holds, which is the first one discovered;
    its score accumulates one weight per passage found. *)
Lemma hybrid_merge_entries (sw kw : float)
    (semantic_docs keyword_docs : list Document) :
  let found := semantic_docs ++ keyword_docs in
  let doc_dict := hybrid_merge sw kw semantic_docs keyword_docs in
  List.NoDup (map fst doc_dict) /\
  (forall doc, In doc found -> exists e, In (fingerprint doc, e) doc_dict) /\
  (forall key e, In (key, e) doc_dict ->
     key = fingerprint (sc_doc e) /\
     first_discovered found (sc_doc e) /\
     Some (sc_score e) =
       accumulate (hybrid_weights sw kw semantic_docs keyword_docs key)).
Proof.
  intros found doc_dict. subst doc_dict. rewrite hybrid_merge_merge.
  set (items := map (pair sw) semantic_docs ++ map (pair kw) keyword_docs).
  assert (Hsnd : map snd items = found).
  { unfold items, found. rewrite map_app, !map_map. simpl.
    now rewrite !map_id. }
  split; [apply merge_keys_NoDup |]. split.
  - intros doc Hin. rewrite <- Hsnd in Hin.
    apply in_map_iff in Hin as (item & <- & Hin).
    now apply merge_has_entry.
  - intros key e He.
    destruct (merge_first_discovered scored_fresh scored_bump sc_doc
                (fun _ _ => eq_refl) (fun _ _ => eq_refl) items key e He)
      as [Hk Hf].
    rewrite Hsnd in Hf. split; [now symmetry |]. split; [exact Hf |].
    now apply hybrid_entry_score.
Qed.



Lemma hybrid_rank_entry (sw kw : float)
    (semantic_docs keyword_docs : list Document) (e : scored) :
  In e (hybrid_rank sw kw semantic_docs keyword_docs) ->
  In (fingerprint (sc_doc e), e) (hybrid_merge sw kw semantic_docs keyword_docs).
Proof.
  unfold hybrid_rank. intros H.
  apply sorted_desc_In, In_values in H as [key H].
  destruct (hybrid_merge_entries sw kw semantic_docs keyword_docs)
    as (_ & _ & Hentry).
  now destruct (Hentry key e H) as [-> _].
Qed.

(** *** The dictionary of a run *)









(* ================================================================== *)
(** ** Hybrid rank fusion *)

Lemma StronglySorted_lookup {A : Type} (R : A -> A -> Prop) (l : list A) :
  StronglySorted R l ->
  forall i j a b, i < j -> l !! i = Some a -> l !! j = Some b -> R a b.
Proof.
  induction 1 as [| x l Hs IH Hall]; intros i j a b Hij Hi Hj;
    [discriminate |].
  destruct j as [| j]; [lia |]. simpl in Hj. destruct i as [| i].
  - injection Hi as <-. rewrite List.Forall_forall in Hall. apply Hall.
    apply list_elem_of_In. eapply list_elem_of_lookup_2. exact Hj.
  - simpl in Hi. apply (IH i j); [lia | assumption | assumption].
Qed.

(** In a descending list, what ranks strictly higher comes first. *)
Lemma StronglySorted_before {A : Type} (R : A -> A -> Prop) (l : list A)
    (i j : nat) (a b : A) :
  StronglySorted R l -> (forall x, R x x) ->
  l !! i = Some a -> l !! j = Some b -> ~ R b a -> i < j.
Proof.
  intros Hs Hrefl Hi Hj Hn.
  destruct (Nat.lt_trichotomy i j) as [Hlt | [-> | Hgt]]; [exact Hlt | |].
  - exfalso. rewrite Hi in Hj. injection Hj as ->. apply Hn, Hrefl.
  - exfalso. apply Hn. eapply (StronglySorted_lookup R l Hs j i); eassumption.
Qed.

Lemma lookup_map_Some {A B : Type} (f : A -> B) (l : list A) (i : nat) (y : B) :
  map f l !! i = Some y -> exists x, l !! i = Some x /\ f x = y.
Proof.
  revert i. induction l as [| x l IH]; intros [| i]; simpl; try discriminate.
  - intros [= <-]. now exists x.
  - apply IH.
Qed.

Lemma lookup_take_Some_inv {A : Type} (n : nat) (l : list A) (i : nat) (x : A) :
  take n l !! i = Some x -> l !! i = Some x.
Proof.
  revert n i. induction l as [| y l IH]; intros [| n] [| i]; simpl;
    try discriminate; [tauto | apply IH].
Qed.

Lemma lookup_slice_to {A : Type} (k : Z) (l : list A) (i : nat) (x : A) :
  slice_to k l !! i = Some x -> l !! i = Some x.
Proof. unfold slice_to. destruct (0 <=? k)%Z; apply lookup_take_Some_inv. Qed.

(** Sums of non-negative weights are numbers. *)
Lemma accumulate_nonneg (weights : list float) (s : float) :
  Forall (fun x => (0 <=? x)%float = true) weights ->
  accumulate weights = Some s -> (0 <=? s)%float = true.
Proof.
  destruct weights as [| weight rest]; [discriminate |].
  simpl. intros H [= <-]. apply List.Forall_cons_iff in H as [Hw Hrest].
  revert weight Hw. induction Hrest as [| x rest Hx _ IH]; intros weight Hw;
    simpl; [exact Hw |].
  apply IH. now apply fadd_nonneg.
Qed.

(** The accumulated score: one weight per passage found, in order. *)
Lemma hybrid_rank_score (sw kw : float)
    (semantic_docs keyword_docs : list Document) (e : scored) :
  In e (hybrid_rank sw kw semantic_docs keyword_docs) ->
  Some (sc_score e) =
  accumulate (hybrid_weights sw kw semantic_docs keyword_docs
                (fingerprint (sc_doc e))).
Proof.
  intros H. apply hybrid_rank_entry in H.
  destruct (hybrid_merge_entries sw kw semantic_docs keyword_docs)
    as (_ & _ & Hentry).
  now destruct (Hentry _ e H) as (_ & _ & Hscore).
Qed.

Lemma hybrid_rank_fingerprints (sw kw : float)
    (semantic_docs keyword_docs : list Document) :
  List.NoDup
    (map (fun e => fingerprint (sc_doc e))
       (hybrid_rank sw kw semantic_docs keyword_docs)).
Proof.
  destruct (hybrid_merge_entries sw kw semantic_docs keyword_docs)
    as (Hnd & _ & Hentry).
  unfold hybrid_rank.
  eapply Permutation_NoDup;
    [apply Permutation_map; symmetry; apply sorted_desc_perm |].
  assert (E : map (fun e => fingerprint (sc_doc e))
                (od_values (hybrid_merge sw kw semantic_docs keyword_docs)) =
              map fst (hybrid_merge sw kw semantic_docs keyword_docs)).
  { unfold od_values. rewrite map_map. apply map_ext_in.
    intros [key e] Hin. simpl. now destruct (Hentry key e Hin) as [-> _]. }
  now rewrite E.
Qed.

Lemma hybrid_rank_found (sw kw : float)
    (semantic_docs keyword_docs : list Document) (e : scored) :
  In e (hybrid_rank sw kw semantic_docs keyword_docs) ->
  In (fingerprint (sc_doc e)) (map fingerprint semantic_docs) \/
  In (fingerprint (sc_doc e)) (map fingerprint keyword_docs).
Proof.
  intros H. apply hybrid_rank_entry in H.
  destruct (hybrid_merge_entries sw kw semantic_docs keyword_docs)
    as (_ & _ & Hentry).
  destruct (Hentry _ e H) as (_ & Hfirst & _).
  unfold first_discovered in Hfirst. apply find_some in Hfirst as [Hin _].
  apply in_app_or in Hin. destruct Hin as [Hin | Hin]; [left | right];
    now apply in_map.
Qed.

Lemma hybrid_score_both (sw kw : float)
    (semantic_docs keyword_docs : list Document) (e : scored) :
  List.NoDup (map fingerprint semantic_docs) ->
  List.NoDup (map fingerprint keyword_docs) ->
  In e (hybrid_rank sw kw semantic_docs keyword_docs) ->
  in_both (fingerprint (sc_doc e)) semantic_docs keyword_docs ->
  sc_score e = (sw + kw)%float.
Proof.
  intros Hs Hk He [H1 H2]. pose proof (hybrid_rank_score _ _ _ _ _ He) as H.
  unfold hybrid_weights in H.
  rewrite (occurrences_NoDup _ _ Hs H1), (occurrences_NoDup _ _ Hk H2) in H.
  simpl in H. now injection H.
Qed.

Lemma hybrid_score_one (sw kw : float)
    (semantic_docs keyword_docs : list Document) (e : scored) :
  List.NoDup (map fingerprint semantic_docs) ->
  List.NoDup (map fingerprint keyword_docs) ->
  In e (hybrid_rank sw kw semantic_docs keyword_docs) ->
  in_one_only (fingerprint (sc_doc e)) semantic_docs keyword_docs ->
  sc_score e = sw \/ sc_score e = kw.
Proof.
  intros Hs Hk He [[H1 H2] | [H1 H2]];
    pose proof (hybrid_rank_score _ _ _ _ _ He) as H;
    unfold hybrid_weights in H.
  - left.
    rewrite (occurrences_NoDup _ _ Hs H1), (occurrences_absent _ _ H2) in H.
    simpl in H. now injection H.
  - right.
    rewrite (occurrences_absent _ _ H1), (occurrences_NoDup _ _ Hk H2) in H.
    simpl in H. now injection H.
Qed.

Lemma fltb_numbers (x y : float) :
  (x <? y)%float = true -> is_number x /\ is_number y.
Proof.
  intros H. unfold is_number. split.
  - destruct (is_nan x) eqn:E; [| reflexivity].
    now rewrite (fltb_nan_l x y E) in H.
  - destruct (is_nan y) eqn:E; [| reflexivity].
    now rewrite (fltb_nan_r x y E) in H.
Qed.

(** A list of numbers comes out of the sort in descending order. *)
Lemma sorted_desc_floats {A : Type} (key : A -> float) (l : list A) :
  Forall (fun a => is_number (key a)) l ->
  StronglySorted (fun a b => (key b <=? key a)%float = true)
    (sorted_desc PrimFloat.ltb key l).
Proof.
  intros Hnum.
  assert (Hs := sorted_desc_sorted_on PrimFloat.ltb key is_number
                  fltb_asym fltb_negtrans l Hnum).
  assert (Hnum' : Forall (fun a => is_number (key a))
                    (sorted_desc PrimFloat.ltb key l)).
  { apply List.Forall_forall. intros a Ha. apply sorted_desc_In in Ha.
    rewrite List.Forall_forall in Hnum. now apply Hnum. }
  induction Hs as [| x l' Hs IH Hall]; constructor.
  - apply IH. now apply List.Forall_cons_iff in Hnum' as [_ H].
  - apply List.Forall_cons_iff in Hnum' as [Hx Hl'].
    rewrite List.Forall_forall in *. intros y Hy.
    apply fltb_false_leb; [exact Hx | now apply Hl' | now apply Hall].
Qed.

(** C3, as stated, fails: two passages of the vector top-k share a
    fingerprint, their entry accumulates the semantic weight twice (1.2),
    and this passage, found by the vector index only, is returned ahead of
    the passage found by both indices (1.0). *)
Lemma hybrid_counts_collisions :
  similarity_search (fixed_index [doc_a; doc_a'; doc_b]) [] "q" 3 =
    Returns [doc_a; doc_a'; doc_b] /\
  in_one_only (fingerprint doc_a) [doc_a; doc_a'; doc_b] [doc_b; doc_c] /\
  in_both (fingerprint doc_b) [doc_a; doc_a'; doc_b] [doc_b; doc_c] /\
  map (fun e => (sc_doc e, sc_score e))
    (hybrid_rank 0.6 (1 - 0.6) [doc_a; doc_a'; doc_b] [doc_b; doc_c]) =
    [(doc_a, 1.2%float); (doc_b, 1%float); (doc_c, 0.4%float)] /\
  fst (retrieve (fixed_index [doc_a; doc_a'; doc_b])
         (HybridRetriever 0.6 (1 - 0.6) (Some (lexical [doc_b; doc_c])))
         "q" 3 []) = Returns [doc_a; doc_b; doc_c].
Proof.
  split; [reflexivity |]. split; [| split; [| split]].
  - left. split; [now left |].
    vm_compute. intros [H | [H | []]]; discriminate H.
  - split; [right; right; now left | now left].
  - vm_compute. reflexivity.
  - vm_compute. reflexivity.
Qed.

(** C3, amended: for weights that are not negative, the dictionary has one
    entry per fingerprint found; its score accumulates, by float addition
    in the order of discovery, the semantic weight once for every passage
    of the vector top-k that carries the fingerprint and then the keyword
    weight once for every such passage of the lexical top-k; the result is
    the first [k] entries in descending order of score, ties in the order
    of discovery; and when no two passages of the same list share a
    fingerprint, a passage found in both lists scores
    [semantic_weight + keyword_weight] (1.0 for 0.6 and 1.0 - 0.6) and,
    when this sum is strictly greater than either weight, comes before
    every passage found in one list only. *)
Theorem hybrid_rank_fusion (w : World) (sw kw : float) (bm25 : Bm25)
    (query : string) (k : Z) (t : trace)
    (semantic_docs lexical_docs : list Document) :
  (0 <=? sw)%float = true -> (0 <=? kw)%float = true ->
  similarity_search w t query k = Returns semantic_docs ->
  bm25 query = Returns lexical_docs ->
  let keyword_docs := slice_to k lexical_docs in
  let ranked := hybrid_rank sw kw semantic_docs keyword_docs in
  let result := map sc_doc (slice_to k ranked) in
  fst (retrieve w (HybridRetriever sw kw (Some bm25)) query k t) =
    Returns result /\
  Permutation ranked
    (od_values (hybrid_merge sw kw semantic_docs keyword_docs)) /\
  List.NoDup (map (fun e => fingerprint (sc_doc e)) ranked) /\
  (forall doc, In doc (semantic_docs ++ keyword_docs) ->
     exists e, In e ranked /\ fingerprint (sc_doc e) = fingerprint doc) /\
  (forall e, In e ranked ->
     Some (sc_score e) =
     accumulate (hybrid_weights sw kw semantic_docs keyword_docs
                   (fingerprint (sc_doc e)))) /\
  (forall s,
     List.filter (fun e => (sc_score e =? s)%float) ranked =
     List.filter (fun e => (sc_score e =? s)%float)
       (od_values (hybrid_merge sw kw semantic_docs keyword_docs))) /\
  StronglySorted (fun a b => (sc_score b <=? sc_score a)%float = true)
    ranked /\
  (List.NoDup (map fingerprint semantic_docs) ->
   List.NoDup (map fingerprint keyword_docs) ->
   (forall e, In e ranked ->
      in_both (fingerprint (sc_doc e)) semantic_docs keyword_docs ->
      sc_score e = (sw + kw)%float /\
      (sw = 0.6%float -> kw = (1 - 0.6)%float -> sc_score e = 1%float)) /\
   ((sw <? sw + kw)%float = true -> (kw <? sw + kw)%float = true ->
    (forall i j c p,
       ranked !! i = Some c -> ranked !! j = Some p ->
       in_both (fingerprint (sc_doc c)) semantic_docs keyword_docs ->
       in_one_only (fingerprint (sc_doc p)) semantic_docs keyword_docs ->
       i < j) /\
    (forall i j c p,
       result !! i = Some c -> result !! j = Some p ->
       in_both (fingerprint c) semantic_docs keyword_docs ->
       in_one_only (fingerprint p) semantic_docs keyword_docs ->
       i < j))).
Proof.
  intros Hsw Hkw Hs Hb keyword_docs ranked result.
  subst ranked result.
  set (ranked := hybrid_rank sw kw semantic_docs keyword_docs) in *.
  assert (Hin : forall e, In e ranked ->
            In e (hybrid_rank sw kw semantic_docs keyword_docs))
    by (intros e He; exact He).
  split; [| split; [| split; [| split; [| split; [| split; [| split]]]]]].
  - simpl.
    unfold hybrid_retrieve, try_except, bind, vs_search at 1, bm25_invoke, ret.
    now rewrite Hs, Hb.
  - apply sorted_desc_perm.
  - apply hybrid_rank_fingerprints.
  - intros doc Hdoc.
    destruct (hybrid_merge_entries sw kw semantic_docs keyword_docs)
      as (_ & Hhas & Hentry).
    destruct (Hhas doc Hdoc) as [e He]. exists e. split.
    + apply sorted_desc_In. unfold od_values.
      apply in_map_iff. now exists (fingerprint doc, e).
    + now destruct (Hentry _ e He) as [<- _].
  - intros e He.
    exact (hybrid_rank_score sw kw semantic_docs keyword_docs e (Hin e He)).
  - intros s. apply sorted_desc_stable. intros a b Ha Hb'.
    now apply (feqb_tied _ _ s).
  - apply sorted_desc_floats.
    apply List.Forall_forall. intros e He.
    assert (He' : In e ranked) by now apply sorted_desc_In.
    pose proof (hybrid_rank_score sw kw semantic_docs keyword_docs e
                  (Hin e He')) as Hscore.
    symmetry in Hscore. apply accumulate_nonneg in Hscore.
    + now apply fleb_number in Hscore.
    + unfold hybrid_weights. apply Forall_app. split;
        apply List.Forall_forall; intros x Hx; apply repeat_spec in Hx;
        now subst x.
  - intros Hns Hnk.
    assert (Hboth : forall e, In e ranked ->
              in_both (fingerprint (sc_doc e)) semantic_docs keyword_docs ->
              sc_score e = (sw + kw)%float).
    { intros e He Hb2.
      exact (hybrid_score_both sw kw semantic_docs keyword_docs e Hns Hnk
               (Hin e He) Hb2). }
    split.
    + intros e He Hb2. split; [now apply Hboth |].
      intros -> ->. rewrite (Hboth e He Hb2). reflexivity.
    + intros Hsw' Hkw'.
      destruct (fltb_numbers _ _ Hsw') as [Nsw Nsum].
      destruct (fltb_numbers _ _ Hkw') as [Nkw _].
      assert (Hkinds : forall e, In e ranked ->
                in_both (fingerprint (sc_doc e)) semantic_docs keyword_docs \/
                in_one_only (fingerprint (sc_doc e)) semantic_docs
                  keyword_docs).
      { intros e He. unfold in_both, in_one_only.
        destruct (hybrid_rank_found sw kw _ _ e (Hin e He)) as [H | H];
          [destruct (in_dec string_dec (fingerprint (sc_doc e))
                       (map fingerprint keyword_docs))
          | destruct (in_dec string_dec (fingerprint (sc_doc e))
                       (map fingerprint semantic_docs))]; tauto. }
      assert (Hsorted : StronglySorted
                          (fun a b => (sc_score b <=? sc_score a)%float = true)
                          ranked).
      { apply sorted_desc_floats. apply List.Forall_forall. intros e He.
        assert (He' : In e ranked) by now apply sorted_desc_In.
        destruct (Hkinds e He') as [Hk1 | Hk1].
        - now rewrite (Hboth e He' Hk1).
        - destruct (hybrid_score_one sw kw _ _ e Hns Hnk (Hin e He') Hk1)
            as [-> | ->]; assumption. }
      assert (Hrank : forall i j c p,
                ranked !! i = Some c -> ranked !! j = Some p ->
                in_both (fingerprint (sc_doc c)) semantic_docs keyword_docs ->
                in_one_only (fingerprint (sc_doc p)) semantic_docs
                  keyword_docs ->
                i < j).
      { intros i j c p Hi Hj Hc Hp.
        assert (Hci : In c ranked)
          by (apply list_elem_of_In; eapply list_elem_of_lookup_2; eassumption).
        assert (Hpi : In p ranked)
          by (apply list_elem_of_In; eapply list_elem_of_lookup_2; eassumption).
        assert (Hnum : forall e, In e ranked -> is_number (sc_score e)).
        { intros e He. destruct (Hkinds e He) as [Hk1 | Hk1].
          - now rewrite (Hboth e He Hk1).
          - destruct (hybrid_score_one sw kw _ _ e Hns Hnk (Hin e He) Hk1)
              as [-> | ->]; assumption. }
        destruct (Nat.lt_trichotomy i j) as [Hlt | [-> | Hgt]];
          [exact Hlt | |]; exfalso.
        - rewrite Hi in Hj. injection Hj as ->.
          destruct Hc as [Hc1 Hc2], Hp as [[_ Hp2] | [Hp1 _]];
            [now apply Hp2 | now apply Hp1].
        - pose proof (StronglySorted_lookup _ ranked Hsorted j i p c Hgt Hj Hi)
            as Hle. simpl in Hle.
          apply fleb_not_ltb in Hle. rewrite (Hboth c Hci Hc) in Hle.
          destruct (hybrid_score_one sw kw _ _ p Hns Hnk (Hin p Hpi) Hp)
            as [E | E]; rewrite E in Hle; congruence. }
      split; [exact Hrank |].
      intros i j c p Hi Hj Hc Hp.
      apply lookup_map_Some in Hi as (ec & Hi & <-).
      apply lookup_map_Some in Hj as (ep & Hj & <-).
      apply lookup_slice_to in Hi, Hj. now apply (Hrank i j ec ep).
Qed.

Lemma hybrid_rank_fusion_witness :
  fst (retrieve (fixed_index [doc_c; doc_b])
         (HybridRetriever 0.6 (1 - 0.6) (Some (lexical [doc_d; doc_b])))
         "q" 3 []) =
  Returns
    (map sc_doc
       (slice_to 3
          (hybrid_rank 0.6 (1 - 0.6) [doc_c; doc_b]
             (slice_to 3 [doc_d; doc_b])))) /\
  map sc_doc
    (slice_to 3
       (hybrid_rank 0.6 (1 - 0.6) [doc_c; doc_b]
          (slice_to 3 [doc_d; doc_b]))) = [doc_b; doc_c; doc_d].
Proof.
  split; [| vm_compute; reflexivity].
  apply (hybrid_rank_fusion (fixed_index [doc_c; doc_b]) 0.6%float
           (1 - 0.6)%float (lexical [doc_d; doc_b]) "q" 3 []
           [doc_c; doc_b] [doc_d; doc_b]); reflexivity.
Defined.

(** Scores are sums of floats, in the order of discovery: three keyword
    weights 1.0 - 0.6 add up to 1.2000000000000002, above the 1.2 of two
    semantic weights 0.6, and the passage found by the lexical index only
    comes first. *)
Lemma hybrid_sums_are_float_sums :
  map (fun e => (sc_doc e, sc_score e))
    (hybrid_rank 0.6 (1 - 0.6) [doc_a; doc_a'] [doc_g; doc_g'; doc_g'']) =
    [(doc_g, (0.4 + 0.4 + 0.4)%float); (doc_a, 1.2%float)] /\
  (1.2 <? 0.4 + 0.4 + 0.4)%float = true /\
  fst (retrieve (fixed_index [doc_a; doc_a'])
         (HybridRetriever 0.6 (1 - 0.6)
            (Some (lexical [doc_g; doc_g'; doc_g''])))
         "q" 3 []) = Returns [doc_g; doc_a].
Proof. repeat split; vm_compute; reflexivity. Qed.

(* ================================================================== *)
(** ** Context re-ranking *)

Lemma clamp_in_range (x : float) : score_in_range (py_min (py_max x 0) 10).
Proof.
  intros Hs. destruct (PrimFloat.is_nan x) eqn:Hx;
    [| now apply clamp_number].
  exfalso. unfold py_min, py_max, is_number in Hs.
  rewrite (fltb_nan_l x 0 Hx), (fltb_nan_r 10 x Hx) in Hs. congruence.
Qed.

Lemma score_relevance_run (w : World) (query : string) (doc : Document)
    (t : trace) :
  exists s evs,
    score_relevance w query doc t = (Returns s, t ++ evs) /\
    llm_only evs /\ score_in_range s /\ (llm w = None -> s = 1%float) /\
    ((forall text x, float_of_str w text = Some x -> is_number x) ->
     is_number s).
Proof.
  unfold score_relevance. destruct (llm w) as [client |].
  - unfold try_except, bind, llm_invoke, ret.
    destruct (client t (relevance_prompt query doc)) as [content | e].
    + destruct (float_of_str w (strip content)) as [x |] eqn:Ex;
        eexists _, _; (split; [reflexivity |]); (split; [reflexivity |]).
      * split; [apply clamp_in_range |]. split; [discriminate |].
        intros Hparse. apply Hparse in Ex. unfold is_number.
        now destruct (fleb_number _ _ (proj1 (clamp_number x Ex))).
      * split; [intros _; split; reflexivity |].
        split; [discriminate | reflexivity].
    + eexists _, _. split; [reflexivity |]. split; [reflexivity |].
      split; [intros _; split; reflexivity |].
      split; [discriminate | reflexivity].
  - exists 1%float, []. rewrite app_nil_r.
    split; [reflexivity |]. split; [reflexivity |].
    split; [intros _; split; reflexivity |]. split; reflexivity.
Qed.

(** How [_score_relevance] reads the model's answer. *)
Lemma score_relevance_answer (w : World) (query : string) (doc : Document)
    (t : trace) (client : trace -> string -> outcome string) :
  llm w = Some client ->
  fst (score_relevance w query doc t) =
  Returns match client t (relevance_prompt query doc) with
          | Returns content =>
              match float_of_str w (strip content) with
              | Some score => py_min (py_max score 0) 10
              | None => 5%float
              end
          | Raises _ => 5%float
          end.
Proof.
  intros Hc. unfold score_relevance, try_except, bind, llm_invoke, ret.
  rewrite Hc. destruct (client t (relevance_prompt query doc)); [| reflexivity].
  now destruct (float_of_str w (strip a)).
Qed.

Lemma scoring_loop (w : World) (query : string) (pool : list Document)
    (acc : list (Document * float)) (t : trace) :
  exists scores evs,
    for_each pool
      (fun doc scored_docs =>
         let* score := score_relevance w query doc in
         ret (scored_docs ++ [(doc, score)]))
      acc t = (Returns (acc ++ combine pool scores), t ++ evs) /\
    length scores = length pool /\
    llm_only evs /\
    Forall2 (scored_by w query) pool scores /\
    Forall score_in_range scores /\
    (llm w = None -> Forall (fun s => s = 1%float) scores) /\
    ((forall text x, float_of_str w text = Some x -> is_number x) ->
     Forall is_number scores).
Proof.
  revert acc t. induction pool as [| doc pool IH]; intros acc t.
  - exists [], []. simpl. rewrite !app_nil_r. unfold ret.
    repeat split; constructor.
  - destruct (score_relevance_run w query doc t)
      as (s & evs1 & Hrun & Hllm1 & Hb & Hone & Hn).
    destruct (IH (acc ++ [(doc, s)]) (t ++ evs1))
      as (scores & evs2 & Hloop & Hlen & Hllm2 & Hby & Hbs & Hones & Hns).
    exists (s :: scores), (evs1 ++ evs2).
    split; [| split; [| split; [| split; [| split; [| split]]]]].
    + simpl for_each. unfold bind at 1. unfold bind at 1. rewrite Hrun.
      unfold ret at 1. rewrite Hloop. simpl.
      now rewrite <- !app_assoc.
    + simpl. now rewrite Hlen.
    + now apply llm_only_app.
    + constructor; [| exact Hby]. exists t. now rewrite Hrun.
    + now constructor.
    + intros Hnone. constructor; auto.
    + intros Hparse. constructor; auto.
Qed.

Lemma map_fst_combine {A B : Type} (l : list A) (l' : list B) :
  length l' = length l -> map fst (combine l l') = l.
Proof.
  revert l'. induction l as [| a l IH]; intros [| b l']; simpl;
    try discriminate; [reflexivity |].
  intros [= H]. now rewrite IH.
Qed.

Lemma StronglySorted_combine {A B : Type} (R : B -> B -> Prop)
    (l : list A) (l' : list B) :
  StronglySorted R l' ->
  StronglySorted (fun a b => R (snd a) (snd b)) (combine l l').
Proof.
  intros H. revert l. induction H as [| b l' Hs IH Hall]; intros [| a l];
    simpl; try constructor.
  - apply IH.
  - apply List.Forall_forall. intros [a' b'] Hin. simpl.
    apply in_combine_r in Hin. rewrite List.Forall_forall in Hall.
    now apply Hall.
Qed.

Lemma rerank_run (w : World) (rerank_top_k : Z) (query : string) (k : Z)
    (t : trace) (pool : list Document) :
  similarity_search w t query rerank_top_k = Returns pool ->
  exists scores evs,
    rerank_retrieve w rerank_top_k query k t =
      (Returns (map fst (slice_to k (sorted_desc PrimFloat.ltb snd
                                       (combine pool scores)))),
       t ++ EvSearch query rerank_top_k (Returns pool) :: evs) /\
    length scores = length pool /\
    llm_only evs /\
    Forall2 (scored_by w query) pool scores /\
    Forall score_in_range scores /\
    (llm w = None -> Forall (fun s => s = 1%float) scores) /\
    ((forall text x, float_of_str w text = Some x -> is_number x) ->
     Forall is_number scores).
Proof.
  intros Hs. unfold rerank_retrieve, try_except, bind at 1, vs_search at 1.
  rewrite Hs. destruct pool as [| doc pool].
  - exists [], []. unfold ret. simpl. rewrite slice_to_nil.
    repeat split; constructor.
  - destruct (scoring_loop w query (doc :: pool) []
                (t ++ [EvSearch query rerank_top_k (Returns (doc :: pool))]))
      as (scores & evs & Hloop & Hlen & Hllm & Hby & Hbs & Hones & Hns).
    exists scores, evs. split; [| auto 10].
    cbv beta iota. unfold bind at 1. rewrite Hloop. unfold ret. simpl app.
    now rewrite <- app_assoc.
Qed.

Lemma Sorted_weaken {A : Type} (R R' : A -> A -> Prop) (l : list A) :
  (forall a b, R a b -> R' a b) -> Sorted R l -> Sorted R' l.
Proof.
  intros H. induction 1 as [| a l Hs IH Hhd]; constructor; [exact IH |].
  destruct Hhd; constructor. now apply H.
Qed.

Lemma StronglySorted_weaken {A : Type} (R R' : A -> A -> Prop) (l : list A) :
  (forall a b, R a b -> R' a b) -> StronglySorted R l -> StronglySorted R' l.
Proof.
  intros H. induction 1 as [| a l Hs IH Hall]; constructor; [exact IH |].
  eapply List.Forall_impl; [| exact Hall]. intros b. apply H.
Qed.

(** C6 fails on an answer that [float] reads as NaN: [min(max(score, 0),
    10)] lets NaN through, since every comparison with NaN is false.  The
    model rates the first candidate "nan" and the second "7": the first
    score is NaN, neither within [0, 10] nor 5.0, and the first candidate
    is returned ahead of the second, whose score 7 it does not reach. *)
Theorem reranking_keeps_nan_score :
  similarity_search nan_world [] "q" 5 = Returns [doc_c; doc_d] /\
  float_of_str nan_world "nan" = Some nan /\
  (exists t, fst (score_relevance nan_world "q" doc_c t) = Returns nan) /\
  (exists t, fst (score_relevance nan_world "q" doc_d t) = Returns 7%float) /\
  (0 <=? nan)%float = false /\ (nan <=? 10)%float = false /\
  (7 <=? nan)%float = false /\
  fst (retrieve nan_world (ContextReRankingRetriever 5) "q" 2 []) =
    Returns [doc_c; doc_d].
Proof.
  split; [reflexivity |]. split; [reflexivity |].
  split; [exists []; vm_compute; reflexivity |].
  split; [exists []; vm_compute; reflexivity |].
  repeat split; vm_compute; reflexivity.
Qed.

(** X24: when the pool search answers, Context Re-Ranking returns.  A
    score is 1 without a model, 5 when the call fails or the answer is not
    a float literal, and the clamped value otherwise; every score that is a
    number lies in [0, 10].  When no score is NaN (no answer reads as NaN),
    the result is the pool sorted stably in descending order of score and
    cut at [k]: without a model, or with strictly decreasing scores, the
    pool keeps its order, strictly increasing scores reverse it, and a pool
    of at most [rerank_top_k < k] passages is returned whole, never
    padded. *)
Theorem reranking_contract (w : World) (rerank_top_k : Z) (query : string)
    (k : Z) (t : trace) (pool : list Document) :
  similarity_search w t query rerank_top_k = Returns pool ->
  exists scores docs,
    fst (retrieve w (ContextReRankingRetriever rerank_top_k) query k t) =
      Returns docs /\
    length scores = length pool /\
    Forall2 (scored_by w query) pool scores /\
    Forall score_in_range scores /\
    (forall doc t' client e,
       llm w = Some client ->
       client t' (relevance_prompt query doc) = Raises e ->
       fst (score_relevance w query doc t') = Returns 5%float) /\
    (forall doc t' client content,
       llm w = Some client ->
       client t' (relevance_prompt query doc) = Returns content ->
       float_of_str w (strip content) = None ->
       fst (score_relevance w query doc t') = Returns 5%float) /\
    (forall doc t' client content score,
       llm w = Some client ->
       client t' (relevance_prompt query doc) = Returns content ->
       float_of_str w (strip content) = Some score ->
       fst (score_relevance w query doc t') =
       Returns (py_min (py_max score 0) 10)) /\
    (llm w = None -> Forall (fun s => s = 1%float) scores) /\
    ((forall text x, float_of_str w text = Some x -> is_number x) ->
     Forall is_number scores) /\
    (Forall is_number scores ->
     let scored_docs := combine pool scores in
     let ranked := sorted_desc PrimFloat.ltb snd scored_docs in
     docs = map fst (slice_to k ranked) /\
     Permutation ranked scored_docs /\
     StronglySorted (fun a b => (snd b <=? snd a)%float = true) ranked /\
     (forall s,
        List.filter (fun a => (snd a =? s)%float) ranked =
        List.filter (fun a => (snd a =? s)%float) scored_docs) /\
     (llm w = None -> docs = slice_to k pool) /\
     (StronglySorted (fun a b => (b <? a)%float = true) scores ->
      docs = slice_to k pool) /\
     (StronglySorted (fun a b => (a <? b)%float = true) scores ->
      docs = slice_to k (rev pool)) /\
     ((Z.of_nat (length pool) <= rerank_top_k)%Z -> (rerank_top_k < k)%Z ->
      docs = map fst ranked /\
      (Z.of_nat (length docs) <= rerank_top_k)%Z)).
Proof.
  intros Hs.
  destruct (rerank_run w rerank_top_k query k t pool Hs)
    as (scores & evs & Hrun & Hlen & _ & Hby & Hbs & Hones & Hnums).
  exists scores. eexists.
  split; [simpl; rewrite Hrun; reflexivity |].
  split; [exact Hlen |]. split; [exact Hby |]. split; [exact Hbs |].
  split; [| split; [| split; [| split; [| split]]]].
  - intros doc t' client e Hc Hr.
    now rewrite (score_relevance_answer w query doc t' client Hc), Hr.
  - intros doc t' client content Hc Hr Hf.
    now rewrite (score_relevance_answer w query doc t' client Hc), Hr, Hf.
  - intros doc t' client content score Hc Hr Hf.
    now rewrite (score_relevance_answer w query doc t' client Hc), Hr, Hf.
  - exact Hones.
  - exact Hnums.
  - intros Hnum scored_docs ranked.
    set (result := map fst (slice_to k ranked)).
    assert (Hfst : map fst scored_docs = pool) by now apply map_fst_combine.
    assert (Hid : Sorted (not_below PrimFloat.ltb snd) scored_docs ->
                  result = slice_to k pool).
    { intros H. unfold result, ranked.
      rewrite (sorted_desc_id PrimFloat.ltb snd scored_docs H), slice_to_map.
      now rewrite Hfst. }
    split; [reflexivity |].
    split; [apply sorted_desc_perm |].
    split; [| split; [| split; [| split; [| split]]]].
    + apply sorted_desc_floats.
      apply List.Forall_forall. intros [doc s] Hin.
      apply in_combine_r in Hin. simpl.
      rewrite List.Forall_forall in Hnum. now apply Hnum.
    + intros s. apply sorted_desc_stable. intros a b Ha Hb.
      now apply (feqb_tied _ _ s).
    + intros Hn. apply Hid.
      apply (Sorted_tied PrimFloat.ltb snd 1%float); [reflexivity |].
      intros [doc s] Hin. apply in_combine_r in Hin. simpl.
      specialize (Hones Hn). rewrite List.Forall_forall in Hones.
      now apply Hones.
    + intros Hdec. apply Hid.
      apply (StronglySorted_combine _ pool) in Hdec.
      apply StronglySorted_Sorted in Hdec.
      eapply Sorted_weaken; [| exact Hdec].
      intros a b Hab. now apply fltb_asym.
    + intros Hinc. change (result = slice_to k (rev pool)).
      unfold result, ranked.
      rewrite (sorted_desc_rev PrimFloat.ltb snd scored_docs).
      * now rewrite slice_to_map, map_rev, Hfst.
      * now apply (StronglySorted_combine _ pool) in Hinc.
    + intros Hpool Hk.
      assert (Hl : length ranked = length pool).
      { unfold ranked, scored_docs.
        rewrite sorted_desc_length, length_combine, Hlen. lia. }
      change (result = map fst ranked /\
              (Z.of_nat (length result) <= rerank_top_k)%Z).
      unfold result. rewrite slice_to_all by lia.
      split; [reflexivity |]. rewrite length_map. lia.
Qed.

Lemma reranking_contract_witness :
  exists (scores : list float) docs,
    fst (retrieve (echo_world [doc_c; doc_d; doc_b])
           (ContextReRankingRetriever 5) "q" 2 []) = Returns docs /\
    length scores = 3.
Proof.
  destruct (reranking_contract (echo_world [doc_c; doc_d; doc_b]) 5 "q" 2 []
              [doc_c; doc_d; doc_b] eq_refl) as (scores & docs & H1 & H2 & _).
  exists scores, docs. split; [exact H1 | exact H2].
Defined.

(** Rising scores (3, 7, 8) reverse the pool before the cut. *)
Lemma reranking_reverses_rising_scores :
  map (fun doc =>
         fst (score_relevance (echo_world [doc_c; doc_d; doc_b]) "q" doc []))
    [doc_c; doc_d; doc_b] =
    [Returns 3%float; Returns 7%float; Returns 8%float] /\
  fst (retrieve (echo_world [doc_c; doc_d; doc_b])
         (ContextReRankingRetriever 5) "q" 2 []) = Returns [doc_b; doc_d].
Proof. split; vm_compute; reflexivity. Qed.

(* ================================================================== *)
(** ** At most [k] passages *)

Lemma bind_returns {A B : Type} (m : M A) (f : A -> M B) (t t' : trace) (b : B) :
  bind m f t = (Returns b, t') ->
  exists a t1, m t = (Returns a, t1) /\ f a t1 = (Returns b, t').
Proof.
  unfold bind. destruct (m t) as [[a | e] t1]; [eauto | discriminate].
Qed.

Lemma try_except_returns {A : Type} (m : M A) (h : exn -> M A)
    (t t' : trace) (a : A) :
  try_except m h t = (Returns a, t') ->
  m t = (Returns a, t') \/
  exists e t1, m t = (Raises e, t1) /\ h e t1 = (Returns a, t').
Proof.
  unfold try_except. destruct (m t) as [[a' | e] t1]; [| eauto].
  intros [= -> ->]. now left.
Qed.

Lemma vs_search_returns (w : World) (query : string) (k : Z) (t t' : trace)
    (docs : list Document) :
  vs_search w query k t = (Returns docs, t') ->
  similarity_search w t query k = Returns docs.
Proof. unfold vs_search. now intros [= -> _]. Qed.

Lemma ret_returns {A : Type} (a b : A) (t t' : trace) :
  ret a t = (Returns b, t') -> b = a.
Proof. unfold ret. now intros [= ->]. Qed.

(** A strategy whose body ends with a cut at [k], and whose handler is the
    plain search, returns at most [k] passages. *)
Lemma fallback_bounded (w : World) (body : M (list Document))
    (query : string) (k : Z) (t t' : trace) (docs : list Document) :
  search_bounded w ->
  (forall t0 t1 l, body t0 = (Returns l, t1) -> (Z.of_nat (length l) <= k)%Z) ->
  try_except body (fun _ => vs_search w query k) t = (Returns docs, t') ->
  (Z.of_nat (length docs) <= k)%Z.
Proof.
  intros Hw Hbody H.
  apply try_except_returns in H as [H | (e & t1 & _ & H)].
  - eapply Hbody. exact H.
  - apply vs_search_returns in H. eapply Hw. exact H.
Qed.

Lemma retrieve_bounded (w : World) (s : Strategy) (query : string) (k : Z)
    (t t' : trace) (docs : list Document) :
  (0 <= k)%Z -> search_bounded w ->
  retrieve w s query k t = (Returns docs, t') ->
  (Z.of_nat (length docs) <= k)%Z.
Proof.
  intros Hk Hw. destruct s as [| sw kw [bm25 |] | n | n | fields | n]; simpl.
  - rewrite semantic_retrieve_run.
    destruct (similarity_search w t query k) as [l | e] eqn:E;
      intros [= <- _]; [eapply Hw; exact E | simpl; lia].
  - apply fallback_bounded; [exact Hw |]. intros t0 t1 l H.
    apply bind_returns in H as (semantic_docs & t2 & _ & H).
    apply bind_returns in H as (found & t3 & _ & H).
    apply ret_returns in H. subst l. rewrite length_map.
    now apply slice_to_bound.
  - apply fallback_bounded; [exact Hw |]. intros t0 t1 l H.
    apply vs_search_returns in H. eapply Hw. exact H.
  - apply fallback_bounded; [exact Hw |]. intros t0 t1 l H.
    apply bind_returns in H as (ps & t2 & _ & H).
    apply bind_returns in H as (doc_dict & t3 & _ & H).
    apply ret_returns in H. subst l. rewrite length_map.
    now apply slice_to_bound.
  - apply fallback_bounded; [exact Hw |]. intros t0 t1 l H.
    apply bind_returns in H as (initial_docs & t2 & _ & H).
    destruct initial_docs as [| doc pool].
    + apply ret_returns in H. subst l. simpl. lia.
    + apply bind_returns in H as (scored_docs & t3 & _ & H).
      apply ret_returns in H. subst l. rewrite length_map.
      now apply slice_to_bound.
  - apply fallback_bounded; [exact Hw |]. intros t0 t1 l H.
    apply bind_returns in H as (filters & t2 & _ & H).
    apply bind_returns in H as (found & t3 & _ & H).
    apply bind_returns in H as (kept & t4 & _ & H).
    apply ret_returns in H. subst l. now apply slice_to_bound.
  - apply fallback_bounded; [exact Hw |]. intros t0 t1 l H.
    apply bind_returns in H as (qs & t2 & _ & H).
    apply bind_returns in H as (doc_dict & t3 & _ & H).
    apply ret_returns in H. subst l. rewrite length_map.
    now apply slice_to_bound.
Qed.

Lemma remove_dups_length_le {A : Type} `{EqDecision A} (l : list A) :
  length (remove_dups l) <= length l.
Proof.
  induction l as [| x l IH]; simpl; [lia |].
  destruct (decide_rel elem_of x l); simpl; lia.
Qed.

Lemma distinct_candidates_le (evs : trace) :
  distinct_candidates evs <= length (yielded evs).
Proof.
  unfold distinct_candidates.
  etransitivity; [apply remove_dups_length_le | now rewrite length_map].
Qed.

(** Fewer than [k] passages come out of a strategy other than Self-Query,
    when no index call failed, only if the indices yielded fewer than [k]
    distinct fingerprints. *)
Lemma retrieve_short (w : World) (s : Strategy) (query : string) (k : Z)
    (t evs : trace) (docs : list Document) :
  (0 <= k)%Z -> lexical_bounded k s -> is_self_query s = false ->
  retrieve w s query k t = (Returns docs, t ++ evs) ->
  no_index_failure evs = true ->
  (Z.of_nat (length docs) < k)%Z ->
  (Z.of_nat (distinct_candidates evs) < k)%Z.
Proof.
  intros Hk Hlex Hsq Hrun Hok Hlt.
  assert (Hplain : forall l, yielded evs = l -> docs = l ->
            (Z.of_nat (distinct_candidates evs) < k)%Z).
  { intros l Hy Hd. assert (H := distinct_candidates_le evs).
    rewrite Hy, <- Hd in H. lia. }
  destruct s as [| sw kw [bm25 |] | n | n | fields | n]; simpl in Hrun;
    try discriminate Hsq.
  - rewrite semantic_retrieve_run in Hrun.
    injection Hrun as Hd He. apply app_inv_head in He. subst evs.
    destruct (similarity_search w t query k) as [l | e]; [| discriminate Hok].
    apply (Hplain l); [apply app_nil_r | congruence].
  - destruct (hybrid_run w sw kw bm25 query k t) as (r & evs' & Hrun' & Hspec).
    destruct (run_result _ _ _ _ _ _ Hrun Hrun') as [<- <-].
    destruct (Hspec Hok) as (sem & found & Hs & Hb & -> & [= ->]).
    apply ranked_docs_short in Hlt; [| exact Hk].
    unfold distinct_candidates, yielded. simpl. rewrite app_nil_r.
    rewrite map_app, !map_map in Hlt. simpl in Hlt. rewrite !map_id in Hlt.
    now rewrite (slice_to_all k found (Hlex query found Hb)) in Hlt.
  - rewrite hybrid_unbuilt_run in Hrun.
    destruct (similarity_search w t query k) as [l | e].
    + injection Hrun as Hd He. apply app_inv_head in He. subst evs.
      apply (Hplain l); [apply app_nil_r | congruence].
    + unfold vs_search in Hrun. rewrite <- app_assoc in Hrun.
      injection Hrun as _ He. apply app_inv_head in He. subst evs.
      discriminate Hok.
  - destruct (expansion_run w n query k t) as (r & evs' & Hrun' & Hspec & _).
    destruct (run_result _ _ _ _ _ _ Hrun Hrun') as [<- <-].
    destruct (Hspec Hok) as (items & Hsnd & [= ->]).
    apply ranked_docs_short in Hlt; [| exact Hk].
    unfold distinct_candidates. now rewrite <- Hsnd.
  - destruct (similarity_search w t query n) as [pool | e] eqn:Es.
    + destruct (rerank_run w n query k t pool Es)
        as (scores & evs' & Hrun' & Hlen & Hllm & _).
      destruct (run_result _ _ _ _ _ _ Hrun Hrun') as [[= ->] ->].
      destruct (llm_only_quiet evs' Hllm) as (Hy & _ & _).
      rewrite length_map in Hlt.
      rewrite (slice_to_short k _ Hk Hlt), sorted_desc_length,
        length_combine, Hlen in Hlt.
      assert (H := distinct_candidates_le
                     (EvSearch query n (Returns pool) :: evs')).
      unfold yielded in H, Hy. simpl in H.
      rewrite Hy, app_nil_r in H. lia.
    + unfold rerank_retrieve, try_except, bind, vs_search in Hrun.
      rewrite Es, <- app_assoc in Hrun.
      injection Hrun as _ He. apply app_inv_head in He. subst evs.
      discriminate Hok.
  - destruct (multihop_run w n query k t) as (r & evs' & Hrun' & Hspec).
    destruct (run_result _ _ _ _ _ _ Hrun Hrun') as [<- <-].
    destruct (Hspec Hok) as (items & Hsnd & [= ->]).
    apply ranked_docs_short in Hlt; [| exact Hk].
    unfold distinct_candidates. now rewrite <- Hsnd.
Qed.

Lemma manager_retrieve_bounded (w : World) (m m' : RetrieverManager)
    (query : string) (k : Z) (t t' : trace) (docs : list Document) :
  (0 <= k)%Z -> search_bounded w ->
  manager_retrieve w m query k t = (Returns (m', docs), t') ->
  (Z.of_nat (length docs) <= k)%Z.
Proof.
  intros Hk Hw H. unfold manager_retrieve in H.
  apply bind_returns in H as (m1 & t1 & _ & H).
  destruct (retriever m1) as [s |]; [| discriminate H].
  apply bind_returns in H as (l & t2 & Hr & H).
  apply ret_returns in H. injection H as _ ->.
  eapply retrieve_bounded; eassumption.
Qed.

Lemma top_k_bounded (docs found : list Document) (k : Z) :
  top_k docs k = Returns found -> (Z.of_nat (length found) <= k)%Z.
Proof.
  unfold top_k. destruct (Z.leb_spec 0 k); [| discriminate].
  intros [= <-]. rewrite length_take. lia.
Qed.

(** C1, as stated, fails: the index yields three distinct candidates for
    [k = 3], and the Self-Query filter leaves one. *)
Lemma self_query_returns_fewer :
  search_bounded (type_filter_world [manual_1; report_1; report_2]) /\
  fst (retrieve (type_filter_world [manual_1; report_1; report_2])
         (SelfQueryRetriever ["source"; "page"; "type"; "date"])
         "manuals" 3 []) = Returns [manual_1] /\
  no_index_failure
    (snd (retrieve (type_filter_world [manual_1; report_1; report_2])
            (SelfQueryRetriever ["source"; "page"; "type"; "date"])
            "manuals" 3 [])) = true /\
  distinct_candidates
    (snd (retrieve (type_filter_world [manual_1; report_1; report_2])
            (SelfQueryRetriever ["source"; "page"; "type"; "date"])
            "manuals" 3 [])) = 3.
Proof.
  split; [| repeat split; vm_compute; reflexivity].
  intros t query k docs. apply top_k_bounded.
Qed.

(** C1, amended: under the assumption on the indices every strategy returns
    at most [k] passages for [k >= 1], whether called directly or through
    the manager; a strategy other than Self-Query returns fewer than [k],
    when no index call failed, only if the indices yielded fewer than [k]
    candidates with distinct fingerprints (Self-Query may also return fewer
    because its filter discarded candidates). *)
Theorem retrieve_at_most_k (w : World) (s : Strategy) (query : string)
    (k : Z) (t evs : trace) (docs : list Document) :
  (1 <= k)%Z -> search_bounded w -> lexical_bounded k s ->
  retrieve w s query k t = (Returns docs, t ++ evs) ->
  (Z.of_nat (length docs) <= k)%Z /\
  (forall m m' t0 t1 found,
     manager_retrieve w m query k t0 = (Returns (m', found), t1) ->
     (Z.of_nat (length found) <= k)%Z) /\
  (is_self_query s = false -> no_index_failure evs = true ->
   (Z.of_nat (length docs) < k)%Z ->
   (Z.of_nat (distinct_candidates evs) < k)%Z).
Proof.
  intros Hk Hw Hlex Hrun. split; [| split].
  - eapply retrieve_bounded; [lia | exact Hw | exact Hrun].
  - intros m m' t0 t1 found H.
    eapply manager_retrieve_bounded; [lia | exact Hw | exact H].
  - intros Hsq Hok Hlt.
    eapply retrieve_short; [lia | exact Hlex | exact Hsq | exact Hrun | exact Hok | exact Hlt].
Qed.

Lemma retrieve_at_most_k_witness :
  (Z.of_nat (length [doc_c; doc_b]) <= 3)%Z /\
  (Z.of_nat (length [doc_c; doc_b]) < 3 ->
   Z.of_nat (distinct_candidates
               [EvSearch "q" 3 (Returns [doc_b; doc_c]);
                EvLexical "q" (Returns [doc_c])]) < 3)%Z.
Proof.
  destruct (retrieve_at_most_k (fixed_index [doc_b; doc_c])
              (HybridRetriever 0.6%float (1 - 0.6)%float (Some (lexical [doc_c])))
              "q" 3 []
              [EvSearch "q" 3 (Returns [doc_b; doc_c]);
               EvLexical "q" (Returns [doc_c])]
              [doc_c; doc_b]) as (H1 & _ & H2).
  - lia.
  - intros t query k docs. apply top_k_bounded.
  - intros query docs [= <-]. simpl. lia.
  - vm_compute. reflexivity.
  - split; [exact H1 |]. intros Hlt. apply H2; [reflexivity | reflexivity | exact Hlt].
Defined.

(* ================================================================== *)
(** ** Every strategy: what is returned and what can escape *)

Lemma first_discovered_In (found : list Document) (doc : Document) :
  first_discovered found doc -> In doc found.
Proof. unfold first_discovered. intros H. now apply find_some in H. Qed.

Lemma yielded_search (query : string) (k : Z) (docs : list Document) :
  yielded [EvSearch query k (Returns docs)] = docs.
Proof. unfold yielded. simpl. apply app_nil_r. Qed.

(** A body followed by the handler every strategy but Semantic uses. *)
Lemma fallback_sound (w : World) (body : M (list Document)) (query : string)
    (k : Z) (t : trace) (rb : outcome (list Document)) (evs1 : trace) :
  body t = (rb, t ++ evs1) ->
  (forall docs, rb = Returns docs -> incl docs (yielded evs1)) ->
  exists r evs,
    try_except body (fun _ => vs_search w query k) t = (r, t ++ evs) /\
    match r with
    | Returns docs => incl docs (yielded evs)
    | Raises e =>
        exists evs0,
          evs = evs0 ++ [EvSearch query k (Raises e)] /\
          similarity_search w (t ++ evs0) query k = Raises e
    end.
Proof.
  intros Hb Hin. unfold try_except. rewrite Hb.
  destruct rb as [docs | e0].
  - exists (Returns docs), evs1. split; [reflexivity | now apply Hin].
  - unfold vs_search.
    destruct (similarity_search w (t ++ evs1) query k) as [l | e] eqn:Es.
    + exists (Returns l), (evs1 ++ [EvSearch query k (Returns l)]).
      split; [now rewrite app_assoc |].
      rewrite yielded_app, yielded_search. now apply incl_appr, incl_refl.
    + exists (Raises e), (evs1 ++ [EvSearch query k (Raises e)]).
      split; [now rewrite app_assoc |]. now exists evs1.
Qed.

Lemma ranked_docs_incl {X E K : Type} (fresh : X -> Document -> E)
    (bump : X -> E -> E) (doc_of : E -> Document) (ltb : K -> K -> bool)
    (key : E -> K) (k : Z) (items : list (X * Document)) :
  (forall x doc, doc_of (fresh x doc) = doc) ->
  (forall x e, doc_of (bump x e) = doc_of e) ->
  incl (ranked_docs ltb key doc_of k (merge fresh bump items)) (map snd items).
Proof.
  intros Hf Hb doc Hin. apply first_discovered_In.
  eapply ranked_docs_first_discovered; eassumption.
Qed.

Lemma hybrid_body_run (w : World) (sw kw : float) (bm25 : Bm25) (query : string)
    (k : Z) (t : trace) :
  exists rb evs1,
    (let* semantic_docs := vs_search w query k in
     let* found := bm25_invoke bm25 query in
     ret (map sc_doc
            (slice_to k (hybrid_rank sw kw semantic_docs (slice_to k found)))))
      t = (rb, t ++ evs1) /\
    (forall docs, rb = Returns docs -> incl docs (yielded evs1)).
Proof.
  unfold bind, vs_search, bm25_invoke, ret.
  destruct (similarity_search w t query k) as [sem | e].
  - destruct (bm25 query) as [found | e].
    + eexists _, _. split; [now rewrite <- app_assoc |].
      intros docs [= <-]. unfold hybrid_rank. rewrite hybrid_merge_merge.
      intros doc Hin.
      apply (ranked_docs_incl scored_fresh scored_bump sc_doc PrimFloat.ltb sc_score k)
        in Hin; [| reflexivity | reflexivity].
      rewrite map_app, !map_map in Hin. simpl in Hin. rewrite !map_id in Hin.
      unfold yielded. simpl. rewrite app_nil_r.
      apply in_app_or in Hin as [H | H]; apply in_or_app; [now left | right].
      eapply slice_to_incl. exact H.
    + eexists _, _. split; [now rewrite <- app_assoc |]. discriminate.
  - eexists _, _. split; [reflexivity | discriminate].
Qed.

Lemma expansion_body_run (w : World) (n : Z) (query : string) (k : Z)
    (t : trace) :
  exists rb evs1,
    (let* paraphrases := generate_paraphrases w n query in
     let* doc_dict :=
       for_each (query :: paraphrases)
         (fun q doc_dict =>
            let* docs := vs_search w q k in
            ret (fold_left count_add docs doc_dict))
         [] in
     ret (map ct_doc
            (slice_to k (sorted_desc Z.ltb ct_count (od_values doc_dict)))))
      t = (rb, t ++ evs1) /\
    (forall docs, rb = Returns docs -> incl docs (yielded evs1)).
Proof.
  destruct (generate_paraphrases_run w n query t)
    as (ps & evs0 & Hgen & Hllm & _).
  destruct (llm_only_quiet evs0 Hllm) as (Hy0 & _ & _).
  set (body := fun (q : string) (doc_dict : odict counted) =>
                 let* docs := vs_search w q k in
                 ret (fold_left count_add docs doc_dict)).
  destruct (search_loop w k (fun q : string => q)
              (fun _ => count_add) body (fun _ _ _ => eq_refl)
              (query :: ps) [] (t ++ evs0))
    as (r1 & evs2 & Hloop & _ & Hr1).
  unfold bind at 1. rewrite Hgen. unfold bind at 1. rewrite Hloop.
  destruct r1 as [doc_dict | e].
  - destruct Hr1 as (_ & _ & docss & Hl & Hy2 & Hd).
    eexists _, (evs0 ++ evs2). split; [unfold ret; now rewrite app_assoc |].
    intros docs [= <-].
    assert (Hm : doc_dict =
                 merge counted_fresh counted_bump (tag (query :: ps) docss)).
    { rewrite Hd. unfold merge. apply fold_left_pointwise.
      intros d [x doc]. simpl. apply count_add_merge. }
    rewrite Hm, yielded_app, Hy0, Hy2. simpl.
    rewrite <- (tag_snd (query :: ps) docss Hl).
    now apply (ranked_docs_incl counted_fresh counted_bump ct_doc).
  - eexists _, (evs0 ++ evs2). split; [now rewrite app_assoc |]. discriminate.
Qed.

Lemma multihop_body_run (w : World) (n : Z) (query : string) (k : Z)
    (t : trace) :
  exists rb evs1,
    (let* sub_questions := decompose_question w n query in
     let* doc_dict :=
       for_each (enumerate sub_questions)
         (fun '(i, sub_q) doc_dict =>
            let* docs := vs_search w sub_q k in
            ret (fold_left (hop_add i) docs doc_dict))
         [] in
     ret (map hp_doc
            (slice_to k
               (sorted_desc Nat.ltb (fun e => length (hp_hops e))
                  (od_values doc_dict)))))
      t = (rb, t ++ evs1) /\
    (forall docs, rb = Returns docs -> incl docs (yielded evs1)).
Proof.
  destruct (decompose_question_run w n query t) as (qs & evs0 & Hdec & Hllm).
  destruct (llm_only_quiet evs0 Hllm) as (Hy0 & _ & _).
  set (body := fun '(i, sub_q) (doc_dict : odict hopped) =>
                 let* docs := vs_search w sub_q k in
                 ret (fold_left (hop_add i) docs doc_dict)).
  destruct (search_loop w k (fun x : nat * string => snd x)
              (fun x => hop_add (fst x)) body
              (fun x d t' => match x with (i, sub_q) => eq_refl end)
              (enumerate qs) [] (t ++ evs0))
    as (r1 & evs2 & Hloop & _ & Hr1).
  unfold bind at 1. rewrite Hdec. fold body. unfold bind at 1. rewrite Hloop.
  destruct r1 as [doc_dict | e].
  - destruct Hr1 as (_ & _ & docss & Hl & Hy2 & Hd).
    eexists _, (evs0 ++ evs2). split; [unfold ret; now rewrite app_assoc |].
    intros docs [= <-].
    assert (Hm : doc_dict =
                 merge hopped_fresh hopped_bump (tag (enumerate qs) docss)).
    { rewrite Hd. unfold merge. apply fold_left_pointwise.
      intros d [x doc]. simpl. apply hop_add_merge. }
    rewrite Hm, yielded_app, Hy0, Hy2. simpl.
    rewrite <- (tag_snd (enumerate qs) docss Hl).
    now apply (ranked_docs_incl hopped_fresh hopped_bump hp_doc).
  - eexists _, (evs0 ++ evs2). split; [now rewrite app_assoc |]. discriminate.
Qed.

Lemma rerank_body_run (w : World) (rerank_top_k : Z) (query : string) (k : Z)
    (t : trace) :
  exists rb evs1,
    (let* initial_docs := vs_search w query rerank_top_k in
     match initial_docs with
     | [] => ret []
     | _ =>
         let* scored_docs :=
           for_each initial_docs
             (fun doc scored_docs =>
                let* score := score_relevance w query doc in
                ret (scored_docs ++ [(doc, score)]))
             [] in
         let scored_docs := sorted_desc PrimFloat.ltb snd scored_docs in
         ret (map fst (slice_to k scored_docs))
     end) t = (rb, t ++ evs1) /\
    (forall docs, rb = Returns docs -> incl docs (yielded evs1)).
Proof.
  unfold bind at 1, vs_search at 1.
  destruct (similarity_search w t query rerank_top_k) as [pool | e].
  - destruct pool as [| doc pool].
    + eexists _, _. split; [reflexivity |]. intros docs [= <-] d [].
    + destruct (scoring_loop w query (doc :: pool) []
                  (t ++ [EvSearch query rerank_top_k (Returns (doc :: pool))]))
        as (scores & evs & Hloop & Hlen & Hllm & _).
      destruct (llm_only_quiet evs Hllm) as (Hy & _ & _).
      cbv beta iota. unfold bind at 1. rewrite Hloop. unfold ret.
      eexists _, (EvSearch query rerank_top_k (Returns (doc :: pool)) :: evs).
      split; [simpl app; now rewrite <- app_assoc |].
      intros docs [= <-] d Hd.
      apply in_map_iff in Hd as ([d' s] & <- & Hd).
      apply slice_to_incl, sorted_desc_In in Hd.
      apply (in_combine_l (doc :: pool) scores) in Hd.
      change (EvSearch query rerank_top_k (Returns (doc :: pool)) :: evs)
        with ([EvSearch query rerank_top_k (Returns (doc :: pool))] ++ evs).
      rewrite yielded_app, yielded_search, Hy, app_nil_r. exact Hd.
  - eexists _, _. split; [reflexivity | discriminate].
Qed.

Lemma extract_filters_total (w : World) (metadata_fields : list string)
    (query : string) (t : trace) :
  exists filters evs,
    extract_filters w metadata_fields query t = (Returns filters, t ++ evs) /\
    llm_only evs.
Proof.
  destruct (llm w) as [client |] eqn:Hc.
  - rewrite (extract_filters_run w metadata_fields query t client Hc).
    eexists _, _. split; reflexivity.
  - unfold extract_filters. rewrite Hc. exists (JObj []), [].
    now rewrite app_nil_r.
Qed.

Lemma filter_docs_incl (filters : json) (docs filtered_docs kept : list Document) :
  filter_docs filters docs filtered_docs = Returns kept ->
  incl kept (filtered_docs ++ docs).
Proof.
  revert filtered_docs. induction docs as [| doc docs IH]; intros acc; simpl.
  - intros [= <-]. rewrite app_nil_r. apply incl_refl.
  - destruct filters; try discriminate. intros H. apply IH in H.
    intros d Hd. apply H in Hd.
    destruct (filter_match fields doc).
    + rewrite <- app_assoc in Hd. exact Hd.
    + apply in_app_or in Hd as [Hd | Hd]; apply in_or_app;
        [now left | right; now right].
Qed.

Lemma self_query_body_run (w : World) (metadata_fields : list string)
    (query : string) (k : Z) (t : trace) :
  exists rb evs1,
    (let* filters := extract_filters w metadata_fields query in
     let* docs := vs_search w query k in
     let* docs :=
       if truthy filters then
         let* filtered_docs := lift (filter_docs filters docs []) in
         ret (match filtered_docs with [] => docs | _ => filtered_docs end)
       else ret docs in
     ret (slice_to k docs)) t = (rb, t ++ evs1) /\
    (forall docs, rb = Returns docs -> incl docs (yielded evs1)).
Proof.
  destruct (extract_filters_total w metadata_fields query t)
    as (filters & evs0 & Hext & Hllm).
  destruct (llm_only_quiet evs0 Hllm) as (Hy0 & _ & _).
  unfold bind at 1. rewrite Hext. unfold bind at 1, vs_search at 1.
  destruct (similarity_search w (t ++ evs0) query k) as [found | e].
  - assert (Hy : yielded (evs0 ++ [EvSearch query k (Returns found)]) = found)
      by now rewrite yielded_app, Hy0, yielded_search.
    destruct (truthy filters).
    + unfold bind, lift, ret.
      destruct (filter_docs filters found []) as [kept | e] eqn:Ef.
      * eexists _, _. split; [now rewrite <- app_assoc |].
        intros docs [= <-]. rewrite Hy. intros d Hd.
        apply slice_to_incl in Hd. apply filter_docs_incl in Ef.
        destruct kept; [exact Hd | now apply Ef in Hd].
      * eexists _, _. split; [now rewrite <- app_assoc |]. discriminate.
    + unfold bind, ret. eexists _, _. split; [now rewrite <- app_assoc |].
      intros docs [= <-]. rewrite Hy. intros d Hd.
      eapply slice_to_incl. exact Hd.
  - eexists _, _. split; [now rewrite <- app_assoc |]. discriminate.
Qed.

(** The run of any strategy: the trace grows; what is returned was yielded
    by an index call of the run; what is raised is the failure of a last
    [similarity_search(query, k)]. *)
Lemma retrieve_run_sound (w : World) (s : Strategy) (query : string) (k : Z)
    (t : trace) :
  exists r evs,
    retrieve w s query k t = (r, t ++ evs) /\
    match r with
    | Returns docs => incl docs (yielded evs)
    | Raises e =>
        s <> SemanticRetriever /\
        exists evs0,
          evs = evs0 ++ [EvSearch query k (Raises e)] /\
          similarity_search w (t ++ evs0) query k = Raises e
    end.
Proof.
  assert (Hlift : forall body,
            (exists rb evs1,
               body t = (rb, t ++ evs1) /\
               (forall docs, rb = Returns docs -> incl docs (yielded evs1))) ->
            s <> SemanticRetriever ->
            exists r evs,
              try_except body (fun _ => vs_search w query k) t = (r, t ++ evs) /\
              match r with
              | Returns docs => incl docs (yielded evs)
              | Raises e =>
                  s <> SemanticRetriever /\
                  exists evs0,
                    evs = evs0 ++ [EvSearch query k (Raises e)] /\
                    similarity_search w (t ++ evs0) query k = Raises e
              end).
  { intros body (rb & evs1 & Hb & Hin) Hs.
    destruct (fallback_sound w body query k t rb evs1 Hb Hin)
      as (r & evs & Hrun & Hr).
    exists r, evs. split; [exact Hrun |]. destruct r; [exact Hr | now split]. }
  destruct s as [| sw kw [bm25 |] | n | n | fields | n]; simpl.
  - rewrite semantic_retrieve_run.
    destruct (similarity_search w t query k) as [docs | e];
      eexists _, _; (split; [reflexivity |]).
    + rewrite yielded_search. apply incl_refl.
    + intros d [].
  - apply Hlift; [apply hybrid_body_run | discriminate].
  - apply Hlift; [| discriminate]. unfold vs_search.
    destruct (similarity_search w t query k) as [docs | e];
      eexists _, _; (split; [reflexivity |]).
    + intros l [= <-]. rewrite yielded_search. apply incl_refl.
    + discriminate.
  - apply Hlift; [apply expansion_body_run | discriminate].
  - apply Hlift; [apply rerank_body_run | discriminate].
  - apply Hlift; [apply self_query_body_run | discriminate].
  - apply Hlift; [apply multihop_body_run | discriminate].
Qed.

(** X1: a strategy only returns passages that an index call of the same
    retrieval returned, and it only adds events to the trace. *)
Theorem retrieve_returns_only_yielded (w : World) (s : Strategy)
    (query : string) (k : Z) (t t' : trace) (docs : list Document) :
  retrieve w s query k t = (Returns docs, t') ->
  exists evs,
    t' = t ++ evs /\ forall doc, In doc docs -> In doc (yielded evs).
Proof.
  intros H. destruct (retrieve_run_sound w s query k t) as (r & evs & Hrun & Hr).
  rewrite Hrun in H. injection H as -> <-. now exists evs.
Qed.

Lemma retrieve_returns_only_yielded_witness :
  exists evs,
    snd (retrieve (type_filter_world [manual_1; report_1; report_2])
           (SelfQueryRetriever ["source"; "page"; "type"; "date"])
           "manuals" 3 []) = [] ++ evs /\
    forall doc, In doc [manual_1] -> In doc (yielded evs).
Proof.
  apply (retrieve_returns_only_yielded
           (type_filter_world [manual_1; report_1; report_2])
           (SelfQueryRetriever ["source"; "page"; "type"; "date"])
           "manuals" 3 []).
  vm_compute. reflexivity.
Defined.

(** X2: the Semantic strategy never raises; any other strategy raises only
    the exception of a last [similarity_search(query, k)], the fallback
    call of its handler, which is then the last event of the trace. *)
Theorem retrieve_raises_only_from_fallback (w : World) (s : Strategy)
    (query : string) (k : Z) (t t' : trace) (e : exn) :
  retrieve w s query k t = (Raises e, t') ->
  s <> SemanticRetriever /\
  exists evs0,
    t' = t ++ evs0 ++ [EvSearch query k (Raises e)] /\
    similarity_search w (t ++ evs0) query k = Raises e.
Proof.
  intros H. destruct (retrieve_run_sound w s query k t) as (r & evs & Hrun & Hr).
  rewrite Hrun in H. injection H as -> <-.
  destruct Hr as (Hs & evs0 & -> & Hf). split; [exact Hs |]. now exists evs0.
Qed.

Lemma retrieve_raises_only_from_fallback_witness :
  MultiHopRetriever 3 <> SemanticRetriever /\
  exists evs0,
    [EvSearch "q" 3 (Raises index_down); EvSearch "q" 3 (Raises index_down)] =
      [] ++ evs0 ++ [EvSearch "q" 3 (Raises index_down)] /\
    similarity_search offline ([] ++ evs0) "q" 3 = Raises index_down.
Proof.
  apply (retrieve_raises_only_from_fallback offline (MultiHopRetriever 3)
           "q" 3 [] _ index_down).
  reflexivity.
Defined.

(* ================================================================== *)
(** ** The order and the fingerprints of a merged result *)

Lemma take_NoDup {A : Type} (n : nat) (l : list A) :
  List.NoDup l -> List.NoDup (take n l).
Proof.
  intros H. revert n. induction H as [| x l Hx Hl IH]; intros [| n]; simpl;
    try constructor.
  - intros Hin. apply Hx. eapply take_In. exact Hin.
  - apply IH.
Qed.

Lemma slice_to_NoDup {A : Type} (k : Z) (l : list A) :
  List.NoDup l -> List.NoDup (slice_to k l).
Proof. unfold slice_to. destruct (0 <=? k)%Z; apply take_NoDup. Qed.

Lemma values_fingerprints {E : Type} (doc_of : E -> Document) (d : odict E) :
  (forall key e, In (key, e) d -> fingerprint (doc_of e) = key) ->
  map (fun e => fingerprint (doc_of e)) (od_values d) = map fst d.
Proof.
  unfold od_values. induction d as [| [key e] d IH]; intros H; simpl;
    [reflexivity |].
  rewrite (H key e) by now left. f_equal. apply IH.
  intros key' e' Hin. apply H. now right.
Qed.

Section RankedOrder.
Context {X E K : Type} (fresh : X -> Document -> E) (bump : X -> E -> E)
  (doc_of : E -> Document) (ltb : K -> K -> bool) (key : E -> K).
Hypothesis doc_of_fresh : forall x doc, doc_of (fresh x doc) = doc.
Hypothesis doc_of_bump : forall x e, doc_of (bump x e) = doc_of e.

(** Two returned passages never share a fingerprint. *)
Lemma ranked_docs_NoDup (k : Z) (items : list (X * Document)) :
  List.NoDup
    (map fingerprint (ranked_docs ltb key doc_of k (merge fresh bump items))).
Proof.
  unfold ranked_docs. rewrite map_map, slice_to_map. apply slice_to_NoDup.
  eapply Stdlib.Sorting.Permutation.Permutation_NoDup.
  - apply Permutation_map. symmetry. apply sorted_desc_perm.
  - rewrite (values_fingerprints doc_of).
    + apply merge_keys_NoDup.
    + intros key' e Hin.
      now apply (merge_first_discovered fresh bump doc_of doc_of_fresh
                   doc_of_bump items key' e).
Qed.

Hypothesis ltb_irrefl : forall a, ltb a a = false.
Hypothesis ltb_asym : forall a b, ltb a b = true -> ltb b a = false.
Hypothesis ltb_negtrans :
  forall a b c, ltb a b = false -> ltb b c = false -> ltb a c = false.

(** An entry with a strictly greater key comes first. *)
Lemma ranked_docs_order (k : Z) (items : list (X * Document)) (i j : nat)
    (c p : Document) :
  ranked_docs ltb key doc_of k (merge fresh bump items) !! i = Some c ->
  ranked_docs ltb key doc_of k (merge fresh bump items) !! j = Some p ->
  exists ec ep,
    In (fingerprint c, ec) (merge fresh bump items) /\
    In (fingerprint p, ep) (merge fresh bump items) /\
    (ltb (key ep) (key ec) = true -> i < j).
Proof.
  unfold ranked_docs. intros Hi Hj.
  apply lookup_map_Some in Hi as (ec & Hi & <-).
  apply lookup_map_Some in Hj as (ep & Hj & <-).
  apply lookup_slice_to in Hi, Hj.
  assert (Hent : forall n e,
            sorted_desc ltb key (od_values (merge fresh bump items)) !! n =
              Some e ->
            In (fingerprint (doc_of e), e) (merge fresh bump items)).
  { intros n e Hn.
    assert (He : In e (sorted_desc ltb key (od_values (merge fresh bump items))))
      by (apply list_elem_of_In; eapply list_elem_of_lookup_2; exact Hn).
    apply sorted_desc_In, In_values in He as [key' He].
    destruct (merge_first_discovered fresh bump doc_of doc_of_fresh
                doc_of_bump items key' e He) as [-> _].
    exact He. }
  exists ec, ep. split; [eapply Hent; exact Hi |].
  split; [eapply Hent; exact Hj |]. intros Hlt.
  apply (StronglySorted_before (not_below ltb key)
           (sorted_desc ltb key (od_values (merge fresh bump items)))
           i j ec ep
           (sorted_desc_sorted ltb key ltb_asym ltb_negtrans
              (od_values (merge fresh bump items)))).
  - intros x. apply ltb_irrefl.
  - exact Hi.
  - exact Hj.
  - unfold not_below. now rewrite Hlt.
Qed.
End RankedOrder.

Lemma Zltb_asym (a b : Z) : Z.ltb a b = true -> Z.ltb b a = false.
Proof. rewrite Z.ltb_lt, Z.ltb_ge. lia. Qed.

Lemma Zltb_negtrans (a b c : Z) :
  Z.ltb a b = false -> Z.ltb b c = false -> Z.ltb a c = false.
Proof. rewrite !Z.ltb_ge. lia. Qed.

Lemma Nltb_asym (a b : nat) : Nat.ltb a b = true -> Nat.ltb b a = false.
Proof. rewrite Nat.ltb_lt, Nat.ltb_ge. lia. Qed.

Lemma Nltb_negtrans (a b c : nat) :
  Nat.ltb a b = false -> Nat.ltb b c = false -> Nat.ltb a c = false.
Proof. rewrite !Nat.ltb_ge. lia. Qed.

(** X3: on its merging path (no index call failed) a merging strategy
    never returns two passages with the same fingerprint. *)
Theorem merged_result_has_distinct_fingerprints (w : World) (s : Strategy)
    (query : string) (k : Z) (t evs : trace) (docs : list Document) :
  is_merging s = true ->
  retrieve w s query k t = (Returns docs, t ++ evs) ->
  no_index_failure evs = true ->
  List.NoDup (map fingerprint docs).
Proof.
  intros Hm Hrun Hok.
  destruct s as [| sw kw [bm25 |] | n | n | fields | n]; try discriminate Hm;
    simpl in Hrun.
  - destruct (hybrid_run w sw kw bm25 query k t) as (r & evs' & Hrun' & Hspec).
    destruct (run_result _ _ _ _ _ _ Hrun Hrun') as [<- <-].
    destruct (Hspec Hok) as (sem & found & _ & _ & _ & [= ->]).
    now apply ranked_docs_NoDup.
  - destruct (expansion_run w n query k t) as (r & evs' & Hrun' & Hspec & _).
    destruct (run_result _ _ _ _ _ _ Hrun Hrun') as [<- <-].
    destruct (Hspec Hok) as (items & _ & [= ->]).
    now apply ranked_docs_NoDup.
  - destruct (multihop_run w n query k t) as (r & evs' & Hrun' & Hspec).
    destruct (run_result _ _ _ _ _ _ Hrun Hrun') as [<- <-].
    destruct (Hspec Hok) as (items & _ & [= ->]).
    now apply ranked_docs_NoDup.
Qed.

Lemma merged_result_has_distinct_fingerprints_witness :
  List.NoDup (map fingerprint [doc_a; doc_b]).
Proof.
  apply (merged_result_has_distinct_fingerprints
           (fixed_index [doc_a; doc_a'; doc_b])
           (SemanticQueryExpansionRetriever 3) "q" 3 []
           [EvSearch "q" 3 (Returns [doc_a; doc_a'; doc_b]);
            EvSearch "q" 3 (Returns [doc_a; doc_a'; doc_b])]);
    vm_compute; reflexivity.
Defined.

(** X4: Query Expansion ranks by how often a fingerprint was found: on the
    merging path a passage whose fingerprint was found more often over all
    query variants comes before one found less often. *)
Theorem expansion_ranks_by_occurrences (w : World) (n : Z) (query : string)
    (k : Z) (t evs : trace) (docs : list Document) (i j : nat)
    (c p : Document) :
  retrieve w (SemanticQueryExpansionRetriever n) query k t =
    (Returns docs, t ++ evs) ->
  no_index_failure evs = true ->
  docs !! i = Some c -> docs !! j = Some p ->
  occurrences (fingerprint p) (yielded evs) <
  occurrences (fingerprint c) (yielded evs) ->
  i < j.
Proof.
  intros Hrun Hok Hi Hj Hlt. simpl in Hrun.
  destruct (expansion_run w n query k t) as (r & evs' & Hrun' & Hspec & _).
  destruct (run_result _ _ _ _ _ _ Hrun Hrun') as [<- <-].
  destruct (Hspec Hok) as (items & Hsnd & [= ->]).
  destruct (ranked_docs_order counted_fresh counted_bump ct_doc Z.ltb ct_count
              (fun _ _ => eq_refl) (fun _ _ => eq_refl)
              Z.ltb_irrefl Zltb_asym Zltb_negtrans k items i j c p Hi Hj)
    as (ec & ep & Hc & Hp & Hord).
  apply Hord. apply Z.ltb_lt.
  rewrite (counted_entry items _ ep Hp), (counted_entry items _ ec Hc), Hsnd.
  lia.
Qed.

(** X5: Multi-Hop ranks by the length of the hop list, which gets one item
    per passage found and not one per hop: on the merging path a passage
    whose fingerprint was carried by more of the passages found, counted
    over all sub-questions, comes before one whose fingerprint was carried
    by fewer. *)
Theorem multihop_ranks_by_passages_found (w : World) (n : Z) (query : string)
    (k : Z) (t evs : trace) (docs : list Document) (i j : nat)
    (c p : Document) :
  retrieve w (MultiHopRetriever n) query k t = (Returns docs, t ++ evs) ->
  no_index_failure evs = true ->
  docs !! i = Some c -> docs !! j = Some p ->
  occurrences (fingerprint p) (yielded evs) <
  occurrences (fingerprint c) (yielded evs) ->
  i < j.
Proof.
  intros Hrun Hok Hi Hj Hlt. simpl in Hrun.
  destruct (multihop_run w n query k t) as (r & evs' & Hrun' & Hspec).
  destruct (run_result _ _ _ _ _ _ Hrun Hrun') as [<- <-].
  destruct (Hspec Hok) as (items & Hsnd & [= ->]).
  destruct (ranked_docs_order hopped_fresh hopped_bump hp_doc Nat.ltb
              (fun e => length (hp_hops e))
              (fun _ _ => eq_refl) (fun _ _ => eq_refl)
              Nat.ltb_irrefl Nltb_asym Nltb_negtrans k items i j c p Hi Hj)
    as (ec & ep & Hc & Hp & Hord).
  apply Hord. apply Nat.ltb_lt.
  destruct (hopped_entry items _ ep Hp) as [_ ->].
  destruct (hopped_entry items _ ec Hc) as [_ ->].
  now rewrite Hsnd.
Qed.

Lemma expansion_ranks_by_occurrences_witness :
  fst (retrieve (by_query_world "p") (SemanticQueryExpansionRetriever 3)
         "q" 3 []) = Returns [doc_c; doc_b] /\ 0 < 1.
Proof.
  split; [vm_compute; reflexivity |].
  apply (expansion_ranks_by_occurrences (by_query_world "p") 3 "q" 3 []
           (snd (retrieve (by_query_world "p")
                   (SemanticQueryExpansionRetriever 3) "q" 3 []))
           [doc_c; doc_b] 0 1 doc_c doc_b);
    vm_compute; try reflexivity; lia.
Defined.

Lemma multihop_ranks_by_passages_found_witness :
  fst (retrieve (by_query_world ("q" +:+ nl +:+ "p")) (MultiHopRetriever 3)
         "q" 3 []) = Returns [doc_c; doc_b] /\ 0 < 1.
Proof.
  split; [vm_compute; reflexivity |].
  apply (multihop_ranks_by_passages_found (by_query_world ("q" +:+ nl +:+ "p")) 3 "q" 3 []
           (snd (retrieve (by_query_world ("q" +:+ nl +:+ "p"))
                   (MultiHopRetriever 3) "q" 3 []))
           [doc_c; doc_b] 0 1 doc_c doc_b);
    vm_compute; try reflexivity; lia.
Defined.

(** Three colliding passages found in one hop give their fingerprint three
    items in the hop list: it comes before a passage found in two hops. *)
Lemma multihop_counts_passages_not_hops :
  map (fun e => (hp_doc e, hp_hops e))
    (od_values (hop_merge (by_hop (snd (retrieve colliding_world
                                          (MultiHopRetriever 3) "q" 4 []))))) =
    [(doc_a, [0; 0; 0]); (doc_b, [0; 1])] /\
  fst (retrieve colliding_world (MultiHopRetriever 3) "q" 4 []) =
    Returns [doc_a; doc_b].
Proof. split; vm_compute; reflexivity. Qed.

(* ================================================================== *)
(** ** Lines of a model answer *)

Lemma drop_spaces_idem (l : list ascii) :
  drop_spaces (drop_spaces l) = drop_spaces l.
Proof.
  induction l as [| c l IH]; simpl; [reflexivity |].
  destruct (is_space c) eqn:E; [exact IH | simpl; now rewrite E].
Qed.

Lemma drop_spaces_head (l : list ascii) (c : ascii) (r : list ascii) :
  drop_spaces l = c :: r -> is_space c = false.
Proof.
  induction l as [| x l IH]; simpl; [discriminate |].
  destruct (is_space x) eqn:E; [exact IH | now intros [= <- _]].
Qed.

Lemma drop_spaces_split (l : list ascii) :
  exists sp, l = sp ++ drop_spaces l.
Proof.
  induction l as [| c l [sp IH]]; simpl; [now exists [] |].
  destruct (is_space c).
  - exists (c :: sp). simpl. now rewrite <- IH.
  - now exists [].
Qed.

(** Trimming both ends twice is trimming once. *)
Lemma trim_idem (l : list ascii) :
  rev (drop_spaces (rev (drop_spaces
    (rev (drop_spaces (rev (drop_spaces l))))))) =
  rev (drop_spaces (rev (drop_spaces l))).
Proof.
  set (a := drop_spaces l). set (b := drop_spaces (rev a)).
  assert (Hb : drop_spaces b = b) by apply drop_spaces_idem.
  assert (Hr : drop_spaces (rev b) = rev b).
  { destruct (rev b) as [| h tl] eqn:E; [reflexivity |].
    destruct (drop_spaces_split (rev a)) as [sp Hsp]. fold b in Hsp.
    assert (Ha : a = h :: tl ++ rev sp).
    { rewrite <- (rev_involutive a), Hsp, rev_app_distr, E. reflexivity. }
    assert (Hh : is_space h = false)
      by (eapply (drop_spaces_head l); fold a; exact Ha).
    simpl. now rewrite Hh. }
  now rewrite Hr, rev_involutive, Hb.
Qed.

Lemma strip_idem (s : string) : strip (strip s) = strip s.
Proof.
  unfold strip. rewrite list_ascii_of_string_of_list_ascii.
  f_equal. apply trim_idem.
Qed.

Lemma stripped_lines_clean (content : string) :
  Forall clean_line (stripped_lines content).
Proof.
  unfold stripped_lines.
  induction (split_lines (strip content)) as [| p l IH]; [constructor |].
  rewrite filter_cons. destruct (decide (nonempty (strip p) = true)) as [H | H];
    [| exact IH].
  simpl. constructor; [| exact IH]. split; [| apply strip_idem].
  intros E. rewrite E in H. discriminate H.
Qed.

Lemma slice_to_Forall {A : Type} (P : A -> Prop) (k : Z) (l : list A) :
  Forall P l -> Forall P (slice_to k l).
Proof.
  rewrite !List.Forall_forall. intros H x Hx. apply H.
  eapply slice_to_incl. exact Hx.
Qed.

Lemma stripped_lines_from (content : string) :
  Forall (fun p => exists line,
            In line (split_lines (strip content)) /\ p = strip line)
    (stripped_lines content).
Proof.
  unfold stripped_lines. apply List.Forall_forall. intros p Hp.
  apply in_map_iff in Hp as (line & <- & Hl).
  apply list_elem_of_In, list_elem_of_filter in Hl as [_ Hl].
  exists line. split; [now apply list_elem_of_In | reflexivity].
Qed.

(** X6: [_generate_paraphrases] never raises.  Without a model it returns
    the original query alone and calls nothing; with a model it sends the
    paraphrase prompt once, and returns the original query alone when the
    call raises, and otherwise the first [expansion_count] stripped
    non-empty lines of the answer, in the order of the answer: possibly
    none at all, and at most [expansion_count] unless that is negative. *)
Theorem paraphrases_are_clean_lines (w : World) (n : Z) (query : string)
    (t : trace) :
  exists ps evs,
    generate_paraphrases w n query t = (Returns ps, t ++ evs) /\
    match llm w with
    | None => ps = [query] /\ evs = []
    | Some client =>
        evs = [EvLlm (paraphrase_prompt n query)
                 (client t (paraphrase_prompt n query))] /\
        match client t (paraphrase_prompt n query) with
        | Raises _ => ps = [query]
        | Returns content =>
            ps = slice_to n (stripped_lines content) /\
            Forall clean_line ps /\
            Forall (fun p => exists line,
                      In line (split_lines (strip content)) /\ p = strip line)
              ps /\
            ((n < 0)%Z \/ (Z.of_nat (length ps) <= n)%Z)
        end
    end.
Proof.
  unfold generate_paraphrases. destruct (llm w) as [client |].
  - rewrite llm_call_caught. eexists _, _. split; [reflexivity |].
    split; [reflexivity |].
    destruct (client t (paraphrase_prompt n query)) as [content | e];
      [| reflexivity].
    split; [reflexivity |].
    split; [apply slice_to_Forall, stripped_lines_clean |].
    split; [apply slice_to_Forall, stripped_lines_from |].
    destruct (Z_lt_le_dec n 0) as [Hn | Hn]; [now left | right].
    now apply slice_to_bound.
  - exists [query], []. rewrite app_nil_r. repeat split.
Qed.

(** X7: [_decompose_question] never raises and never returns an empty
    list.  Without a model it returns the original query alone and calls
    nothing; with a model it sends the decomposition prompt once, and
    returns the original query alone when the call raises or when the
    first [max_hops] stripped non-empty lines of the answer are none, and
    those lines, in the order of the answer, otherwise. *)
Theorem sub_questions_are_clean_lines (w : World) (n : Z) (query : string)
    (t : trace) :
  exists qs evs,
    decompose_question w n query t = (Returns qs, t ++ evs) /\
    qs <> [] /\
    match llm w with
    | None => qs = [query] /\ evs = []
    | Some client =>
        evs = [EvLlm (decompose_prompt n query)
                 (client t (decompose_prompt n query))] /\
        match client t (decompose_prompt n query) with
        | Raises _ => qs = [query]
        | Returns content =>
            (slice_to n (stripped_lines content) = [] /\ qs = [query]) \/
            (qs = slice_to n (stripped_lines content) /\
             Forall clean_line qs /\
             Forall (fun q => exists line,
                       In line (split_lines (strip content)) /\
                       q = strip line)
               qs /\
             ((n < 0)%Z \/ (Z.of_nat (length qs) <= n)%Z))
        end
    end.
Proof.
  unfold decompose_question. destruct (llm w) as [client |].
  - rewrite (llm_call_caught client _
               (fun content =>
                  match slice_to n (stripped_lines content) with
                  | [] => [query]
                  | _ => slice_to n (stripped_lines content)
                  end)).
    eexists _, _. split; [reflexivity |].
    destruct (client t (decompose_prompt n query)) as [content | e];
      [| split; [discriminate | split; reflexivity]].
    destruct (slice_to n (stripped_lines content)) as [| q0 qs] eqn:E;
      [split; [discriminate | split; [reflexivity | now left]] |].
    split; [discriminate |]. split; [reflexivity |]. right.
    split; [reflexivity |]. rewrite <- E.
    split; [apply slice_to_Forall, stripped_lines_clean |].
    split; [apply slice_to_Forall, stripped_lines_from |].
    destruct (Z_lt_le_dec n 0) as [Hn | Hn]; [now left | right].
    now apply slice_to_bound.
  - exists [query], []. rewrite app_nil_r. repeat split. discriminate.
Qed.

(* ================================================================== *)
(** ** How many searches a merging strategy issues *)

Lemma map_snd_enumerate {A : Type} (l : list A) : map snd (enumerate l) = l.
Proof.
  unfold enumerate. generalize 0.
  induction l as [| x l IH]; intros n; simpl; [reflexivity |].
  now rewrite IH.
Qed.

(** X8: on its merging path Query Expansion issues exactly one similarity
    search per query variant, of size [k], in this order: the original
    query, then each paraphrase [_generate_paraphrases] returned. *)
Theorem expansion_searches_each_variant (w : World) (n : Z) (query : string)
    (k : Z) (t evs : trace) (docs : list Document) :
  retrieve w (SemanticQueryExpansionRetriever n) query k t =
    (Returns docs, t ++ evs) ->
  no_index_failure evs = true ->
  exists ps,
    fst (generate_paraphrases w n query t) = Returns ps /\
    searches evs = map (fun q => (q, k)) (query :: ps).
Proof.
  intros Hrun Hok.
  destruct (generate_paraphrases_run w n query t)
    as (ps & evs0 & Hgen & Hllm & _).
  destruct (llm_only_quiet evs0 Hllm) as (_ & Hs0 & Hf0).
  destruct (search_loop w k (fun q : string => q) (fun _ => count_add)
              (fun (q : string) (doc_dict : odict counted) =>
                 let* docs := vs_search w q k in
                 ret (fold_left count_add docs doc_dict))
              (fun _ _ _ => eq_refl) (query :: ps) [] (t ++ evs0))
    as (r1 & evs2 & Hloop & _ & Hr1).
  exists ps. split; [now rewrite Hgen |].
  simpl in Hrun. unfold expansion_retrieve, try_except, bind at 1 in Hrun.
  rewrite Hgen in Hrun. unfold bind at 1 in Hrun. rewrite Hloop in Hrun.
  destruct r1 as [doc_dict | e].
  - destruct Hr1 as (_ & Hsr & _).
    unfold ret in Hrun. rewrite <- app_assoc in Hrun.
    injection Hrun as _ He. apply app_inv_head in He. subst evs.
    now rewrite searches_app, Hs0, Hsr.
  - unfold vs_search in Hrun. rewrite <- !app_assoc in Hrun.
    injection Hrun as _ He. apply app_inv_head in He. subst evs.
    rewrite !no_index_failure_app, Hr1, andb_false_r in Hok. discriminate.
Qed.

Lemma expansion_searches_each_variant_witness :
  exists ps,
    fst (generate_paraphrases (by_query_world "p") 3 "q" []) = Returns ps /\
    searches (snd (retrieve (by_query_world "p")
                     (SemanticQueryExpansionRetriever 3) "q" 3 [])) =
    map (fun q => (q, 3%Z)) ("q" :: ps).
Proof.
  apply (expansion_searches_each_variant (by_query_world "p") 3 "q" 3 []
           (snd (retrieve (by_query_world "p")
                   (SemanticQueryExpansionRetriever 3) "q" 3 []))
           [doc_c; doc_b]); vm_compute; reflexivity.
Defined.

(** X9: on its merging path Multi-Hop issues exactly one similarity search
    per sub-question [_decompose_question] returned, of size [k], in
    order; the original query is searched only if it is a sub-question. *)
Theorem multihop_searches_each_sub_question (w : World) (n : Z)
    (query : string) (k : Z) (t evs : trace) (docs : list Document) :
  retrieve w (MultiHopRetriever n) query k t = (Returns docs, t ++ evs) ->
  no_index_failure evs = true ->
  exists qs,
    fst (decompose_question w n query t) = Returns qs /\
    searches evs = map (fun q => (q, k)) qs.
Proof.
  intros Hrun Hok.
  destruct (decompose_question_run w n query t) as (qs & evs0 & Hdec & Hllm).
  destruct (llm_only_quiet evs0 Hllm) as (_ & Hs0 & Hf0).
  destruct (search_loop w k (fun x : nat * string => snd x)
              (fun x => hop_add (fst x))
              (fun '(i, sub_q) (doc_dict : odict hopped) =>
                 let* docs := vs_search w sub_q k in
                 ret (fold_left (hop_add i) docs doc_dict))
              (fun x d t' => match x with (i, sub_q) => eq_refl end)
              (enumerate qs) [] (t ++ evs0))
    as (r1 & evs2 & Hloop & _ & Hr1).
  exists qs. split; [now rewrite Hdec |].
  simpl in Hrun. unfold multihop_retrieve, try_except, bind at 1 in Hrun.
  rewrite Hdec in Hrun. unfold bind at 1 in Hrun. rewrite Hloop in Hrun.
  destruct r1 as [doc_dict | e].
  - destruct Hr1 as (_ & Hsr & _).
    unfold ret in Hrun. rewrite <- app_assoc in Hrun.
    injection Hrun as _ He. apply app_inv_head in He. subst evs.
    rewrite searches_app, Hs0, Hsr. simpl.
    rewrite <- (map_snd_enumerate qs) at 2. now rewrite map_map.
  - unfold vs_search in Hrun. rewrite <- !app_assoc in Hrun.
    injection Hrun as _ He. apply app_inv_head in He. subst evs.
    rewrite !no_index_failure_app, Hr1, andb_false_r in Hok. discriminate.
Qed.

Lemma multihop_searches_each_sub_question_witness :
  exists qs,
    fst (decompose_question (by_query_world ("q" +:+ nl +:+ "p")) 3 "q" []) =
      Returns qs /\
    searches (snd (retrieve (by_query_world ("q" +:+ nl +:+ "p"))
                     (MultiHopRetriever 3) "q" 3 [])) =
    map (fun q => (q, 3%Z)) qs.
Proof.
  apply (multihop_searches_each_sub_question
           (by_query_world ("q" +:+ nl +:+ "p")) 3 "q" 3 []
           (snd (retrieve (by_query_world ("q" +:+ nl +:+ "p"))
                   (MultiHopRetriever 3) "q" 3 []))
           [doc_c; doc_b]); vm_compute; reflexivity.
Defined.

(* ================================================================== *)
(** ** Multi-Hop with a single sub-question *)

Lemma hop_fold_merge (i : nat) (found : list Document) (d : odict hopped) :
  fold_left (hop_add i) found d =
  fold_left (merge_add hopped_fresh hopped_bump) (map (pair (i, tt)) found) d.
Proof.
  revert d. induction found as [| doc found IH]; intros d; simpl;
    [reflexivity |].
  now rewrite <- IH, <- (hop_add_merge (i, tt)).
Qed.

(** One answer without collisions: every entry has one hop and the answer
    keeps its order. *)
Lemma ranked_once (i : nat) (k : Z) (docs : list Document) :
  List.NoDup (map fingerprint docs) ->
  ranked_docs Nat.ltb (fun e => length (hp_hops e)) hp_doc k
    (fold_left (hop_add i) docs []) =
  slice_to k docs.
Proof.
  intros Hnd. rewrite hop_fold_merge.
  fold (merge (@hopped_fresh unit) (@hopped_bump unit) (map (pair (i, tt)) docs)).
  set (items := map (pair (i, tt)) docs).
  assert (Hsnd : map snd items = docs).
  { unfold items. rewrite map_map. simpl. apply map_id. }
  unfold ranked_docs.
  rewrite (sorted_desc_id Nat.ltb (fun e => length (hp_hops e))).
  - rewrite slice_to_map. f_equal.
    destruct (merge_docs (@hopped_fresh unit) (@hopped_bump unit) hp_doc
                (fun _ _ => eq_refl) (fun _ _ => eq_refl) items) as [_ Hd].
    rewrite Hd, Hsnd. now apply first_docs_id.
  - apply (Sorted_tied Nat.ltb (fun e => length (hp_hops e)) 1);
      [reflexivity |].
    intros e He. apply In_values in He as [key He].
    destruct (hopped_entry items key e He) as [_ ->]. rewrite Hsnd.
    apply occurrences_NoDup; [exact Hnd |].
    apply (in_map fst) in He. simpl in He.
    apply merge_keys_In in He. now rewrite <- map_map, Hsnd in He.
Qed.

(** X10: when the decomposition is the original query alone (no model, a
    failed call, an answer without lines), Multi-Hop issues exactly one
    search, and for an answer without fingerprint collisions it returns the
    first [k] passages of that answer, in the index's order. *)
Theorem multihop_single_question (w : World) (n : Z) (query : string)
    (k : Z) (t t1 : trace) (docs : list Document) :
  decompose_question w n query t = (Returns [query], t1) ->
  similarity_search w t1 query k = Returns docs ->
  List.NoDup (map fingerprint docs) ->
  retrieve w (MultiHopRetriever n) query k t =
  (Returns (slice_to k docs), t1 ++ [EvSearch query k (Returns docs)]).
Proof.
  intros Hdec Hs Hnd. simpl.
  unfold multihop_retrieve, try_except, bind at 1. rewrite Hdec.
  simpl for_each. unfold bind, vs_search, ret. rewrite Hs.
  assert (Hr := ranked_once 0 k docs Hnd). unfold ranked_docs in Hr.
  now rewrite Hr.
Qed.

Lemma multihop_single_question_witness :
  retrieve (fixed_index [doc_b; doc_c; doc_d]) (MultiHopRetriever 3) "q" 2 [] =
  (Returns (slice_to 2 [doc_b; doc_c]),
   [] ++ [EvSearch "q" 2 (Returns [doc_b; doc_c])]).
Proof.
  apply (multihop_single_question (fixed_index [doc_b; doc_c; doc_d]) 3 "q" 2
           [] [] [doc_b; doc_c]); [reflexivity | reflexivity |].
  vm_compute. repeat constructor; simpl; intuition discriminate.
Defined.

(* ================================================================== *)
(** ** Self-Query on answers that are not a filter *)

(** X11: when the extracted filter is falsy (no model, a failed call, an
    answer that is not JSON, or an empty object, [null], [0], ...), the
    Self-Query strategy applies no filter: after its single search it
    returns the first [k] passages of the answer. *)
Theorem self_query_without_filter (w : World) (metadata_fields : list string)
    (query : string) (k : Z) (t t1 : trace) (filters : json)
    (docs : list Document) :
  extract_filters w metadata_fields query t = (Returns filters, t1) ->
  truthy filters = false ->
  similarity_search w t1 query k = Returns docs ->
  retrieve w (SelfQueryRetriever metadata_fields) query k t =
  (Returns (slice_to k docs), t1 ++ [EvSearch query k (Returns docs)]).
Proof.
  intros He Ht Hs. simpl.
  unfold self_query_retrieve, try_except, bind at 1. rewrite He.
  unfold bind at 1, vs_search at 1. rewrite Hs, Ht. reflexivity.
Qed.

Lemma self_query_without_filter_witness :
  retrieve (fixed_index [by_alice; by_bob])
    (SelfQueryRetriever ["source"; "page"; "type"; "date"]) "notes" 1 [] =
  (Returns (slice_to 1 [by_alice]),
   [] ++ [EvSearch "notes" 1 (Returns [by_alice])]).
Proof.
  apply (self_query_without_filter (fixed_index [by_alice; by_bob])
           ["source"; "page"; "type"; "date"] "notes" 1 [] [] (JObj []));
    reflexivity.
Defined.

(** X12: when the model's answer parses as JSON that is truthy but not an
    object (a list, a number, a string), [filters.items()] raises on the
    first candidate and the handler takes over: the result is whatever a
    second [similarity_search(query, k)] gives, unfiltered and uncut. *)
Theorem self_query_non_object_falls_back (w : World)
    (metadata_fields : list string) (query : string) (k : Z) (t t1 : trace)
    (filters : json) (doc : Document) (docs : list Document) :
  extract_filters w metadata_fields query t = (Returns filters, t1) ->
  truthy filters = true ->
  (forall fields, filters <> JObj fields) ->
  similarity_search w t1 query k = Returns (doc :: docs) ->
  retrieve w (SelfQueryRetriever metadata_fields) query k t =
  vs_search w query k (t1 ++ [EvSearch query k (Returns (doc :: docs))]).
Proof.
  intros He Ht Hno Hs. simpl.
  unfold self_query_retrieve, try_except, bind at 1. rewrite He.
  unfold bind at 1, vs_search at 1. rewrite Hs, Ht.
  unfold bind, lift. simpl filter_docs.
  destruct filters; try reflexivity.
  exfalso. now apply (Hno fields).
Qed.

Lemma self_query_non_object_falls_back_witness :
  retrieve (json_world [by_alice; by_bob] "[1]" (JArr [JNum 1]))
    (SelfQueryRetriever ["source"; "page"; "type"; "date"]) "notes" 2 [] =
  vs_search (json_world [by_alice; by_bob] "[1]" (JArr [JNum 1])) "notes" 2
    ([EvLlm (filter_prompt ["source"; "page"; "type"; "date"] "notes")
        (Returns "[1]")] ++
     [EvSearch "notes" 2 (Returns [by_alice; by_bob])]).
Proof.
  apply (self_query_non_object_falls_back
           (json_world [by_alice; by_bob] "[1]" (JArr [JNum 1]))
           ["source"; "page"; "type"; "date"] "notes" 2 []
           [EvLlm (filter_prompt ["source"; "page"; "type"; "date"] "notes")
              (Returns "[1]")]
           (JArr [JNum 1]) by_alice [by_bob]);
    try reflexivity.
  intros fields. discriminate.
Defined.

(* ================================================================== *)
(** ** The calls of context re-ranking *)

Lemma llm_prompts_app (a b : trace) :
  llm_prompts (a ++ b) = llm_prompts a ++ llm_prompts b.
Proof. unfold llm_prompts. now rewrite flat_map_app. Qed.

Lemma score_relevance_calls (w : World) (query : string) (doc : Document)
    (t : trace) :
  exists s evs,
    score_relevance w query doc t = (Returns s, t ++ evs) /\
    searches evs = [] /\
    llm_prompts evs =
      match llm w with
      | Some _ => [relevance_prompt query doc]
      | None => []
      end.
Proof.
  unfold score_relevance. destruct (llm w) as [client |].
  - unfold try_except, bind, llm_invoke, ret.
    destruct (client t (relevance_prompt query doc)) as [content | e].
    + destruct (float_of_str w (strip content));
        eexists _, _; repeat split; reflexivity.
    + eexists _, _. repeat split; reflexivity.
  - exists 1%float, []. now rewrite app_nil_r.
Qed.

Lemma scoring_loop_calls (w : World) (query : string) (pool : list Document)
    (acc : list (Document * float)) (t : trace) :
  exists scores evs,
    for_each pool
      (fun doc scored_docs =>
         let* score := score_relevance w query doc in
         ret (scored_docs ++ [(doc, score)]))
      acc t = (Returns (acc ++ combine pool scores), t ++ evs) /\
    length scores = length pool /\
    searches evs = [] /\
    llm_prompts evs =
      match llm w with
      | Some _ => map (relevance_prompt query) pool
      | None => []
      end.
Proof.
  revert acc t. induction pool as [| doc pool IH]; intros acc t.
  - exists [], []. simpl. rewrite !app_nil_r. unfold ret.
    repeat split. now destruct (llm w).
  - destruct (score_relevance_calls w query doc t)
      as (s & evs1 & Hrun & Hs1 & Hp1).
    destruct (IH (acc ++ [(doc, s)]) (t ++ evs1))
      as (scores & evs2 & Hloop & Hlen & Hs2 & Hp2).
    exists (s :: scores), (evs1 ++ evs2).
    split; [| split; [| split]].
    + simpl for_each. unfold bind at 1. unfold bind at 1. rewrite Hrun.
      unfold ret at 1. rewrite Hloop. simpl. now rewrite <- !app_assoc.
    + simpl. now rewrite Hlen.
    + now rewrite searches_app, Hs1, Hs2.
    + rewrite llm_prompts_app, Hp1, Hp2. now destruct (llm w).
Qed.

(** X13: once the pool search has answered, Context Re-Ranking never
    raises; it issues that one search, of size [rerank_top_k], and rates
    every candidate of the pool exactly once, in pool order (no call at
    all without a model); it returns passages of the pool only, as many as
    the smaller of [k] and the pool size. *)
Theorem reranking_calls (w : World) (rerank_top_k : Z) (query : string)
    (k : Z) (t : trace) (pool : list Document) :
  similarity_search w t query rerank_top_k = Returns pool ->
  exists docs evs,
    retrieve w (ContextReRankingRetriever rerank_top_k) query k t =
      (Returns docs, t ++ evs) /\
    searches evs = [(query, rerank_top_k)] /\
    llm_prompts evs =
      match llm w with
      | Some _ => map (relevance_prompt query) pool
      | None => []
      end /\
    incl docs pool /\
    ((0 <= k)%Z ->
     Z.of_nat (length docs) = Z.min k (Z.of_nat (length pool))).
Proof.
  intros Hs. simpl.
  unfold rerank_retrieve, try_except, bind at 1, vs_search at 1. rewrite Hs.
  destruct pool as [| doc pool].
  - exists [], [EvSearch query rerank_top_k (Returns [])]. unfold ret.
    repeat split.
    + now destruct (llm w).
    + intros d [].
    + simpl. lia.
  - destruct (scoring_loop_calls w query (doc :: pool) []
                (t ++ [EvSearch query rerank_top_k (Returns (doc :: pool))]))
      as (scores & evs & Hloop & Hlen & Hsr & Hp).
    cbv beta iota. unfold bind at 1. rewrite Hloop. unfold ret.
    eexists _, (EvSearch query rerank_top_k (Returns (doc :: pool)) :: evs).
    split; [simpl app; now rewrite <- app_assoc |].
    split; [simpl; now rewrite Hsr |]. split; [exact Hp |]. split.
    + intros d Hd. apply in_map_iff in Hd as ([d' s] & <- & Hd).
      apply slice_to_incl, sorted_desc_In in Hd.
      now apply (in_combine_l (doc :: pool) scores) in Hd.
    + intros Hk. rewrite length_map, slice_to_nonneg by exact Hk.
      rewrite length_take, sorted_desc_length.
      assert (Hc : length (combine (doc :: pool) scores)
                   = length (doc :: pool))
        by (rewrite length_combine, Hlen; lia).
      simpl app. simpl combine in Hc. rewrite Hc. lia.
Qed.

Lemma reranking_calls_witness :
  exists docs evs,
    retrieve (echo_world [doc_c; doc_d; doc_b])
      (ContextReRankingRetriever 5) "q" 2 [] = (Returns docs, [] ++ evs) /\
    searches evs = [("q", 5%Z)] /\
    llm_prompts evs =
      match llm (echo_world [doc_c; doc_d; doc_b]) with
      | Some _ => map (relevance_prompt "q") [doc_c; doc_d; doc_b]
      | None => []
      end /\
    incl docs [doc_c; doc_d; doc_b] /\
    ((0 <= 2)%Z -> Z.of_nat (length docs) =
                   Z.min 2 (Z.of_nat (length [doc_c; doc_d; doc_b]))).
Proof.
  apply (reranking_calls (echo_world [doc_c; doc_d; doc_b]) 5 "q" 2 []
           [doc_c; doc_d; doc_b]).
  reflexivity.
Defined.

(* ================================================================== *)
(** ** What the factory builds *)

Lemma unregistered (n : string) :
  n <> "semantic" -> n <> "hybrid" -> n <> "query_expansion" ->
  n <> "reranking" -> n <> "self_query" -> n <> "multihop" ->
  assoc n _strategies = None /\
  existsb (String.eqb n) get_available_strategies = false.
Proof.
  intros H1 H2 H3 H4 H5 H6.
  unfold get_available_strategies, _strategies.
  cbn [assoc existsb map fst].
  repeat match goal with
         | |- context [String.eqb ?a ?b] =>
             rewrite (proj2 (String.eqb_neq a b)) by congruence
         end.
  split; reflexivity.
Qed.

(** The class the factory picks, by cases on the lower-case identifier. *)
Lemma create_cases (name : string) (kwargs : list kwarg) :
  exists c,
    create name kwargs = construct c kwargs /\
    assoc (resolved_name name) _strategies = Some c /\
    (c = CHybrid <-> lower name = "hybrid").
Proof.
  unfold create, resolved_name. remember (lower name) as n eqn:En. clear En.
  destruct (string_dec n "semantic") as [-> | H1];
    [exists CSemantic; repeat split; discriminate |].
  destruct (string_dec n "hybrid") as [-> | H2];
    [exists CHybrid; repeat split |].
  destruct (string_dec n "query_expansion") as [-> | H3];
    [exists CQueryExpansion; repeat split; discriminate |].
  destruct (string_dec n "reranking") as [-> | H4];
    [exists CReRanking; repeat split; discriminate |].
  destruct (string_dec n "self_query") as [-> | H5];
    [exists CSelfQuery; repeat split; discriminate |].
  destruct (string_dec n "multihop") as [-> | H6];
    [exists CMultiHop; repeat split; discriminate |].
  destruct (unregistered n H1 H2 H3 H4 H5 H6) as [-> ->].
  exists CSemantic. repeat split; try discriminate. intros E. now subst.
Qed.

Lemma construct_name (c : StrategyClass) (kwargs : list kwarg) (s : Strategy)
    (name : string) :
  construct c kwargs = Returns s ->
  assoc name _strategies = Some c ->
  assoc "name" (get_info s) = Some (IStr name).
Proof.
  intros Hc Ha.
  assert (Hn : name = match c with
                      | CSemantic => "semantic" | CHybrid => "hybrid"
                      | CQueryExpansion => "query_expansion"
                      | CReRanking => "reranking"
                      | CSelfQuery => "self_query"
                      | CMultiHop => "multihop"
                      end).
  { apply assoc_In in Ha. unfold _strategies in Ha. cbn [In] in Ha.
    repeat destruct Ha as [Ha | Ha];
      try (injection Ha as <- <-; reflexivity).
    contradiction. }
  subst name.
  destruct c; destruct kwargs as [| [] [|]]; simpl in Hc; try discriminate Hc;
    injection Hc as <-; reflexivity.
Qed.

Lemma construct_raises (c : StrategyClass) (kwargs : list kwarg) (e : exn) :
  construct c kwargs = Raises e -> e = TypeError /\ kwargs <> [].
Proof.
  destruct c; destruct kwargs as [| [] [|]]; simpl; intros H;
    try discriminate H; injection H as <-; split; try reflexivity;
    discriminate.
Qed.

Lemma construct_hybrid (c : StrategyClass) (kwargs : list kwarg) (sw kw : float)
    (b : option Bm25) :
  construct c kwargs = Returns (HybridRetriever sw kw b) ->
  c = CHybrid /\ kw = (1 - sw)%float /\ b = None.
Proof.
  destruct c; destruct kwargs as [| [] [|]]; simpl; intros H;
    try discriminate H; injection H as <- <- <-; repeat split.
Qed.

Lemma resolved_name_available (name : string) :
  In (resolved_name name) get_available_strategies.
Proof.
  destruct (create_cases name []) as (c & _ & Ha & _).
  apply assoc_In in Ha. now apply (in_map fst) in Ha.
Qed.

Lemma create_name (name : string) (kwargs : list kwarg) (s : Strategy) :
  create name kwargs = Returns s ->
  assoc "name" (get_info s) = Some (IStr (resolved_name name)).
Proof.
  intros H. destruct (create_cases name kwargs) as (c & Hc & Ha & _).
  rewrite Hc in H. now apply (construct_name c kwargs).
Qed.

(** X14: the strategy the factory returns describes itself under the
    registered name the identifier resolves to: the lower-case identifier
    when it is registered, "semantic" otherwise, whatever the options. *)
Theorem created_strategy_reports_resolved_name (name : string)
    (kwargs : list kwarg) (s : Strategy) :
  create name kwargs = Returns s ->
  In (resolved_name name) get_available_strategies /\
  assoc "name" (get_info s) = Some (IStr (resolved_name name)) /\
  assoc "type" (get_info s) = Some (IStr (resolved_name name)).
Proof.
  intros H. destruct (create_cases name kwargs) as (c & Hc & Ha & _).
  rewrite Hc in H. split; [| split].
  - apply assoc_In in Ha. now apply (in_map fst) in Ha.
  - now apply (construct_name c kwargs).
  - pose proof (construct_name c kwargs s _ H Ha) as Hn.
    destruct s; simpl in Hn |- *; exact Hn.
Qed.

Lemma created_strategy_reports_resolved_name_witness :
  In (resolved_name "Multi-Hop") get_available_strategies /\
  assoc "name" (get_info SemanticRetriever) =
    Some (IStr (resolved_name "Multi-Hop")) /\
  assoc "type" (get_info SemanticRetriever) =
    Some (IStr (resolved_name "Multi-Hop")).
Proof.
  apply (created_strategy_reports_resolved_name "Multi-Hop" []).
  reflexivity.
Defined.

(* ================================================================== *)
(** ** What the manager holds after [initialize_strategy] *)

(** X15: when the factory builds a Hybrid strategy, its keyword weight is
    the float [1.0 - semantic_weight] (with the default weight 0.6 the two
    sum to 1.0) and it has no lexical index; the manager then asks the
    index once, for the empty text and 1000 passages, and the strategy it
    holds has a lexical index exactly when that search and the construction
    of the index both succeeded; a failure of either leaves the manager
    with the unbuilt Hybrid strategy, recorded under the identifier as it
    was given. *)
Theorem hybrid_bootstrap (w : World) (name : string) (kwargs : list kwarg)
    (t : trace) (sw kw : float) (b0 : option Bm25) :
  create name kwargs = Returns (HybridRetriever sw kw b0) ->
  let r := similarity_search w t EmptyString 1000 in
  kw = (1 - sw)%float /\ b0 = None /\
  (kwargs = [] -> sw = 0.6%float /\ (sw + kw)%float = 1%float) /\
  initialize_strategy w (Some name) kwargs t =
    (Returns (mkManager (Some (HybridRetriever sw kw (bootstrap_index w r)))
                (Some name)),
     t ++ [EvSearch EmptyString 1000 r]).
Proof.
  intros H r. destruct (create_cases name kwargs) as (c & Hc & _ & Hh).
  rewrite Hc in H. destruct (construct_hybrid _ _ _ _ _ H) as (-> & -> & ->).
  split; [reflexivity |]. split; [reflexivity |]. split.
  - intros ->. simpl in H. injection H as <-. split; reflexivity.
  - rewrite <- Hc in H.
    unfold initialize_strategy, try_except, bind at 1, lift at 1. rewrite H.
    rewrite (proj1 Hh eq_refl). simpl String.eqb. cbv iota.
    unfold bind, vs_search, lift, ret, set_bm25_retriever, bootstrap_index.
    fold r. destruct r as [all_docs | e]; [| reflexivity].
    now destruct (bm25_from_documents w all_docs).
Qed.

Lemma hybrid_bootstrap_witness :
  let r := similarity_search (indexable [doc_a; doc_b]) [] EmptyString 1000 in
  (1 - 0.8)%float = (1 - 0.8)%float /\ @None Bm25 = None /\
  ([KwSemanticWeight 0.8%float] = [] ->
   0.8%float = 0.6%float /\ (0.8 + (1 - 0.8))%float = 1%float) /\
  initialize_strategy (indexable [doc_a; doc_b]) (Some "HYBRID")
    [KwSemanticWeight 0.8%float] [] =
    (Returns
       (mkManager
          (Some (HybridRetriever 0.8%float (1 - 0.8)%float
                   (bootstrap_index (indexable [doc_a; doc_b]) r)))
          (Some "HYBRID")),
     [] ++ [EvSearch EmptyString 1000 r]).
Proof.
  apply (hybrid_bootstrap (indexable [doc_a; doc_b]) "HYBRID"
           [KwSemanticWeight 0.8%float] [] 0.8%float (1 - 0.8)%float None).
  reflexivity.
Defined.

(** X16: for any identifier other than "hybrid" (in any case) that the
    factory accepts, initialisation touches neither the index nor the
    model, and records the identifier exactly as given, while the
    descriptor of the manager carries the registered name it resolved to,
    one of [list_available_strategies]: for an unknown identifier the two
    differ. *)
Theorem initialize_records_identifier_as_given (w : World) (name : string)
    (kwargs : list kwarg) (t : trace) (s : Strategy) :
  create name kwargs = Returns s ->
  lower name <> "hybrid" ->
  exists m,
    initialize_strategy w (Some name) kwargs t = (Returns m, t) /\
    retriever m = Some s /\
    current_strategy m = Some name /\
    assoc "name" (get_strategy_info m) = Some (IStr (resolved_name name)) /\
    In (resolved_name name) list_available_strategies.
Proof.
  intros H Hn. exists (mkManager (Some s) (Some name)).
  split; [| split; [reflexivity | split; [reflexivity | split]]];
    [| | apply resolved_name_available].
  - unfold initialize_strategy, try_except, bind at 1, lift at 1. rewrite H.
    destruct (String.eqb_spec (lower name) "hybrid") as [E | _];
      [contradiction |].
    reflexivity.
  - exact (create_name name kwargs s H).
Qed.

Lemma initialize_records_identifier_as_given_witness :
  exists m,
    initialize_strategy offline (Some "Dense Passage") [] [] =
      (Returns m, []) /\
    retriever m = Some SemanticRetriever /\
    current_strategy m = Some "Dense Passage" /\
    assoc "name" (get_strategy_info m) =
      Some (IStr (resolved_name "Dense Passage")) /\
    In (resolved_name "Dense Passage") list_available_strategies.
Proof.
  apply (initialize_records_identifier_as_given offline "Dense Passage" [] []
           SemanticRetriever).
  - reflexivity.
  - discriminate.
Defined.

(** X17: a manager that holds no strategy initialises itself on its first
    query from the identifier of the environment ("semantic" when there is
    none) with the constructor's default options, whatever the identifier,
    and answers with the strategy it then holds; for "hybrid" the bootstrap
    search comes first and the strategy has the lexical index it could
    build, for any other identifier the query's own calls are the only ones
    made. *)
Theorem first_query_initialises (w : World) (m : RetrieverManager)
    (query : string) (k : Z) (t : trace) :
  retriever m = None ->
  exists s0,
    create (env_strategy_name w) [] = Returns s0 /\
    manager_retrieve w m query k t =
      (let '(s, t0) := bootstrapped w t (env_strategy_name w) s0 in
       match retrieve w s query k t0 with
       | (Returns docs, t') =>
           (Returns (mkManager (Some s) (Some (env_strategy_name w)), docs),
            t')
       | (Raises e, t') => (Raises e, t')
       end).
Proof.
  intros Hm.
  destruct (create_cases (env_strategy_name w) []) as (c & Hc & _ & Hh).
  destruct (construct_no_kwargs c) as [s0 Hs]. rewrite Hs in Hc.
  exists s0. split; [exact Hc |].
  unfold manager_retrieve. rewrite Hm. unfold bind at 1.
  unfold initialize_strategy, try_except, bind at 1, lift at 1.
  fold (env_strategy_name w). rewrite Hc. unfold bootstrapped.
  destruct (String.eqb_spec (lower (env_strategy_name w)) "hybrid")
    as [E | _].
  - apply Hh in E. subst c. simpl in Hs. injection Hs as <-.
    unfold try_except, bind, vs_search, lift, ret, set_bm25_retriever,
      bootstrap_index.
    destruct (similarity_search w t EmptyString 1000) as [all_docs | e];
      [destruct (bm25_from_documents w all_docs) as [b | e] |];
      cbn [retriever];
      match goal with
      | |- context [retrieve w ?s query k ?t0] =>
          now destruct (retrieve w s query k t0) as [[docs | e'] t']
      end.
  - unfold bind, ret. cbn [retriever].
    now destruct (retrieve w s0 query k t) as [[docs | e] t'].
Qed.

Lemma first_query_initialises_witness :
  exists s0,
    create (env_strategy_name (with_env "Hybrid" (indexable [doc_a; doc_b])))
      [] = Returns s0 /\
    manager_retrieve (with_env "Hybrid" (indexable [doc_a; doc_b]))
      new_manager "q" 1 [] =
      (let '(s, t0) :=
         bootstrapped (with_env "Hybrid" (indexable [doc_a; doc_b])) []
           (env_strategy_name (with_env "Hybrid" (indexable [doc_a; doc_b])))
           s0 in
       match retrieve (with_env "Hybrid" (indexable [doc_a; doc_b])) s
               "q" 1 t0 with
       | (Returns docs, t') =>
           (Returns
              (mkManager (Some s)
                 (Some (env_strategy_name
                          (with_env "Hybrid" (indexable [doc_a; doc_b])))),
               docs), t')
       | (Raises e, t') => (Raises e, t')
       end).
Proof.
  apply (first_query_initialises
           (with_env "Hybrid" (indexable [doc_a; doc_b])) new_manager
           "q" 1 []).
  reflexivity.
Defined.

(** With the environment naming "Hybrid", the first query of a fresh
    manager makes the bootstrap search, then Hybrid's two lookups. *)
Lemma first_query_bootstraps_hybrid :
  map (fun ev => match ev with
                 | EvSearch q k _ => (q, k)
                 | EvLexical q _ => (q, 0%Z)
                 | EvLlm p _ => (p, 0%Z)
                 end)
    (snd (manager_retrieve (with_env "Hybrid" (indexable [doc_a; doc_b]))
            new_manager "q" 1 [])) =
  [(EmptyString, 1000%Z); ("q", 1%Z); ("q", 0%Z)].
Proof. vm_compute. reflexivity. Qed.

(* ================================================================== *)
(** ** The environment reader *)

Lemma split_on_nonempty (sep : ascii) (s : string) : split_on sep s <> [].
Proof.
  induction s as [| c s IH]; simpl; [discriminate |].
  destruct (Ascii.eqb c sep); [discriminate |].
  destruct (split_on sep s); discriminate.
Qed.

(** The options the reader builds are those of the class the factory
    picks. *)
Lemma env_kwargs_accepted (env : Environ) (name : string)
    (kwargs : list kwarg) :
  env_kwargs env name = Returns kwargs ->
  exists s, create name kwargs = Returns s.
Proof.
  unfold env_kwargs, create. remember (lower name) as n eqn:En. clear En.
  destruct (string_dec n "semantic") as [-> | H1];
    [intros [= <-]; simpl; eauto |].
  destruct (string_dec n "hybrid") as [-> | H2].
  { cbn -[getenv_or]. destruct (py_float env _); intros [= <-]; eauto. }
  destruct (string_dec n "query_expansion") as [-> | H3].
  { cbn -[getenv_or]. destruct (py_int env _); intros [= <-]; eauto. }
  destruct (string_dec n "reranking") as [-> | H4].
  { cbn -[getenv_or]. destruct (py_int env _); intros [= <-]; eauto. }
  destruct (string_dec n "self_query") as [-> | H5].
  { cbn -[getenv_or split_on]. intros [= <-]. eauto. }
  destruct (string_dec n "multihop") as [-> | H6].
  { cbn -[getenv_or]. destruct (py_int env _); intros [= <-]; eauto. }
  destruct (unregistered n H1 H2 H3 H4 H5 H6) as [-> _].
  repeat match goal with
         | |- context [String.eqb ?a ?b] =>
             rewrite (proj2 (String.eqb_neq a b)) by congruence
         end.
  intros [= <-]. simpl. eauto.
Qed.

Lemma env_kwargs_raises (env : Environ) (name : string) (e : exn) :
  env_kwargs env name = Raises e -> e = ValueError.
Proof.
  unfold env_kwargs.
  repeat match goal with
         | |- context [if ?b then _ else _] => destruct b
         | |- context [match ?o with Some _ => _ | None => _ end] => destruct o
         end; intros H; try discriminate H; now injection H as <-.
Qed.

(** X18: [get_retrieval_strategy_from_env] raises nothing but the
    [ValueError] of a numeric variable that does not parse: the options it
    builds are always taken by the class the factory picks, whatever the
    identifier. *)
Theorem env_reader_raises_only_value_error (env : Environ) (e : exn) :
  get_retrieval_strategy_from_env env = Raises e ->
  e = ValueError /\ env_kwargs env (env_name env) = Raises ValueError.
Proof.
  unfold get_retrieval_strategy_from_env. fold (env_name env).
  destruct (env_kwargs env (env_name env)) as [kwargs | e'] eqn:E.
  - destruct (env_kwargs_accepted env _ kwargs E) as [s ->]. discriminate.
  - intros [= <-]. pose proof (env_kwargs_raises env _ _ E) as ->. now split.
Qed.

Lemma env_reader_raises_only_value_error_witness :
  ValueError = ValueError /\
  env_kwargs
    (environ_of [("RETRIEVAL_STRATEGY", "reranking"); ("RERANK_TOP_K", "five")])
    (env_name
       (environ_of
          [("RETRIEVAL_STRATEGY", "reranking"); ("RERANK_TOP_K", "five")])) =
  Raises ValueError.
Proof.
  apply (env_reader_raises_only_value_error
           (environ_of
              [("RETRIEVAL_STRATEGY", "reranking"); ("RERANK_TOP_K", "five")])
           ValueError).
  reflexivity.
Defined.

(** X19: with none of the five option variables set, and parsers that read
    the numerals "0.6", "3" and "5" as Python does, the reader builds what
    the factory builds for the same identifier without options. *)
Theorem env_reader_defaults (env : Environ) :
  py_float env "0.6" = Some 0.6%float ->
  py_int env "3" = Some 3%Z ->
  py_int env "5" = Some 5%Z ->
  getenv env "HYBRID_SEMANTIC_WEIGHT" = None ->
  getenv env "QUERY_EXPANSION_COUNT" = None ->
  getenv env "RERANK_TOP_K" = None ->
  getenv env "SELF_QUERY_METADATA_FIELDS" = None ->
  getenv env "MULTIHOP_MAX_HOPS" = None ->
  get_retrieval_strategy_from_env env = create (env_name env) [].
Proof.
  intros Hf H3 H5 G1 G2 G3 G4 G5.
  unfold get_retrieval_strategy_from_env. fold (env_name env).
  unfold env_kwargs, create, getenv_or. rewrite G1, G2, G3, G4, G5.
  cbn [default]. rewrite Hf, H3, H5.
  remember (lower (env_name env)) as n eqn:En. clear En.
  destruct (string_dec n "semantic") as [-> | N1]; [reflexivity |].
  destruct (string_dec n "hybrid") as [-> | N2]; [reflexivity |].
  destruct (string_dec n "query_expansion") as [-> | N3]; [reflexivity |].
  destruct (string_dec n "reranking") as [-> | N4]; [reflexivity |].
  destruct (string_dec n "self_query") as [-> | N5]; [reflexivity |].
  destruct (string_dec n "multihop") as [-> | N6]; [reflexivity |].
  destruct (unregistered n N1 N2 N3 N4 N5 N6) as [-> _].
  repeat match goal with
         | |- context [String.eqb ?a ?b] =>
             rewrite (proj2 (String.eqb_neq a b)) by congruence
         end.
  reflexivity.
Qed.

Lemma env_reader_defaults_witness :
  get_retrieval_strategy_from_env
    (environ_of [("RETRIEVAL_STRATEGY", "Self_Query")]) =
  create (env_name (environ_of [("RETRIEVAL_STRATEGY", "Self_Query")])) [].
Proof.
  apply (env_reader_defaults
           (environ_of [("RETRIEVAL_STRATEGY", "Self_Query")]));
    reflexivity.
Defined.

(** X20: for the identifier "self_query" (in any case) the reader never
    raises and never leaves the metadata fields to the constructor's
    defaults: the strategy holds the comma-separated pieces of the
    variable, which are never an empty list, even for an empty variable. *)
Theorem env_reader_self_query_fields (env : Environ) :
  lower (env_name env) = "self_query" ->
  exists field fields,
    split_on comma
      (getenv_or env "SELF_QUERY_METADATA_FIELDS" "source,page,type,date") =
      field :: fields /\
    get_retrieval_strategy_from_env env =
      Returns (SelfQueryRetriever (field :: fields)).
Proof.
  intros Hn.
  destruct (split_on comma
              (getenv_or env "SELF_QUERY_METADATA_FIELDS"
                 "source,page,type,date")) as [| field fields] eqn:E.
  - now apply split_on_nonempty in E.
  - exists field, fields. split; [reflexivity |].
    unfold get_retrieval_strategy_from_env. fold (env_name env).
    unfold env_kwargs, create. rewrite Hn. cbn -[getenv_or split_on].
    now rewrite E.
Qed.

Lemma env_reader_self_query_fields_witness :
  exists field fields,
    split_on comma
      (getenv_or
         (environ_of [("RETRIEVAL_STRATEGY", "SELF_QUERY");
                      ("SELF_QUERY_METADATA_FIELDS", EmptyString)])
         "SELF_QUERY_METADATA_FIELDS" "source,page,type,date") =
      field :: fields /\
    get_retrieval_strategy_from_env
      (environ_of [("RETRIEVAL_STRATEGY", "SELF_QUERY");
                   ("SELF_QUERY_METADATA_FIELDS", EmptyString)]) =
      Returns (SelfQueryRetriever (field :: fields)).
Proof.
  apply (env_reader_self_query_fields
           (environ_of [("RETRIEVAL_STRATEGY", "SELF_QUERY");
                        ("SELF_QUERY_METADATA_FIELDS", EmptyString)])).
  reflexivity.
Defined.

(* ================================================================== *)
(** ** The document processor *)

Lemma load_fold (tools : PdfTools) (file_paths : list string)
    (acc : list Document) (n : nat) :
  fold_left
    (fun '(all_documents, total_pages) file_path =>
       let documents := load_pdf tools file_path in
       (all_documents ++ documents, total_pages + length documents))
    file_paths (acc, n) =
  (acc ++ flat_map (load_pdf tools) file_paths,
   n + length (flat_map (load_pdf tools) file_paths)).
Proof.
  revert acc n. induction file_paths as [| p ps IH]; intros acc n; simpl.
  - now rewrite app_nil_r, Nat.add_0_r.
  - rewrite IH, <- app_assoc, length_app. f_equal. lia.
Qed.

Lemma load_multiple_pdfs_flat (tools : PdfTools) (file_paths : list string) :
  load_multiple_pdfs tools file_paths =
  (flat_map (load_pdf tools) file_paths,
   length (flat_map (load_pdf tools) file_paths)).
Proof. unfold load_multiple_pdfs. now rewrite load_fold. Qed.

(** X21: [load_multiple_pdfs] returns, in the order of the paths, the pages
    the loader returns for each file and nothing for a file whose loader
    raises, with a page count that is the length of that list; so the
    result distributes over the concatenation of path lists, and a failing
    file is skipped as if its path had not been given. *)
Theorem load_multiple_pdfs_counts (tools : PdfTools) :
  (forall file_paths,
     fst (load_multiple_pdfs tools file_paths) =
     flat_map
       (fun file_path =>
          match pdf_pages tools file_path with
          | Returns pages => pages
          | Raises _ => []
          end)
       file_paths) /\
  (forall file_paths,
     snd (load_multiple_pdfs tools file_paths) =
     length (fst (load_multiple_pdfs tools file_paths))) /\
  (forall before after,
     fst (load_multiple_pdfs tools (before ++ after)) =
     fst (load_multiple_pdfs tools before) ++
     fst (load_multiple_pdfs tools after)) /\
  (forall before file_path after e,
     pdf_pages tools file_path = Raises e ->
     load_multiple_pdfs tools (before ++ file_path :: after) =
     load_multiple_pdfs tools (before ++ after)).
Proof.
  repeat split.
  - intros file_paths. now rewrite load_multiple_pdfs_flat.
  - intros file_paths. now rewrite load_multiple_pdfs_flat.
  - intros before after. rewrite !load_multiple_pdfs_flat. simpl.
    apply flat_map_app.
  - intros before file_path after e H. rewrite !load_multiple_pdfs_flat.
    assert (E : flat_map (load_pdf tools) (before ++ file_path :: after) =
                flat_map (load_pdf tools) (before ++ after)).
    { rewrite !flat_map_app. f_equal. cbn [flat_map].
      unfold load_pdf at 1. now rewrite H. }
    now rewrite E.
Qed.

Lemma load_multiple_pdfs_counts_witness :
  load_multiple_pdfs two_files (["a.pdf"] ++ "b.pdf" :: ["c.pdf"]) =
    load_multiple_pdfs two_files (["a.pdf"] ++ ["c.pdf"]) /\
  fst (load_multiple_pdfs two_files ["a.pdf"; "b.pdf"; "c.pdf"]) =
    [doc_a; doc_b; doc_c].
Proof.
  split.
  - apply (proj2 (proj2 (proj2 (load_multiple_pdfs_counts two_files)))
             ["a.pdf"] "b.pdf" ["c.pdf"] (Exception "cannot open")).
    reflexivity.
  - rewrite (proj1 (load_multiple_pdfs_counts two_files)). reflexivity.
Defined.

(** X22: [process_pdfs] raises only what the splitter raises on the pages
    that could be loaded: an unreadable file never aborts the pipeline;
    when it returns, the chunk count is the length of the chunks and the
    page count is the number of pages handed to the splitter. *)
Theorem process_pdfs_outcome (tools : PdfTools) (file_paths : list string)
    (r : outcome (list Document * nat * nat)) :
  process_pdfs tools file_paths = r ->
  let pages := flat_map (load_pdf tools) file_paths in
  match r with
  | Returns (chunks, total_pages, total_chunks) =>
      splitter tools pages = Returns chunks /\
      total_pages = length pages /\
      total_chunks = length chunks
  | Raises e => splitter tools pages = Raises e
  end.
Proof.
  intros <-. unfold process_pdfs. rewrite load_multiple_pdfs_flat.
  unfold split_documents.
  now destruct (splitter tools (flat_map (load_pdf tools) file_paths)).
Qed.

Lemma process_pdfs_outcome_witness :
  splitter two_files (flat_map (load_pdf two_files) ["a.pdf"; "b.pdf"; "c.pdf"])
    = Returns [doc_a; doc_b; doc_c] /\
  3 = length (flat_map (load_pdf two_files) ["a.pdf"; "b.pdf"; "c.pdf"]) /\
  3 = length [doc_a; doc_b; doc_c].
Proof.
  apply (process_pdfs_outcome two_files ["a.pdf"; "b.pdf"; "c.pdf"]
           (Returns ([doc_a; doc_b; doc_c], 3, 3))).
  reflexivity.
Defined.

(* ================================================================== *)
(** ** Hybrid when the lexical index fails *)

(** X23: when the vector search answers and the lexical index raises,
    Hybrid searches the vector index a second time and hands back that
    second answer as it is, without fusion and without the cut to [k]: its
    outcome, an exception included, is the outcome of the second search. *)
Theorem hybrid_lexical_failure (w : World) (sw kw : float) (bm25 : Bm25)
    (query : string) (k : Z) (t : trace) (semantic_docs : list Document)
    (e : exn) :
  similarity_search w t query k = Returns semantic_docs ->
  bm25 query = Raises e ->
  let t1 := t ++ [EvSearch query k (Returns semantic_docs);
                  EvLexical query (Raises e)] in
  retrieve w (HybridRetriever sw kw (Some bm25)) query k t =
    (similarity_search w t1 query k,
     t1 ++ [EvSearch query k (similarity_search w t1 query k)]).
Proof.
  intros Hs Hb t1. simpl.
  unfold hybrid_retrieve, try_except, bind, vs_search at 1, bm25_invoke.
  rewrite Hs, Hb. unfold vs_search. subst t1.
  now rewrite <- !app_assoc.
Qed.

Lemma hybrid_lexical_failure_witness :
  let t1 := [] ++ [EvSearch "q" 1 (Returns [doc_a]);
                   EvLexical "q" (Raises index_down)] in
  retrieve (fixed_index [doc_a; doc_b])
    (HybridRetriever 0.6%float 0.4%float (Some (fun _ => Raises index_down)))
    "q" 1 [] =
    (similarity_search (fixed_index [doc_a; doc_b]) t1 "q" 1,
     t1 ++ [EvSearch "q" 1
              (similarity_search (fixed_index [doc_a; doc_b]) t1 "q" 1)]).
Proof.
  apply (hybrid_lexical_failure (fixed_index [doc_a; doc_b]) 0.6%float 0.4%float
           (fun _ => Raises index_down) "q" 1 [] [doc_a] index_down);
    reflexivity.
Defined.
